(** * Themis orchestration engine: retry, circuit breaker, step protocol,
      resumable re-execution, background jobs and document sharing.

    The development follows the Python sources under [orchestrator/]:
    [retry.py], [circuit_breaker.py], [validation.py], [service.py] and
    [async_execution.py].  Python floats (delays, clock readings) are read as
    exact rationals; dictionaries whose iteration order the code observes are
    association lists in insertion order. *)

From Stdlib Require Import Ascii String QArith Qminmax Qpower Lqa.
From stdpp Require Import base option list strings gmap.

Open Scope string_scope.
Open Scope list_scope.
Open Scope Z_scope.

(** ** Exceptions and outcomes *)

(** A raised Python exception: its class, the classes it inherits from, and
    what [str(exc)] prints.  Only instances of [Exception] are modelled; they
    are what every [except Exception] clause of the sources handles. *)
Record exn := Exn {
  exn_class : string;
  exn_bases : list string;
  exn_str : string
}.

#[global] Instance exn_eq_dec : EqDecision exn.
Proof. solve_decision. Defined.

(** [isinstance(exc, classes)] for a tuple of classes. *)
Definition isinstance (e : exn) (classes : list string) : bool :=
  existsb (fun c => bool_decide (c ∈ exn_class e :: exn_bases e)) classes.

(** What awaiting a callable gives: a value, or a raised exception. *)
Inductive outcome (A : Type) : Type :=
| Returned (a : A)
| Raised (e : exn).
Arguments Returned {A} a.
Arguments Raised {A} e.

(** ** Python values and dictionaries *)

(** The JSON-like payloads the orchestrator passes around ([Any] in the
    type hints).  A dictionary keeps its items in insertion order, which
    [_find_nested_artifact] observes through [payload.values()]. *)
#[warnings="-register-all"]
Inductive value :=
| VNone
| VBool (b : bool)
| VNum (n : Z)
| VStr (s : string)
| VList (items : list value)
| VDict (items : list (string * value)).

Abbreviation dict := (list (string * value)).

(** Python truthiness. *)
Definition truthy (v : value) : bool :=
  match v with
  | VNone => false
  | VBool b => b
  | VNum n => negb (n =? 0)
  | VStr s => negb (String.eqb s "")
  | VList items => match items with [] => false | _ => true end
  | VDict items => match items with [] => false | _ => true end
  end.

Definition is_none (v : value) : bool :=
  match v with VNone => true | _ => false end.

(** [type(v).__name__]. *)
Definition type_name (v : value) : string :=
  match v with
  | VNone => "NoneType"
  | VBool _ => "bool"
  | VNum _ => "int"
  | VStr _ => "str"
  | VList _ => "list"
  | VDict _ => "dict"
  end.

(** [d.get(k)]: the first (and, in a well-formed dictionary, only) item
    stored under [k]. *)
Fixpoint dict_get (d : dict) (k : string) : option value :=
  match d with
  | [] => None
  | (k', v) :: rest => if String.eqb k' k then Some v else dict_get rest k
  end.

(** [d[k] = v]: overwrite in place, or append a new item. *)
Fixpoint dict_set (d : dict) (k : string) (v : value) : dict :=
  match d with
  | [] => [(k, v)]
  | (k', v') :: rest =>
      if String.eqb k' k then (k', v) :: rest else (k', v') :: dict_set rest k v
  end.

(** [d.update(other)]. *)
Definition dict_update (d other : dict) : dict :=
  fold_left (fun acc kv => dict_set acc kv.1 kv.2) other d.

(** [d.get(k)] as Python sees it: [None] for a missing key. *)
Definition dict_get_or_none (d : dict) (k : string) : value :=
  default VNone (dict_get d k).

Definition dict_has (d : dict) (k : string) : bool :=
  match dict_get d k with Some _ => true | None => false end.

(** A dictionary stores each key once. *)
Definition unique_keys (d : dict) : Prop := NoDup (map fst d).

(** [needle in haystack] for two strings. *)
Fixpoint is_substring (needle haystack : string) : bool :=
  String.prefix needle haystack ||
  match haystack with
  | EmptyString => false
  | String _ rest => is_substring needle rest
  end.

(** ** orchestrator/retry.py *)
Module Retry.

Inductive BackoffStrategy := CONSTANT | LINEAR | EXPONENTIAL.

Record RetryPolicy := {
  max_attempts : Z;
  base_delay_seconds : Q;
  max_delay_seconds : Q;
  backoff_strategy : BackoffStrategy;
  jitter : Q;
  retryable_exceptions : list string
}.

(** The delay before jitter and before the cap, as each branch of
    [compute_delay] writes it.  [2 ** (attempt - 1)] is a power of two also
    for a non-positive [attempt], where Python gives the float [2^(attempt-1)]. *)
Definition backoff_delay (p : RetryPolicy) (attempt : Z) : Q :=
  match backoff_strategy p with
  | CONSTANT => base_delay_seconds p
  | LINEAR => base_delay_seconds p * inject_Z attempt
  | EXPONENTIAL => base_delay_seconds p * (2 ^ (attempt - 1))
  end%Q.

(** [compute_delay]; [rnd] is the value [random.random()] draws, which the
    code only asks for when [jitter > 0]. *)
Definition compute_delay (p : RetryPolicy) (attempt : Z) (rnd : Q) : Q :=
  let delay := Qmin (backoff_delay p attempt) (max_delay_seconds p) in
  if Qlt_le_dec 0 (jitter p)
  then (delay + delay * jitter p * rnd)%Q
  else delay.

Definition should_retry (p : RetryPolicy) (exception : exn) (attempt : Z) : bool :=
  if attempt >=? max_attempts p then false
  else isinstance exception (retryable_exceptions p).

Record RetryResult (A : Type) := {
  success : bool;
  result : option A;
  attempts : Z;
  last_exception : option exn;
  exceptions : list exn
}.
Arguments success {A} _.
Arguments result {A} _.
Arguments attempts {A} _.
Arguments last_exception {A} _.
Arguments exceptions {A} _.

Section RetryAsync.
Context {A : Type}.
  (** [operation n] is what the [n]-th invocation of the awaited operation
      does; [rnd n] is the random draw of the delay computed at attempt [n]. *)
Variable operation : Z -> outcome A.
Variable policy : RetryPolicy.
Variable rnd : Z -> Q.

  (** The result built after the [for] loop ends or breaks. *)
Definition gave_up (last : option exn) (excs : list exn) : RetryResult A :=
    {| success := false; result := None;
       attempts := Z.of_nat (length excs);
       last_exception := last; exceptions := excs |}.

  (** The body of [for attempt in range(1, max_attempts + 1)], with
      [remaining] iterations left; the second component collects the delays
      handed to [asyncio.sleep]. *)
Fixpoint retry_loop (remaining : nat) (attempt : Z)
      (last : option exn) (excs : list exn) (slept : list Q)
      : RetryResult A * list Q :=
    match remaining with
    | O => (gave_up last excs, slept)
    | S remaining' =>
      match operation attempt with
      | Returned r =>
          ({| success := true; result := Some r; attempts := attempt;
              last_exception := None; exceptions := excs |}, slept)
      | Raised exc =>
          let excs' := excs ++ [exc] in
          if should_retry policy exc attempt
          then retry_loop remaining' (attempt + 1) (Some exc) excs'
                 (slept ++ [compute_delay policy attempt (rnd attempt)])
          else (gave_up (Some exc) excs', slept)
      end
    end.

Definition retry_async : RetryResult A * list Q :=
    retry_loop (Z.to_nat (max_attempts policy)) 1 None [] [].
End RetryAsync.

Definition DEFAULT_AGENT_RETRY_POLICY : RetryPolicy :=
  {| max_attempts := 3; base_delay_seconds := 1; max_delay_seconds := 30;
     backoff_strategy := EXPONENTIAL; jitter := 1 # 10;
     retryable_exceptions := ["Exception"] |}.

Definition NO_RETRY_POLICY : RetryPolicy :=
  {| max_attempts := 1; base_delay_seconds := 1; max_delay_seconds := 30;
     backoff_strategy := EXPONENTIAL; jitter := 1 # 10;
     retryable_exceptions := ["Exception"] |}.

(** Sample operations and policies, after tests/orchestrator/test_retry.py. *)
Definition value_error (msg : string) : exn :=
  Exn "ValueError" ["Exception"; "BaseException"] msg.

(** A flaky operation: two [ValueError]s, then ["success"]. *)
Definition flaky_op (n : Z) : outcome string :=
  if n <=? 2 then Raised (value_error "fail") else Returned "success".



End Retry.

(** ** orchestrator/circuit_breaker.py *)
Module Breaker.

Inductive CircuitState := CLOSED | OPEN | HALF_OPEN.

#[global] Instance CircuitState_eq_dec : EqDecision CircuitState.
Proof. solve_decision. Defined.

Record CircuitBreakerConfig := {
  failure_threshold : Z;
  success_threshold : Z;
  timeout_seconds : Q;
  excluded_exceptions : list string
}.

Record CircuitStats := {
  total_calls : Z;
  successful_calls : Z;
  failed_calls : Z;
  rejected_calls : Z;
  last_failure_time : option Q;
  last_success_time : option Q;
  consecutive_failures : Z;
  consecutive_successes : Z
}.

Definition fresh_stats : CircuitStats :=
  {| total_calls := 0; successful_calls := 0; failed_calls := 0;
     rejected_calls := 0; last_failure_time := None; last_success_time := None;
     consecutive_failures := 0; consecutive_successes := 0 |}.

Record CircuitBreaker := {
  name : string;
  config : CircuitBreakerConfig;
  _state : CircuitState;
  _stats : CircuitStats;
  _opened_at : option Q
}.

(** [CircuitBreaker(name, config)]: closed, zeroed statistics, never opened. *)
Definition new_breaker (n : string) (c : CircuitBreakerConfig) : CircuitBreaker :=
  {| name := n; config := c; _state := CLOSED; _stats := fresh_stats;
     _opened_at := None |}.

Definition with_state (st : CircuitState) (b : CircuitBreaker) : CircuitBreaker :=
  {| name := name b; config := config b; _state := st; _stats := _stats b;
     _opened_at := _opened_at b |}.

Definition with_stats (s : CircuitStats) (b : CircuitBreaker) : CircuitBreaker :=
  {| name := name b; config := config b; _state := _state b; _stats := s;
     _opened_at := _opened_at b |}.

Definition with_opened_at (t : option Q) (b : CircuitBreaker) : CircuitBreaker :=
  {| name := name b; config := config b; _state := _state b; _stats := _stats b;
     _opened_at := t |}.

Definition set_streaks (failures successes : Z) (s : CircuitStats) : CircuitStats :=
  {| total_calls := total_calls s; successful_calls := successful_calls s;
     failed_calls := failed_calls s; rejected_calls := rejected_calls s;
     last_failure_time := last_failure_time s;
     last_success_time := last_success_time s;
     consecutive_failures := failures; consecutive_successes := successes |}.

(** Every function below that calls [time.time()] takes the value read as
    an argument, one argument per call. *)

Definition _open (now : Q) (b : CircuitBreaker) : CircuitBreaker :=
  let s := _stats b in
  with_stats (set_streaks (consecutive_failures s) 0 s)
    (with_opened_at (Some now) (with_state OPEN b)).

Definition _half_open (b : CircuitBreaker) : CircuitBreaker :=
  with_stats (set_streaks 0 0 (_stats b)) (with_state HALF_OPEN b).

Definition _close (b : CircuitBreaker) : CircuitBreaker :=
  let s := _stats b in
  with_stats (set_streaks 0 (consecutive_successes s) s)
    (with_opened_at None (with_state CLOSED b)).

Definition reset (b : CircuitBreaker) : CircuitBreaker :=
  with_stats fresh_stats (with_opened_at None (with_state CLOSED b)).

Definition _maybe_transition_to_half_open (now : Q) (b : CircuitBreaker)
    : CircuitBreaker :=
  match _state b with
  | OPEN =>
      match _opened_at b with
      | None => b
      | Some opened =>
          let elapsed := (now - opened)%Q in
          if Qle_bool (timeout_seconds (config b)) elapsed
          then _half_open b else b
      end
  | _ => b
  end.

Definition _time_until_half_open (now : Q) (b : CircuitBreaker) : Q :=
  match _opened_at b with
  | None => 0%Q
  | Some opened =>
      let elapsed := (now - opened)%Q in
      let remaining := (timeout_seconds (config b) - elapsed)%Q in
      Qmax 0 remaining
  end.

Definition _on_success (now : Q) (b : CircuitBreaker) : CircuitBreaker :=
  let s := _stats b in
  let s' := {| total_calls := total_calls s;
               successful_calls := successful_calls s + 1;
               failed_calls := failed_calls s;
               rejected_calls := rejected_calls s;
               last_failure_time := last_failure_time s;
               last_success_time := Some now;
               consecutive_failures := 0;
               consecutive_successes := consecutive_successes s + 1 |} in
  let b' := with_stats s' b in
  match _state b' with
  | HALF_OPEN =>
      if consecutive_successes s' >=? success_threshold (config b')
      then _close b' else b'
  | _ => b'
  end.

Definition _on_failure (now now_open : Q) (b : CircuitBreaker) : CircuitBreaker :=
  let s := _stats b in
  let s' := {| total_calls := total_calls s;
               successful_calls := successful_calls s;
               failed_calls := failed_calls s + 1;
               rejected_calls := rejected_calls s;
               last_failure_time := Some now;
               last_success_time := last_success_time s;
               consecutive_failures := consecutive_failures s + 1;
               consecutive_successes := 0 |} in
  let b' := with_stats s' b in
  match _state b' with
  | HALF_OPEN => _open now_open b'
  | CLOSED =>
      if consecutive_failures s' >=? failure_threshold (config b')
      then _open now_open b' else b'
  | OPEN => b'
  end.

(** The four clock readings one [call] can make, in program order: in
    [_maybe_transition_to_half_open], in [_time_until_half_open], in
    [_on_success] or [_on_failure], and in [_open]. *)
Record readings := {
  t_check : Q;
  t_remaining : Q;
  t_outcome : Q;
  t_open : Q
}.

(** How [call] ends: with the function's value, with the function's own
    exception re-raised, or with [CircuitBreakerOpen(name, remaining)]. *)
Inductive call_result (A : Type) : Type :=
| CallReturned (a : A)
| CallRaised (e : exn)
| CircuitBreakerOpen (breaker_name : string) (remaining_seconds : Q).
Arguments CallReturned {A} a.
Arguments CallRaised {A} e.
Arguments CircuitBreakerOpen {A} breaker_name remaining_seconds.

Definition bump_rejected (b : CircuitBreaker) : CircuitBreaker :=
  let s := _stats b in
  with_stats {| total_calls := total_calls s;
                successful_calls := successful_calls s;
                failed_calls := failed_calls s;
                rejected_calls := rejected_calls s + 1;
                last_failure_time := last_failure_time s;
                last_success_time := last_success_time s;
                consecutive_failures := consecutive_failures s;
                consecutive_successes := consecutive_successes s |} b.

Definition bump_total (b : CircuitBreaker) : CircuitBreaker :=
  let s := _stats b in
  with_stats {| total_calls := total_calls s + 1;
                successful_calls := successful_calls s;
                failed_calls := failed_calls s;
                rejected_calls := rejected_calls s;
                last_failure_time := last_failure_time s;
                last_success_time := last_success_time s;
                consecutive_failures := consecutive_failures s;
                consecutive_successes := consecutive_successes s |} b.

Section Call.
Context {W A : Type}.

(** [call].  The wrapped function acts on a world [W] (whatever it touches
    when it runs) and returns or raises; a rejected call leaves the world as
    it was because the function is never reached. *)
Definition call (func : W -> outcome A * W) (t : readings)
    (b : CircuitBreaker) (w : W) : call_result A * CircuitBreaker * W :=
  let b := _maybe_transition_to_half_open (t_check t) b in
  match _state b with
  | OPEN =>
      let b := bump_rejected b in
      let remaining := _time_until_half_open (t_remaining t) b in
      (CircuitBreakerOpen (name b) remaining, b, w)
  | _ =>
      let b := bump_total b in
      match func w with
      | (Returned r, w') => (CallReturned r, _on_success (t_outcome t) b, w')
      | (Raised exc, w') =>
          if isinstance exc (excluded_exceptions (config b))
          then (CallRaised exc, b, w')
          else (CallRaised exc, _on_failure (t_outcome t) (t_open t) b, w')
      end
  end.

(** A run of calls, one after the other, each with its own function and
    clock readings. *)
Fixpoint calls (inputs : list ((W -> outcome A * W) * readings))
    (b : CircuitBreaker) (w : W) : CircuitBreaker * W :=
  match inputs with
  | [] => (b, w)
  | (func, t) :: rest =>
      let '(_, b', w') := call func t b w in calls rest b' w'
  end.
(** The function raises an exception that counts as a failure. *)
Definition fails (c : CircuitBreakerConfig) (func : W -> outcome A * W) : Prop :=
  forall w, exists e w',
    func w = (Raised e, w') /\ isinstance e (excluded_exceptions c) = false.

Definition succeeds (func : W -> outcome A * W) : Prop :=
  forall w, exists r w', func w = (Returned r, w').
End Call.

(** Sample breaker and wrapped functions, after
    tests/orchestrator/test_circuit_breaker.py; the world counts the
    invocations of the function. *)
Definition test_config : CircuitBreakerConfig :=
  {| failure_threshold := 3; success_threshold := 2; timeout_seconds := 1;
     excluded_exceptions := [] |}.

Definition failing_func (w : nat) : outcome string * nat :=
  (Raised (Exn "ValueError" ["Exception"; "BaseException"] "test error"), S w).

Definition ok_func (w : nat) : outcome string * nat := (Returned "ok", S w).

Definition at_time (t : Q) : readings :=
  {| t_check := t; t_remaining := t; t_outcome := t; t_open := t |}.

Definition test_open_breaker : CircuitBreaker :=
  {| name := "test"; config := test_config; _state := OPEN;
     _stats := fresh_stats; _opened_at := Some 10%Q |}.

End Breaker.

(** ** orchestrator/async_execution.py *)
Module AsyncExecution.

Inductive JobStatus := PENDING | RUNNING | COMPLETED | FAILED | CANCELLED.

#[global] Instance JobStatus_eq_dec : EqDecision JobStatus.
Proof. solve_decision. Defined.

Record WebhookConfig := {
  url : string;
  headers : list (string * string);
  timeout_seconds : Q;
  retry_count : Z
}.

Section Jobs.
(** [R] is the type of the execution record [execute()] returns. *)
Context {R : Type}.

Record AsyncJob := {
  job_id : string;
  plan_id : string;
  status : JobStatus;
  created_at : Q;
  started_at : option Q;
  completed_at : option Q;
  result : option R;
  error : option string;
  webhook : option WebhookConfig
}.

(** The manager: the job table and the ids that have a background task. *)
Record AsyncExecutionManager := {
  _jobs : gmap string AsyncJob;
  _running_tasks : gset string
}.

(** [start_async]; [uuid] is what [uuid4()] gives and [now] the creation
    time.  [asyncio.create_task] only registers the coroutine: its body is
    [_execute_job] below and runs when the event loop schedules it. *)
Definition start_async (plan : string) (hook : option WebhookConfig)
    (uuid : string) (now : Q) (m : AsyncExecutionManager)
    : AsyncJob * AsyncExecutionManager :=
  let job := {| job_id := uuid; plan_id := plan; status := PENDING;
                created_at := now; started_at := None; completed_at := None;
                result := None; error := None; webhook := hook |} in
  (job, {| _jobs := <[uuid := job]> (_jobs m);
           _running_tasks := {[uuid]} ∪ _running_tasks m |}).

(** The JSON envelope POSTed to the webhook. *)
Record webhook_payload := {
  wp_event : string;
  wp_job_id : string;
  wp_plan_id : string;
  wp_status : JobStatus;
  wp_completed_at : option Q;
  wp_error : option string;
  wp_result : option R
}.

Definition payload_of (job : AsyncJob) : webhook_payload :=
  {| wp_event := "execution_complete"; wp_job_id := job_id job;
     wp_plan_id := plan_id job; wp_status := status job;
     wp_completed_at := completed_at job; wp_error := error job;
     wp_result := match status job with COMPLETED => result job | _ => None end |}.

(** What the webhook loop does to the outside: POSTs and backoff sleeps. *)
Inductive delivery_event :=
| Posted (attempt : Z) (payload : webhook_payload) (delivered : bool)
| Slept (seconds : Z).

(** [for attempt in range(retry_count)]: [post attempt] tells whether the
    POST of that attempt goes through ([raise_for_status] included); any
    exception of the attempt is caught inside the loop. *)
Fixpoint webhook_loop (post : Z -> bool) (cfg : WebhookConfig)
    (payload : webhook_payload) (remaining : nat) (attempt : Z)
    : list delivery_event :=
  match remaining with
  | O => []
  | S remaining' =>
      if post attempt then [Posted attempt payload true]
      else Posted attempt payload false ::
           (if attempt <? retry_count cfg - 1 then [Slept (2 ^ attempt)] else [])
           ++ webhook_loop post cfg payload remaining' (attempt + 1)
  end.

Definition _send_webhook (post : Z -> bool) (job : AsyncJob)
    : list delivery_event :=
  match webhook job with
  | None => []
  | Some cfg =>
      webhook_loop post cfg (payload_of job) (Z.to_nat (retry_count cfg)) 0
  end.

Definition mark_running (now : Q) (job : AsyncJob) : AsyncJob :=
  {| job_id := job_id job; plan_id := plan_id job; status := RUNNING;
     created_at := created_at job; started_at := Some now;
     completed_at := completed_at job; result := result job;
     error := error job; webhook := webhook job |}.

Definition mark_completed (r : R) (now : Q) (job : AsyncJob) : AsyncJob :=
  {| job_id := job_id job; plan_id := plan_id job; status := COMPLETED;
     created_at := created_at job; started_at := started_at job;
     completed_at := Some now; result := Some r;
     error := error job; webhook := webhook job |}.

Definition mark_failed (e : exn) (now : Q) (job : AsyncJob) : AsyncJob :=
  {| job_id := job_id job; plan_id := plan_id job; status := FAILED;
     created_at := created_at job; started_at := started_at job;
     completed_at := Some now; result := result job;
     error := Some (exn_str e); webhook := webhook job |}.

(** What the background task leaves behind: the job as it is after the
    [RUNNING] assignment, the job when the task ends, and the webhook
    traffic of the [finally] block. *)
Record job_run := {
  while_running : AsyncJob;
  at_end : AsyncJob;
  deliveries : list delivery_event
}.

(** [_execute_job]; [execute] is the wrapped service's [execute(plan_id=...)],
    [t_start] and [t_done] the two [datetime.now(UTC)] readings. *)
Definition _execute_job (execute : string -> outcome R) (post : Z -> bool)
    (t_start t_done : Q) (job : AsyncJob) : job_run :=
  let running := mark_running t_start job in
  let finished := match execute (plan_id running) with
                  | Returned r => mark_completed r t_done running
                  | Raised exc => mark_failed exc t_done running
                  end in
  {| while_running := running; at_end := finished;
     deliveries := match webhook finished with
                   | Some _ => _send_webhook post finished
                   | None => []
                   end |}.

(** The event loop running the task of job [id] to its end. *)
Definition run_task (execute : string -> outcome R) (post : Z -> bool)
    (t_start t_done : Q) (id : string) (m : AsyncExecutionManager)
    : AsyncExecutionManager * list delivery_event :=
  match _jobs m !! id with
  | None => (m, [])
  | Some job =>
      let run := _execute_job execute post t_start t_done job in
      ({| _jobs := <[id := at_end run]> (_jobs m);
          _running_tasks := _running_tasks m ∖ {[id]} |}, deliveries run)
  end.

Definition get_job (id : string) (m : AsyncExecutionManager) : option AsyncJob :=
  _jobs m !! id.

Definition get_job_result (id : string) (m : AsyncExecutionManager) : option R :=
  match _jobs m !! id with
  | Some job => match status job with COMPLETED => result job | _ => None end
  | None => None
  end.

Definition posts_made (evs : list delivery_event) : list (Z * bool) :=
  omap (fun ev => match ev with
                  | Posted a _ d => Some (a, d)
                  | Slept _ => None
                  end) evs.
End Jobs.
Arguments AsyncJob R : clear implicits.
Arguments AsyncExecutionManager R : clear implicits.
Arguments webhook_payload R : clear implicits.
Arguments delivery_event R : clear implicits.
Arguments job_run R : clear implicits.

(** A sample run, after tests/orchestrator/test_async_execution.py. *)
Definition sample_hook : WebhookConfig :=
  {| url := "https://example.com/callback"; headers := [];
     timeout_seconds := 30; retry_count := 3 |}.

Definition sample_execute (plan : string) : outcome string :=
  if String.eqb plan "plan-123" then Returned "complete"
  else Raised (Exn "PlanNotFoundError" ["ThemisError"; "Exception"]
                 ("Plan '" +:+ plan +:+ "' does not exist")).

Definition empty_manager : AsyncExecutionManager string :=
  {| _jobs := ∅; _running_tasks := ∅ |}.

End AsyncExecution.

(** ** orchestrator/exceptions.py and orchestrator/validation.py *)
Module Validation.

Definition themis_bases : list string := ["ThemisError"; "Exception"; "BaseException"].

Definition ValidationError (message : string) : exn :=
  Exn "ValidationError" themis_bases message.

Definition PlanNotFoundError (plan_id : string) : exn :=
  Exn "PlanNotFoundError" themis_bases ("Plan '" +:+ plan_id +:+ "' does not exist").

Definition ExecutionNotFoundError (plan_id : string) : exn :=
  Exn "ExecutionNotFoundError" themis_bases
    ("Execution for plan '" +:+ plan_id +:+ "' does not exist").

(** [c.isspace()] for a character below U+0100. *)
Definition is_space (c : ascii) : bool :=
  let n := nat_of_ascii c in
  ((9 <=? n)%nat && (n <=? 13)%nat) || ((28 <=? n)%nat && (n <=? 32)%nat) ||
  (n =? 133)%nat || (n =? 160)%nat.

Fixpoint lstrip (s : string) : string :=
  match s with
  | EmptyString => EmptyString
  | String c rest => if is_space c then lstrip rest else s
  end.

(** [s.rstrip()]: a space is kept only when something else follows it. *)
Fixpoint rstrip (s : string) : string :=
  match s with
  | EmptyString => EmptyString
  | String c rest =>
      match rstrip rest with
      | EmptyString => if is_space c then EmptyString else String c EmptyString
      | kept => String c kept
      end
  end.

(** [s.strip()]. *)
Definition strip (s : string) : string := rstrip (lstrip s).

Definition validate_plan_id (plan_id : option string) : outcome string :=
  match plan_id with
  | None => Raised (ValidationError "Plan ID is required")
  | Some p =>
      let p := strip p in
      if String.eqb p "" then Raised (ValidationError "Plan ID cannot be empty")
      else Returned p
  end.

Section Matter.
(** [Matter.model_validate(matter)] followed by [model_dump]: the validated
    payload, or the [msg] of each Pydantic error.  The [Matter] model
    ([orchestrator.models]) is a collaborator of this module. *)
Variable model_validate : dict -> dict + list string.

Definition validate_matter (matter : option value) (require_documents : bool)
    : outcome dict :=
  match matter with
  | None => Raised (ValidationError "Matter payload is required")
  | Some (VDict m) =>
      if negb (dict_has m "summary")
      then Raised (ValidationError "Matter must include a 'summary' field")
      else if negb (dict_has m "parties")
      then Raised (ValidationError "Matter must include a 'parties' field")
      else if require_documents && negb (dict_has m "documents")
      then Raised (ValidationError "Matter must include a 'documents' field")
      else match model_validate m with
           | inl validated => Returned validated
           | inr (message :: _) =>
               Raised (ValidationError ("Invalid matter: " +:+ message))
           | inr [] => Raised (ValidationError "Invalid matter payload")
           end
  | Some other =>
      Raised (ValidationError
                ("Matter must be a dictionary, got " +:+ type_name other))
  end.

Definition validate_execute_params (matter : option value)
    (plan_id : option string) : outcome (option dict * option string) :=
  match matter, plan_id with
  | None, None =>
      Raised (ValidationError "Either 'matter' or 'plan_id' must be provided")
  | _, _ =>
      match (match plan_id with
             | Some _ => match validate_plan_id plan_id with
                         | Returned p => Returned (Some p)
                         | Raised e => Raised e
                         end
             | None => Returned None
             end) with
      | Raised e => Raised e
      | Returned validated_plan_id =>
          match matter with
          | Some _ =>
              match validate_matter matter true with
              | Returned m => Returned (Some m, validated_plan_id)
              | Raised e => Raised e
              end
          | None => Returned (None, validated_plan_id)
          end
      end
  end.
End Matter.

End Validation.

(** ** orchestrator/service.py: documents *)
Module Service.
Import Retry Validation.

(** *** Artifacts advertised by a step *)

(** [_find_nested_artifact(payload, artifact_name)], for the dictionary
    [VDict payload]; [VNone] is Python's [None]. *)
Fixpoint _find_nested_artifact (artifact_name : string) (payload : value)
    {struct payload} : value :=
  match payload with
  | VDict items =>
      (fix values (items : list (string * value)) : value :=
         match items with
         | [] => VNone
         | (_, v) :: rest =>
             match v with
             | VDict inner =>
                 match dict_get inner artifact_name with
                 | Some found => found
                 | None =>
                     match _find_nested_artifact artifact_name v with
                     | VNone => values rest
                     | nested => nested
                     end
                 end
             | _ => values rest
             end
         end) items
  | _ => VNone
  end.

(** The name an [expected_artifacts] entry advertises: the entry has to be
    a dictionary and its ["name"] truthy.  Names are strings (a truthy name
    of another hashable type is never a key of a payload, so it collects
    nothing either; unhashable names are outside the model). *)
Definition artifact_name (artifact : value) : option string :=
  match artifact with
  | VDict fields =>
      match dict_get fields "name" with
      | Some (VStr name) => if String.eqb name "" then None else Some name
      | _ => None
      end
  | _ => None
  end.

(** The value found for one name: at top level, else by the nested search. *)
Definition find_artifact (payload : dict) (name : string) : value :=
  match dict_get_or_none payload name with
  | VNone => _find_nested_artifact name (VDict payload)
  | v => v
  end.

Definition _collect_expected_artifacts (payload : dict)
    (expected_artifacts : list value) : dict :=
  fold_left
    (fun collected artifact =>
       match artifact_name artifact with
       | None => collected
       | Some name =>
           match find_artifact payload name with
           | VNone => collected
           | v => dict_set collected name v
           end
       end)
    expected_artifacts [].

(** *** Steps, step results, plans and execution records *)

Record supporting := {
  sup_agent : string;
  sup_role : value;
  sup_description : value;
  sup_expected_artifacts : list value
}.

Record support_result := {
  sp_agent : string;
  sp_role : value;
  sp_description : value;
  sp_status : option string;
  sp_error : option string;
  sp_output : option dict;
  sp_retry_attempts : option Z;
  sp_artifacts : option dict
}.

(** The keys execution writes onto a step or a step result; [None] is an
    absent key. *)
Record recorded := {
  status : option string;
  error : option string;
  output : option dict;
  retry_attempts : option Z;
  artifacts : option dict;
  supporting_outputs : option (list support_result);
  missing_signals : option (list string)
}.

Definition nothing_recorded : recorded :=
  {| status := None; error := None; output := None; retry_attempts := None;
     artifacts := None; supporting_outputs := None; missing_signals := None |}.

Definition set_status (v : string) (r : recorded) : recorded :=
  {| status := Some v; error := error r; output := output r;
     retry_attempts := retry_attempts r; artifacts := artifacts r;
     supporting_outputs := supporting_outputs r;
     missing_signals := missing_signals r |}.

Definition set_error (v : string) (r : recorded) : recorded :=
  {| status := status r; error := Some v; output := output r;
     retry_attempts := retry_attempts r; artifacts := artifacts r;
     supporting_outputs := supporting_outputs r;
     missing_signals := missing_signals r |}.

Definition set_output (v : dict) (r : recorded) : recorded :=
  {| status := status r; error := error r; output := Some v;
     retry_attempts := retry_attempts r; artifacts := artifacts r;
     supporting_outputs := supporting_outputs r;
     missing_signals := missing_signals r |}.

Definition set_retry_attempts (v : Z) (r : recorded) : recorded :=
  {| status := status r; error := error r; output := output r;
     retry_attempts := Some v; artifacts := artifacts r;
     supporting_outputs := supporting_outputs r;
     missing_signals := missing_signals r |}.

Definition set_artifacts (v : dict) (r : recorded) : recorded :=
  {| status := status r; error := error r; output := output r;
     retry_attempts := retry_attempts r; artifacts := Some v;
     supporting_outputs := supporting_outputs r;
     missing_signals := missing_signals r |}.

Definition set_supporting_outputs (v : list support_result) (r : recorded)
    : recorded :=
  {| status := status r; error := error r; output := output r;
     retry_attempts := retry_attempts r; artifacts := artifacts r;
     supporting_outputs := Some v;
     missing_signals := missing_signals r |}.

Definition set_missing_signals (v : list string) (r : recorded) : recorded :=
  {| status := status r; error := error r; output := output r;
     retry_attempts := retry_attempts r; artifacts := artifacts r;
     supporting_outputs := supporting_outputs r;
     missing_signals := Some v |}.

(** A plan step: what the task-graph node declares, and what [execute]
    has written onto it. *)
Record step := {
  id : string;
  agent : string;
  dependencies : list string;
  expected_artifacts : list value;
  phase : value;
  required_connectors : list string;
  supporting_agents : list supporting;
  written : recorded
}.

(** An entry of [steps_results]. *)
Record step_result := {
  sr_id : string;
  sr_agent : string;
  sr_dependencies : list string;
  sr_expected_artifacts : list value;
  sr_phase : value;
  sr : recorded
}.

Definition with_written (f : recorded -> recorded) (s : step) : step :=
  {| id := id s; agent := agent s; dependencies := dependencies s;
     expected_artifacts := expected_artifacts s; phase := phase s;
     required_connectors := required_connectors s;
     supporting_agents := supporting_agents s; written := f (written s) |}.

Definition with_sr (f : recorded -> recorded) (r : step_result) : step_result :=
  {| sr_id := sr_id r; sr_agent := sr_agent r;
     sr_dependencies := sr_dependencies r;
     sr_expected_artifacts := sr_expected_artifacts r; sr_phase := sr_phase r;
     sr := f (sr r) |}.

(** The [step_result] dictionary a node starts with. *)
Definition new_step_result (s : step) : step_result :=
  {| sr_id := id s; sr_agent := agent s; sr_dependencies := dependencies s;
     sr_expected_artifacts := expected_artifacts s; sr_phase := phase s;
     sr := nothing_recorded |}.

Inductive trace_event :=
| phase_start (node_id agent_name : string) (node_phase : value)
| phase_complete (node_id agent_name : string) (node_status : option string).

Record Plan := {
  plan_id : string;
  plan_status : string;
  matter : dict;
  graph : value;
  steps : list step;
  connectors : value
}.

Record execution_record := {
  er_plan_id : string;
  er_status : string;
  er_steps : list step_result;
  er_artifacts : dict;
  er_trace : list trace_event;
  re_execution : bool
}.

(** *** Persisted state *)

(** Modelled from the spec: the [State] aggregate of
    [orchestrator.storage] is not under src/; the spec gives its interface
    ([remember_plan], [recall_plan], [remember_execution],
    [recall_execution], keyed by plan id). *)
Record State := {
  plans : gmap string Plan;
  executions : gmap string execution_record
}.

Definition remember_plan (k : string) (p : Plan) (st : State) : State :=
  {| plans := <[k := p]> (plans st); executions := executions st |}.

Definition recall_plan (k : string) (st : State) : option Plan := plans st !! k.

Definition remember_execution (k : string) (r : execution_record) (st : State)
    : State :=
  {| plans := plans st; executions := <[k := r]> (executions st) |}.

Definition recall_execution (k : string) (st : State) : option execution_record :=
  executions st !! k.

(** *** Collaborators *)

(** An agent: what [run(agent_input)] does at the [n]-th attempt of the
    retry loop. *)
Definition Agent := dict -> Z -> outcome dict.

(** Everything [OrchestratorService] is constructed with or imports from
    modules that are not under src/: the agent registry, the retry policy,
    the routing policy and its task graph (a node is given by the step
    dictionary [as_dict] makes of it), the connector registry, the
    document-type detector, the [Matter] model, the wall clock (one reading
    per [time.time()] call) and the random source of the retry delays. *)
Record collaborators := {
  agents : gmap string Agent;
  retry_policy : RetryPolicy;
  rnd : Z -> Q;
  TaskGraph : Type;
  build_graph : dict -> TaskGraph;
  as_dict : TaskGraph -> value;
  from_dict : value -> TaskGraph;
  from_linear_steps : list step -> TaskGraph;
  to_linear_steps : TaskGraph -> list step;
  topological_order : TaskGraph -> list step;
  evaluate_exit_conditions : step -> dict -> list string;
  catalogue : value;
  resolve : list string -> outcome dict;
  determine_document_type : dict -> outcome string;
  model_validate : dict -> dict + list string;
  clock : nat -> Q
}.

(** *** The service object *)

Record service := {
  repository : State;
  _state_cache : option State;
  _cache_timestamp : option Q;
  _cache_ttl : Q;
  state : State;
  ticks : nat
}.

Section Engine.
Variable C : collaborators.

Definition _load_state (s : service) : service :=
  let now := clock C (ticks s) in
  match _state_cache s, _cache_timestamp s with
  | Some cached, Some stamp =>
      if Qlt_le_dec (now - stamp) (_cache_ttl s)
      then {| repository := repository s; _state_cache := _state_cache s;
              _cache_timestamp := _cache_timestamp s;
              _cache_ttl := _cache_ttl s; state := cached;
              ticks := S (ticks s) |}
      else {| repository := repository s;
              _state_cache := Some (repository s);
              _cache_timestamp := Some now; _cache_ttl := _cache_ttl s;
              state := repository s; ticks := S (ticks s) |}
  | _, _ =>
      {| repository := repository s; _state_cache := Some (repository s);
         _cache_timestamp := Some now; _cache_ttl := _cache_ttl s;
         state := repository s; ticks := S (ticks s) |}
  end.

Definition _save_state (s : service) : service :=
  {| repository := state s; _state_cache := Some (state s);
     _cache_timestamp := Some (clock C (ticks s)); _cache_ttl := _cache_ttl s;
     state := state s; ticks := S (ticks s) |}.

Definition with_state (f : State -> State) (s : service) : service :=
  {| repository := repository s; _state_cache := _state_cache s;
     _cache_timestamp := _cache_timestamp s; _cache_ttl := _cache_ttl s;
     state := f (state s); ticks := ticks s |}.

(** [plan(matter)]; [uuid] is what [uuid4()] gives. *)
Definition plan (m : option value) (uuid : string) (s : service)
    : outcome Plan * service :=
  match validate_matter (model_validate C) m true with
  | Raised e => (Raised e, s)
  | Returned validated_matter =>
      let s := _load_state s in
      let g := build_graph C validated_matter in
      let p := {| plan_id := uuid; plan_status := "planned";
                  matter := validated_matter; graph := as_dict C g;
                  steps := to_linear_steps C g; connectors := catalogue C |} in
      (Returned p, _save_state (with_state (remember_plan uuid p) s))
  end.

Definition get_plan (k : string) (s : service) : outcome Plan * service :=
  let s := _load_state s in
  match recall_plan k (state s) with
  | None => (Raised (PlanNotFoundError k), s)
  | Some p => (Returned p, s)
  end.

Definition get_artifacts (k : string) (s : service) : outcome dict * service :=
  let s := _load_state s in
  match recall_execution k (state s) with
  | None => (Raised (ExecutionNotFoundError k), s)
  | Some r => (Returned (er_artifacts r), s)
  end.

Definition get_execution (k : string) (s : service)
    : outcome execution_record * service :=
  let s := _load_state s in
  match recall_execution k (state s) with
  | None => (Raised (ExecutionNotFoundError k), s)
  | Some r => (Returned r, s)
  end.

End Engine.

(** *** Building an agent's input *)

Definition AttributeError (v : value) (attr : string) : exn :=
  Exn "AttributeError" ["Exception"; "BaseException"]
    ("'" +:+ type_name v +:+ "' object has no attribute '" +:+ attr +:+ "'").

Definition item_assignment_error (v : value) : exn :=
  Exn "TypeError" ["Exception"; "BaseException"]
    match v with
    | VList _ => "list indices must be integers or slices, not str"
    | _ => "'" +:+ type_name v +:+ "' object does not support item assignment"
    end.

Definition not_iterable_error (v : value) : exn :=
  Exn "TypeError" ["Exception"; "BaseException"]
    ("argument of type '" +:+ type_name v +:+ "' is not iterable").

(** [v.get(k)]. *)
Definition py_get (v : value) (k : string) : outcome value :=
  match v with
  | VDict d => Returned (dict_get_or_none d k)
  | _ => Raised (AttributeError v "get")
  end.

(** [k in v]. *)
Definition py_contains (v : value) (k : string) : outcome bool :=
  match v with
  | VDict d => Returned (dict_has d k)
  | VStr text => Returned (is_substring k text)
  | VList items =>
      Returned (existsb (fun item => match item with
                                     | VStr t => String.eqb t k
                                     | _ => false
                                     end) items)
  | _ => Raised (not_iterable_error v)
  end.

(** [agent_input.setdefault("connectors", {}).update(resolved)].  The
    dictionary updated is the one stored in [agent_input]; a dictionary that
    reached [agent_input] from [propagated] is not written back there. *)
Definition add_connectors (agent_input resolved : dict) : outcome dict :=
  match dict_get agent_input "connectors" with
  | None => Returned (dict_set agent_input "connectors"
                        (VDict (dict_update [] resolved)))
  | Some (VDict present) =>
      Returned (dict_set agent_input "connectors"
                  (VDict (dict_update present resolved)))
  | Some other => Raised (AttributeError other "update")
  end.

(** [agent_input["document_type"] = t] followed by
    [agent_input.setdefault("metadata", {})["document_type"] = t]. *)
Definition write_document_type (agent_input : dict) (t : value) : outcome dict :=
  let agent_input := dict_set agent_input "document_type" t in
  match dict_get agent_input "metadata" with
  | None => Returned (dict_set agent_input "metadata"
                        (VDict [("document_type", t)]))
  | Some (VDict present) =>
      Returned (dict_set agent_input "metadata"
                  (VDict (dict_set present "document_type" t)))
  | Some other => Raised (item_assignment_error other)
  end.

(** What the [try] block around an agent run ends with. *)
Inductive attempt :=
| Completed (agent_input output : dict) (attempts_made : Z)
| Failed (e : exn) (agent_input : option dict).

Section Engine.
Variable C : collaborators.

(** [deepcopy(plan_matter)], [update(propagated)], then the connectors. *)
Definition base_input (plan_matter propagated : dict) (s : step) : outcome dict :=
  let agent_input := dict_update plan_matter propagated in
  match resolve C (required_connectors s) with
  | Raised e => Raised e
  | Returned [] => Returned agent_input
  | Returned resolved => add_connectors agent_input resolved
  end.

(** The document type of the drafting agent, as [execute] settles it. *)
Definition document_type_execute (agent_input : dict) : outcome dict :=
  let output_format := default (VDict []) (dict_get agent_input "output_format") in
  match py_get output_format "document_type" with
  | Raised e => Raised e
  | Returned first =>
      match (if truthy first then Returned first
             else let second := dict_get_or_none agent_input "document_type" in
                  if truthy second then Returned second
                  else py_get (default (VDict []) (dict_get agent_input "metadata"))
                         "document_type") with
      | Raised e => Raised e
      | Returned doc_type =>
          if truthy doc_type then write_document_type agent_input doc_type
          else match determine_document_type C agent_input with
               | Raised e => Raised e
               | Returned detected =>
                   write_document_type agent_input (VStr detected)
               end
      end
  end.

(** The document type as [execute_stream] and [re_execute] settle it. *)
Definition document_type_detect (agent_input : dict) : outcome dict :=
  if dict_has agent_input "document_type" then Returned agent_input
  else match py_contains (default (VDict []) (dict_get agent_input "metadata"))
               "document_type" with
       | Raised e => Raised e
       | Returned true => Returned agent_input
       | Returned false =>
           match determine_document_type C agent_input with
           | Raised e => Raised e
           | Returned detected =>
               write_document_type agent_input (VStr detected)
           end
       end.

Definition agent_input_for (settle : dict -> outcome dict)
    (plan_matter propagated : dict) (s : step) : outcome dict :=
  match base_input plan_matter propagated s with
  | Raised e => Raised e
  | Returned agent_input =>
      if String.eqb (agent s) "dda" then settle agent_input
      else Returned agent_input
  end.

(** [retry_async(lambda: agent.run(agent_input), self.retry_policy)] and
    the [raise retry_result.last_exception or Exception(fallback)] that
    follows a failure.  A successful result always carries the value. *)
Definition invoke (a : Agent) (input : outcome dict) (fallback : string)
    : attempt :=
  match input with
  | Raised e => Failed e None
  | Returned agent_input =>
      let retry_result :=
        (retry_async (a agent_input) (retry_policy C) (rnd C)).1 in
      match success retry_result, result retry_result with
      | true, Some out => Completed agent_input out (attempts retry_result)
      | _, _ =>
          Failed (default (Exn "Exception" ["BaseException"] fallback)
                    (last_exception retry_result))
                 (Some agent_input)
      end
  end.

End Engine.

(** *** The walk over the task graph *)

(** One invocation of an agent's [run] through the retry executor, with
    the input it was given. *)
Record call_record := {
  call_step : string;
  call_agent : string;
  call_support : bool;
  call_input : dict
}.

(** The local variables of [execute] that the loop over
    [graph.topological_order()] reads and writes, the [steps] list of the
    plan (whose dictionaries the loop annotates in place), and the log of
    the agent invocations made. *)
Record loop_state := {
  plan_matter : dict;
  steps_results : list step_result;
  collected : dict;
  propagated : dict;
  overall_status : string;
  needs_attention : bool;
  tracer : list trace_event;
  plan_steps : list step;
  calls : list call_record
}.

Definition push_result (r : step_result) (st : loop_state) : loop_state :=
  {| plan_matter := plan_matter st; steps_results := steps_results st ++ [r];
     collected := collected st; propagated := propagated st;
     overall_status := overall_status st; needs_attention := needs_attention st;
     tracer := tracer st; plan_steps := plan_steps st; calls := calls st |}.

Definition set_failed (st : loop_state) : loop_state :=
  {| plan_matter := plan_matter st; steps_results := steps_results st;
     collected := collected st; propagated := propagated st;
     overall_status := "failed"; needs_attention := needs_attention st;
     tracer := tracer st; plan_steps := plan_steps st; calls := calls st |}.

Definition set_needs_attention (st : loop_state) : loop_state :=
  {| plan_matter := plan_matter st; steps_results := steps_results st;
     collected := collected st; propagated := propagated st;
     overall_status := overall_status st; needs_attention := true;
     tracer := tracer st; plan_steps := plan_steps st; calls := calls st |}.

Definition record_event (ev : trace_event) (st : loop_state) : loop_state :=
  {| plan_matter := plan_matter st; steps_results := steps_results st;
     collected := collected st; propagated := propagated st;
     overall_status := overall_status st; needs_attention := needs_attention st;
     tracer := tracer st ++ [ev]; plan_steps := plan_steps st; calls := calls st |}.

Definition log_call (c : option call_record) (st : loop_state) : loop_state :=
  {| plan_matter := plan_matter st; steps_results := steps_results st;
     collected := collected st; propagated := propagated st;
     overall_status := overall_status st; needs_attention := needs_attention st;
     tracer := tracer st; plan_steps := plan_steps st;
     calls := calls st ++ match c with Some c => [c] | None => [] end |}.

Definition set_plan_steps (l : list step) (st : loop_state) : loop_state :=
  {| plan_matter := plan_matter st; steps_results := steps_results st;
     collected := collected st; propagated := propagated st;
     overall_status := overall_status st; needs_attention := needs_attention st;
     tracer := tracer st; plan_steps := l; calls := calls st |}.

(** [artifacts[name] = out] (primary agents only) and
    [propagated[name] = out]. *)
Definition keep_output (primary : bool) (name : string) (out : dict)
    (st : loop_state) : loop_state :=
  {| plan_matter := plan_matter st; steps_results := steps_results st;
     collected := if primary then dict_set (collected st) name (VDict out)
                  else collected st;
     propagated := dict_set (propagated st) name (VDict out);
     overall_status := overall_status st; needs_attention := needs_attention st;
     tracer := tracer st; plan_steps := plan_steps st; calls := calls st |}.

(** [propagated.update(produced)] and [plan_matter.update(produced)]. *)
Definition hoist (produced : dict) (st : loop_state) : loop_state :=
  {| plan_matter := dict_update (plan_matter st) produced;
     steps_results := steps_results st; collected := collected st;
     propagated := dict_update (propagated st) produced;
     overall_status := overall_status st; needs_attention := needs_attention st;
     tracer := tracer st; plan_steps := plan_steps st; calls := calls st |}.

(** The index in [plan["steps"]] of the dictionary [plan_steps_map] holds
    for an id: the last one carrying it. *)
Fixpoint find_step (l : list step) (k : string) : option nat :=
  match l with
  | [] => None
  | s :: rest =>
      match find_step rest k with
      | Some i => Some (S i)
      | None => if String.eqb (id s) k then Some O else None
      end
  end.

(** [plan_steps_map.get(node.id, node.as_dict())]. *)
Definition step_of (l : list step) (node : step) : step :=
  match find_step l (id node) with
  | Some i => default node (l !! i)
  | None => node
  end.

(** Writing onto [step]: onto the plan's own dictionary when the map
    holds one, onto a throw-away dictionary otherwise. *)
Definition annotate (node s : step) (st : loop_state) : loop_state :=
  match find_step (plan_steps st) (id node) with
  | Some i => set_plan_steps (<[i := s]> (plan_steps st)) st
  | None => st
  end.

Definition fail_with (message : string) : recorded -> recorded :=
  fun r => set_error message (set_status "failed" r).

Definition call_of (s : step) (support : bool) (name : string)
    (agent_input : option dict) : option call_record :=
  match agent_input with
  | Some i => Some {| call_step := id s; call_agent := name;
                      call_support := support; call_input := i |}
  | None => None
  end.

Definition note_attempts (n : Z) (r : recorded) : recorded :=
  if 1 <? n then set_retry_attempts n r else r.

Definition with_artifacts (produced : dict) (r : recorded) : recorded :=
  match produced with [] => r | _ => set_artifacts produced r end.

Definition hoist_if_any (produced : dict) (st : loop_state) : loop_state :=
  match produced with [] => st | _ => hoist produced st end.

Section Engine.
Variable C : collaborators.

(** One turn of the loop over [step.get("supporting_agents", []) or []];
    the triple is the loop state, [supporting_outputs] and
    [support_failed]. *)
Definition run_supporting (s : step) (primary_output : dict)
    (acc : loop_state * list support_result * bool) (sup : supporting)
    : loop_state * list support_result * bool :=
  let '(st, outputs, support_failed) := acc in
  let name := sup_agent sup in
  let entry st_ err out n arts :=
    {| sp_agent := name; sp_role := sup_role sup;
       sp_description := sup_description sup; sp_status := Some st_;
       sp_error := err; sp_output := out; sp_retry_attempts := n;
       sp_artifacts := arts |} in
  match agents C !! name with
  | None =>
      (set_failed st,
       outputs ++
         [entry "failed"
            (Some ("Supporting agent '" +:+ name +:+ "' is not registered"))
            None None None],
       true)
  | Some a =>
      let support_input :=
        dict_update (dict_update (plan_matter st) (propagated st))
          [("primary_agent", VStr (agent s));
           ("primary_output", VDict primary_output);
           ("phase", phase s);
           ("support_role", sup_role sup)] in
      match invoke C a (Returned support_input) "Supporting agent execution failed" with
      | Failed e called =>
          (set_failed (log_call (call_of s true name called) st),
           outputs ++
             [entry "failed" (Some (exn_str e)) None None None],
           true)
      | Completed called out n =>
          let produced := _collect_expected_artifacts out (sup_expected_artifacts sup) in
          (hoist_if_any produced
             (keep_output false name out
                (log_call (call_of s true name (Some called)) st)),
           outputs ++
             [entry "complete" None (Some out)
                (if 1 <? n then Some n else None)
                match produced with [] => None | _ => Some produced end],
           support_failed)
      end
  end.

(** The body of the loop of [execute], for one node. *)
Definition execute_node (st : loop_state) (node : step) : loop_state :=
  let s := step_of (plan_steps st) node in
  let agent_name := agent s in
  let step_result := new_step_result s in
  match agents C !! agent_name with
  | None =>
      let failure := fail_with ("Agent '" +:+ agent_name +:+ "' is not registered") in
      push_result (with_sr failure step_result)
        (annotate node (with_written failure s) (set_failed st))
  | Some a =>
      let st := record_event (phase_start (id s) agent_name (phase s)) st in
      let input := agent_input_for C (document_type_execute C)
                     (plan_matter st) (propagated st) s in
      match invoke C a input "Agent execution failed" with
      | Failed e called =>
          let failure := fail_with (exn_str e) in
          let st := log_call (call_of s false agent_name called) st in
          let st := record_event (phase_complete (id s) agent_name (Some "failed"))
                      (set_failed st) in
          push_result (with_sr failure step_result)
            (annotate node (with_written failure s) st)
      | Completed called out n =>
          let produced := _collect_expected_artifacts out (expected_artifacts s) in
          let step_result :=
            with_sr (fun r => with_artifacts produced
                                (set_output out (set_status "complete"
                                   (note_attempts n r)))) step_result in
          let s := with_written (fun r => set_output out (set_status "complete"
                                            (with_artifacts produced r))) s in
          let st := log_call (call_of s false agent_name (Some called)) st in
          let st := hoist_if_any produced (keep_output true agent_name out st) in
          let st := record_event (phase_complete (id s) agent_name (Some "complete")) st in
          let '(st, outputs, support_failed) :=
            fold_left (run_supporting s out) (supporting_agents s) (st, [], false) in
          let step_result :=
            match outputs with
            | [] => step_result
            | _ => with_sr (set_supporting_outputs outputs) step_result
            end in
          let s :=
            match outputs, supporting_outputs (written s) with
            | _ :: _, None => with_written (set_supporting_outputs outputs) s
            | _, _ => s
            end in
          if support_failed then
            push_result (with_sr (set_status "failed") step_result)
              (annotate node (with_written (set_status "failed") s) st)
          else
            match evaluate_exit_conditions C s
                    (dict_update (plan_matter st) (propagated st)) with
            | [] => push_result step_result (annotate node s st)
            | missing =>
                let demote r := set_missing_signals missing
                                  (set_status "attention_required" r) in
                push_result (with_sr demote step_result)
                  (annotate node (with_written demote s) (set_needs_attention st))
            end
      end
  end.

End Engine.

(** *** execute, execute_stream, re_execute *)

(** The events [execute_stream] yields. *)
Inductive progress_event :=
| plan_created (plan_id : string)
| agent_started (agent_name : string) (step_number total_steps : Z) (node_phase : value)
| agent_failed (agent_name : string) (message : string)
| agent_completed (agent_name : string) (step_number total_steps : Z)
| execution_complete (final_status : string) (plan_id : string) (artifacts_count : Z).

Definition with_matter (m : dict) (p : Plan) : Plan :=
  {| plan_id := plan_id p; plan_status := plan_status p; matter := m;
     graph := graph p; steps := steps p; connectors := connectors p |}.

Definition with_outcome (st : string) (l : list step) (p : Plan) : Plan :=
  {| plan_id := plan_id p; plan_status := st; matter := matter p;
     graph := graph p; steps := l; connectors := connectors p |}.

Definition start_state (p : Plan) (l : list step) : loop_state :=
  {| plan_matter := matter p; steps_results := []; collected := [];
     propagated := []; overall_status := "complete"; needs_attention := false;
     tracer := []; plan_steps := l; calls := [] |}.

(** The status computed after the walk. *)
Definition final_status (st : loop_state) : string :=
  if String.eqb (overall_status st) "failed" then overall_status st
  else if needs_attention st then "attention_required" else "complete".

Definition record_of (k : string) (again : bool) (st : loop_state)
    : execution_record :=
  {| er_plan_id := k; er_status := final_status st;
     er_steps := steps_results st; er_artifacts := collected st;
     er_trace := tracer st; re_execution := again |}.

Section Engine.
Variable C : collaborators.

(** The graph a plan is walked by. *)
Definition graph_of (p : Plan) : TaskGraph C :=
  if truthy (graph p) then from_dict C (graph p)
  else from_linear_steps C (steps p).

(** The first lines of [execute] and [execute_stream]: validation, and
    the plan the run is for. *)
Definition resolve_plan (m : option value) (k : option string) (uuid : string)
    (s : service) : outcome (Plan * string) * service :=
  match validate_execute_params (model_validate C) m k with
  | Raised e => (Raised e, s)
  | Returned (validated_matter, validated_plan_id) =>
      let s := _load_state C s in
      match validated_plan_id with
      | Some k =>
          match recall_plan k (state s) with
          | None => (Raised (PlanNotFoundError k), s)
          | Some p =>
              match validated_matter with
              | Some vm =>
                  let p := with_matter vm p in
                  (Returned (p, k),
                   _save_state C (with_state (remember_plan k p) s))
              | None => (Returned (p, k), s)
              end
          end
      | None =>
          match plan C (VDict <$> validated_matter) uuid s with
          | (Raised e, s) => (Raised e, s)
          | (Returned p, s) => (Returned (p, plan_id p), s)
          end
      end
  end.

(** The last lines of the three operations: the plan and the execution
    record are remembered and the state saved. *)
Definition persist (k : string) (p : Plan) (r : execution_record) (s : service)
    : service :=
  _save_state C (with_state (fun st => remember_execution k r (remember_plan k p st)) s).

Definition execute (m : option value) (k : option string) (uuid : string)
    (s : service) : outcome execution_record * service * list call_record :=
  match resolve_plan m k uuid s with
  | (Raised e, s) => (Raised e, s, [])
  | (Returned (p, k), s) =>
      let g := graph_of p in
      let l := match steps p with [] => to_linear_steps C g | l => l end in
      let st := fold_left (execute_node C) (topological_order C g) (start_state p l) in
      let r := record_of k false st in
      (Returned r, persist k (with_outcome (final_status st) (plan_steps st) p) r s,
       calls st)
  end.

(** The per-node code [execute_stream] and [re_execute] share word for
    word: it is the body of [execute] without the supporting agents and
    without the annotations of the plan's steps, and with the other
    document-type rule.  The second component is the error message of a
    failed step. *)
Definition run_plain (st : loop_state) (s : step) : loop_state * option string :=
  let agent_name := agent s in
  let step_result := new_step_result s in
  match agents C !! agent_name with
  | None =>
      let message := "Agent '" +:+ agent_name +:+ "' is not registered" in
      (push_result (with_sr (fail_with message) step_result) (set_failed st),
       Some message)
  | Some a =>
      let st := record_event (phase_start (id s) agent_name (phase s)) st in
      let input := agent_input_for C (document_type_detect C)
                     (plan_matter st) (propagated st) s in
      match invoke C a input "Agent execution failed" with
      | Failed e called =>
          let st := log_call (call_of s false agent_name called) st in
          let st := record_event (phase_complete (id s) agent_name (Some "failed"))
                      (set_failed st) in
          (push_result (with_sr (fail_with (exn_str e)) step_result) st,
           Some (exn_str e))
      | Completed called out n =>
          let produced := _collect_expected_artifacts out (expected_artifacts s) in
          let step_result :=
            with_sr (fun r => with_artifacts produced
                                (set_output out (set_status "complete"
                                   (note_attempts n r)))) step_result in
          let st := log_call (call_of s false agent_name (Some called)) st in
          let st := hoist_if_any produced (keep_output true agent_name out st) in
          let st := record_event (phase_complete (id s) agent_name (Some "complete")) st in
          match evaluate_exit_conditions C s
                  (dict_update (plan_matter st) (propagated st)) with
          | [] => (push_result step_result st, None)
          | missing =>
              (push_result
                 (with_sr (fun r => set_missing_signals missing
                                      (set_status "attention_required" r))
                    step_result)
                 (set_needs_attention st), None)
          end
      end
  end.

(** The body of the loop of [execute_stream]; the accumulator carries the
    loop state, the events yielded and [current_step]. *)
Definition stream_node (total_steps : Z)
    (acc : loop_state * list progress_event * Z) (node : step)
    : loop_state * list progress_event * Z :=
  let '(st, events, current_step) := acc in
  let current_step := current_step + 1 in
  let s := step_of (plan_steps st) node in
  let events := events ++ [agent_started (agent s) current_step total_steps (phase s)] in
  let '(st, failure) := run_plain st s in
  (st,
   events ++ [match failure with
              | Some message => agent_failed (agent s) message
              | None => agent_completed (agent s) current_step total_steps
              end],
   current_step).

(** [execute_stream]: the events yielded, the exception that ends the
    generator early if there is one, the service afterwards and the agent
    invocations made. *)
Definition execute_stream (m : option value) (k : option string) (uuid : string)
    (s : service)
    : list progress_event * option exn * service * list call_record :=
  match resolve_plan m k uuid s with
  | (Raised e, s) => ([], Some e, s, [])
  | (Returned (p, k), s) =>
      let g := graph_of p in
      let l := match steps p with [] => to_linear_steps C g | l => l end in
      let nodes := topological_order C g in
      let '(st, events, _) :=
        fold_left (stream_node (Z.of_nat (length nodes))) nodes
          (start_state p l, [plan_created k], 0) in
      let r := record_of k false st in
      (events ++ [execution_complete (final_status st) k
                    (Z.of_nat (length (collected st)))],
       None, persist k (with_outcome (final_status st) l p) r s, calls st)
  end.

(** The id [re_execute] starts from. *)
Definition start_point (from_step : option string) (resume_from_failure : bool)
    (previous_execution : option execution_record) : option string :=
  match from_step with
  | Some given =>
      if negb (String.eqb given "") then Some given
      else match previous_execution with
           | Some prev =>
               if resume_from_failure then
                 sr_id <$> find (fun r => bool_decide (status (sr r) = Some "failed"))
                                (er_steps prev)
               else None
           | None => None
           end
  | None =>
      match previous_execution with
      | Some prev =>
          if resume_from_failure then
            sr_id <$> find (fun r => bool_decide (status (sr r) = Some "failed"))
                           (er_steps prev)
          else None
      | None => None
      end
  end.

(** The loop that restores the previous execution up to the start point;
    the boolean tells whether the loop met the start point (and broke). *)
Fixpoint restore (start_step_id : string) (previous : list step_result)
    (st : loop_state) : loop_state * bool :=
  match previous with
  | [] => (st, false)
  | r :: rest =>
      if String.eqb (sr_id r) start_step_id then (st, true)
      else if bool_decide (status (sr r) = Some "complete") then
        let st := push_result r st in
        let st := match output (sr r) with
                  | Some (_ :: _ as out) => keep_output true (sr_agent r) out st
                  | _ => st
                  end in
        let st := match artifacts (sr r) with
                  | Some (_ :: _ as produced) => hoist produced st
                  | _ => st
                  end in
        restore start_step_id rest st
      else restore start_step_id rest st
  end.

(** The body of the main loop of [re_execute]; the boolean is
    [past_start_point]. *)
Definition re_execute_node (start_step_id : option string)
    (acc : loop_state * bool) (node : step) : loop_state * bool :=
  let '(st, past_start_point) := acc in
  let s := step_of (plan_steps st) node in
  let past_start_point :=
    past_start_point || bool_decide (Some (id s) = start_step_id) in
  if negb past_start_point then (st, past_start_point)
  else if existsb (fun r => String.eqb (sr_id r) (id s)) (steps_results st)
  then (st, past_start_point)
  else ((run_plain st s).1, past_start_point).

Definition re_execute (k : string) (from_step : option string)
    (resume_from_failure : bool) (s : service)
    : outcome execution_record * service * list call_record :=
  let s := _load_state C s in
  match recall_plan k (state s) with
  | None => (Raised (PlanNotFoundError k), s, [])
  | Some p =>
      let previous_execution := recall_execution k (state s) in
      let start_step_id := start_point from_step resume_from_failure previous_execution in
      let st0 := start_state p (steps p) in
      let '(st1, met) :=
        match previous_execution, start_step_id with
        | Some prev, Some (String _ _ as start) => restore start (er_steps prev) st0
        | _, _ => (st0, false)
        end in
      let past_start_point := bool_decide (start_step_id = None) || met in
      let '(st, _) :=
        fold_left (re_execute_node start_step_id)
          (topological_order C (graph_of p)) (st1, past_start_point) in
      let r := record_of k true st in
      (Returned r, persist k (with_outcome (final_status st) (steps p) p) r s,
       calls st)
  end.

End Engine.

(** *** Vocabulary of the properties *)

Definition has_status (v : string) (r : step_result) : bool :=
  bool_decide (status (sr r) = Some v).

(** The overall status as the specification words it, read off the step
    results alone. *)
Definition status_from_steps (l : list step_result) : string :=
  if existsb (has_status "failed") l then "failed"
  else if existsb (has_status "attention_required") l then "attention_required"
  else "complete".

(** A step result marked [attention_required] is a completed step (it has
    its output) demoted by a non-empty list of missing signals. *)
Definition demoted (r : step_result) : Prop :=
  status (sr r) = Some "attention_required" ->
  is_Some (output (sr r)) /\
  exists m ms, missing_signals (sr r) = Some (m :: ms).

(** The two flags of the loop agree with the step results recorded so far. *)
Record tallied (st : loop_state) : Prop := {
  tally_overall :
    overall_status st =
    if existsb (has_status "failed") (steps_results st) then "failed" else "complete";
  tally_attention :
    needs_attention st =
    existsb (has_status "attention_required") (steps_results st);
  tally_demoted : Forall demoted (steps_results st)
}.

(** *** Sample plans and agents *)

(** A minimal set of collaborators around a registry, a list of task-graph
    nodes and an exit-condition rule: the graph is the list of its nodes in
    execution order, its payload is empty (so a run rebuilds it from the
    plan's steps), no connector is resolved and every matter validates. *)
Definition sample_collaborators (registry : gmap string Agent)
    (nodes : list step) (exit_conditions : step -> dict -> list string)
    : collaborators :=
  {| agents := registry; retry_policy := NO_RETRY_POLICY; rnd := fun _ => 0%Q;
     TaskGraph := list step; build_graph := fun _ => nodes;
     as_dict := fun _ => VNone; from_dict := fun _ => [];
     from_linear_steps := fun l => l; to_linear_steps := fun g => g;
     topological_order := fun g => g;
     evaluate_exit_conditions := exit_conditions;
     catalogue := VList []; resolve := fun _ => Returned [];
     determine_document_type := fun _ => Returned "memorandum";
     model_validate := fun m => inl m;
     clock := fun n => inject_Z (Z.of_nat n) |}.

Definition empty_state : State := {| plans := ∅; executions := ∅ |}.

Definition sample_service : service :=
  {| repository := empty_state; _state_cache := None; _cache_timestamp := None;
     _cache_ttl := 60; state := empty_state; ticks := 0 |}.

Definition sample_matter : value :=
  VDict [("summary", VStr "S"); ("parties", VList [VStr "A"; VStr "B"]);
         ("documents", VList [VDict [("title", VStr "D")]])].

Definition expects (name : string) : value := VDict [("name", VStr name)].

Definition node (i a : string) (advertised : list value) : step :=
  {| id := i; agent := a; dependencies := []; expected_artifacts := advertised;
     phase := VNone; required_connectors := []; supporting_agents := [];
     written := nothing_recorded |}.

Definition returns (out : dict) : Agent := fun _ _ => Returned out.

Definition raises (message : string) : Agent :=
  fun _ _ => Raised (Exn "RuntimeError" ["Exception"; "BaseException"] message).

Definition no_exit_conditions : step -> dict -> list string := fun _ _ => [].

(** Scenario B of the specification: the drafting agent always raises. *)
Definition scenario_b : collaborators :=
  sample_collaborators
    (list_to_map [("lda", returns [("facts", VStr "F")]);
                  ("dda", raises "model unavailable")])
    [node "n1" "lda" [expects "facts"]; node "n2" "dda" []]
    no_exit_conditions.





(** A service whose last run of plan ["plan-1"] left the first step
    demoted to [attention_required] and the second one failed. *)
Definition demoted_n1 : step_result :=
  with_sr (fun r => set_missing_signals ["authorities"]
                      (set_status "attention_required"
                         (set_output [("facts", VStr "old")] r)))
    (new_step_result (node "n1" "lda" [expects "facts"])).

Definition failed_n2 : step_result :=
  with_sr (fail_with "model unavailable") (new_step_result (node "n2" "dda" [])).

Definition interrupted_state : State :=
  {| plans :=
       {[ "plan-1" :=
            {| plan_id := "plan-1"; plan_status := "failed";
               matter := [("summary", VStr "S"); ("parties", VList []);
                          ("documents", VList [])];
               graph := VNone;
               steps := [node "n1" "lda" [expects "facts"]; node "n2" "dda" []];
               connectors := VList [] |} ]};
     executions :=
       {[ "plan-1" :=
            {| er_plan_id := "plan-1"; er_status := "failed";
               er_steps := [demoted_n1; failed_n2]; er_artifacts := [];
               er_trace := []; re_execution := false |} ]} |}.

Definition interrupted_service : service :=
  {| repository := interrupted_state; _state_cache := None;
     _cache_timestamp := None; _cache_ttl := 60; state := interrupted_state;
     ticks := 0 |}.




(** The names a list of [expected_artifacts] entries advertises. *)
Definition advertised (l : list value) : list string := omap artifact_name l.




(** The part of the loop state that feeds the agents' inputs. *)
Definition context (st : loop_state) : dict * dict := (propagated st, plan_matter st).



(** The name is a key of what has been propagated. *)
Definition present (name : string) (ctx : dict * dict) : Prop :=
  unique_keys ctx.1 /\ dict_has ctx.1 name = true.



End Service.

(** ** orchestrator/service.py: who shares what with whom *)

(** The read and write operations of the service once more, seen at the
    level of object identity.  A document is a tree of objects; every
    dictionary and list carries the address of the Python object it is,
    scalars are immutable.  Two documents share an object when the same
    address occurs in both: assigning into an object changes it wherever it
    occurs.  Sharing of one object at several places of a single document is
    not tracked.  The state is the one the service works on while the cache
    is fresh ([self.state], which [_load_state] hands back); a reload from
    the repository builds new objects only. *)
Module Sharing.
Import Validation.

Inductive atom :=
| ANone
| ABool (b : bool)
| ANum (n : Z)
| AStr (s : string).

Inductive kind := Dictionary | Sequence.

(** The items of a list are kept under empty keys. *)
#[warnings="-register-all"]
Inductive doc :=
| Atom (a : atom)
| Obj (address : nat) (k : kind) (items : list (string * doc)).

Definition content_of_atom (a : atom) : value :=
  match a with
  | ANone => VNone
  | ABool b => VBool b
  | ANum n => VNum n
  | AStr s => VStr s
  end.

(** What a document says, whatever objects it is made of. *)
Fixpoint content (d : doc) : value :=
  match d with
  | Atom a => content_of_atom a
  | Obj _ Dictionary items => VDict (map (fun kv => (kv.1, content kv.2)) items)
  | Obj _ Sequence items => VList (map (fun kv => content kv.2) items)
  end.

(** The objects a document is made of. *)
Fixpoint addresses (d : doc) : list nat :=
  match d with
  | Atom _ => []
  | Obj a _ items => a :: flat_map (fun kv => addresses kv.2) items
  end.

(** Induction over a document and the documents below it. *)
Fixpoint doc_induction (P : doc -> Prop)
    (atoms : forall a, P (Atom a))
    (objects : forall a k items,
        Forall (fun kv => P kv.2) items -> P (Obj a k items))
    (d : doc) {struct d} : P d :=
  match d with
  | Atom a => atoms a
  | Obj a k items =>
      objects a k items
        ((fix each (l : list (string * doc)) : Forall (fun kv => P kv.2) l :=
            match l with
            | [] => @List.Forall_nil _ (fun kv => P kv.2)
            | kv :: rest =>
                @List.Forall_cons _ (fun kv => P kv.2) kv rest
                  (doc_induction P atoms objects kv.2) (each rest)
            end) items)
  end.

(** [copy.deepcopy]: every object is built anew, at the next free
    address; the second component is the next free address afterwards. *)
Fixpoint deepcopy (d : doc) (next : nat) {struct d} : doc * nat :=
  match d with
  | Atom a => (Atom a, next)
  | Obj _ k items =>
      let copied :=
        (fix each (l : list (string * doc)) (next : nat)
           : list (string * doc) * nat :=
           match l with
           | [] => ([], next)
           | kv :: rest =>
               let c := deepcopy kv.2 next in
               let r := each rest c.2 in
               ((kv.1, c.1) :: r.1, r.2)
           end) items (S next) in
      (Obj next k copied.1, copied.2)
  end.

(** The copies of the items of one object, in order. *)
Fixpoint deepcopy_items (l : list (string * doc)) (next : nat)
    : list (string * doc) * nat :=
  match l with
  | [] => ([], next)
  | kv :: rest =>
      let c := deepcopy kv.2 next in
      let r := deepcopy_items rest c.2 in
      ((kv.1, c.1) :: r.1, r.2)
  end.

(** An assignment into the object at [target] ([obj[key] = v],
    [obj.append(v)], [del obj[key]], ...): its items become [f items],
    wherever the object occurs. *)
Fixpoint mutate (target : nat) (f : list (string * doc) -> list (string * doc))
    (d : doc) {struct d} : doc :=
  match d with
  | Atom a => Atom a
  | Obj a k items =>
      if Nat.eqb a target then Obj a k (f items)
      else Obj a k (map (fun kv => (kv.1, mutate target f kv.2)) items)
  end.

Definition assignment : Type :=
  nat * (list (string * doc) -> list (string * doc)).

Definition mutate_all (ms : list assignment) (d : doc) : doc :=
  fold_left (fun d m => mutate m.1 m.2 d) ms d.

(** [d.get(key)] on a dictionary object. *)
Definition doc_get (d : doc) (key : string) : option doc :=
  match d with
  | Obj _ Dictionary items => snd <$> find (fun kv => String.eqb kv.1 key) items
  | _ => None
  end.

(** Modelled from the spec: the in-memory [State] aggregate the service
    holds in [self.state] ([remember_plan], [recall_plan],
    [remember_execution], [recall_execution] store and hand back the
    document they are given, by reference; a missing entry reads as [None]),
    together with the next free address of the Python heap. *)
Record State := {
  plans : gmap string doc;
  executions : gmap string doc;
  next_address : nat
}.

Definition remember_plan (k : string) (d : doc) (st : State) : State :=
  {| plans := <[k := d]> (plans st); executions := executions st;
     next_address := next_address st |}.

Definition recall_plan (k : string) (st : State) : doc :=
  default (Atom ANone) (plans st !! k).

Definition remember_execution (k : string) (d : doc) (st : State) : State :=
  {| plans := plans st; executions := <[k := d]> (executions st);
     next_address := next_address st |}.

Definition recall_execution (k : string) (st : State) : doc :=
  default (Atom ANone) (executions st !! k).

Definition allocated (n : nat) (st : State) : State :=
  {| plans := plans st; executions := executions st; next_address := n |}.

(** [plan(matter)] after validation: [validated_matter], [graph.as_dict()],
    [graph.to_linear_steps()] and [connectors.catalogue()] are the documents
    the collaborators hand over; the plan is a new dictionary around them,
    its deep copy is remembered and the plan itself returned. *)
Definition plan (uuid : string) (validated_matter graph_payload linear_steps
    catalogue : doc) (st : State) : doc * State :=
  let made :=
    Obj (next_address st) Dictionary
      [("plan_id", Atom (AStr uuid)); ("status", Atom (AStr "planned"));
       ("matter", validated_matter); ("graph", graph_payload);
       ("steps", linear_steps); ("connectors", catalogue)] in
  let copied := deepcopy made (S (next_address st)) in
  (made, remember_plan uuid copied.1 (allocated copied.2 st)).

(** The end of [execute], [execute_stream] and [re_execute]:
    [remember_plan(plan_id, deepcopy(plan))] and
    [remember_execution(plan_id, deepcopy(execution_record))]. *)
Definition remember_run (k : string) (the_plan execution_record : doc)
    (st : State) : State :=
  let p := deepcopy the_plan (next_address st) in
  let e := deepcopy execution_record p.2 in
  remember_execution k e.1 (remember_plan k p.1 (allocated e.2 st)).

Definition get_plan (k : string) (st : State) : outcome doc * State :=
  match recall_plan k st with
  | Atom ANone => (Raised (PlanNotFoundError k), st)
  | d =>
      let copied := deepcopy d (next_address st) in
      (Returned copied.1, allocated copied.2 st)
  end.

Definition no_get : exn :=
  Exn "AttributeError" ["Exception"; "BaseException"]
    "object has no attribute 'get'".

(** [deepcopy(execution.get("artifacts", {}))]; the default, a new and
    empty dictionary, is built before [get] is called. *)
Definition get_artifacts (k : string) (st : State) : outcome doc * State :=
  match recall_execution k st with
  | Atom ANone => (Raised (ExecutionNotFoundError k), st)
  | Obj a Dictionary items =>
      let fallback := Obj (next_address st) Dictionary [] in
      let found :=
        default fallback (doc_get (Obj a Dictionary items) "artifacts") in
      let copied := deepcopy found (S (next_address st)) in
      (Returned copied.1, allocated copied.2 st)
  | _ => (Raised no_get, st)
  end.

Definition get_execution (k : string) (st : State) : outcome doc * State :=
  match recall_execution k st with
  | Atom ANone => (Raised (ExecutionNotFoundError k), st)
  | d =>
      let copied := deepcopy d (next_address st) in
      (Returned copied.1, allocated copied.2 st)
  end.

(** The caller assigning into objects it holds: each assignment reaches
    every remembered document that shares the object. *)
Definition assign (st : State) (m : assignment) : State :=
  {| plans := mutate m.1 m.2 <$> plans st;
     executions := mutate m.1 m.2 <$> executions st;
     next_address := next_address st |}.

Definition assign_all (ms : list assignment) (st : State) : State :=
  fold_left assign ms st.

(** The objects of a document all lie below [n]. *)
Definition below (n : nat) (d : doc) : Prop :=
  Forall (fun a => a < n)%nat (addresses d).

(** Every object of every remembered document lies below the next free
    address. *)
Definition well_allocated (st : State) : Prop :=
  (forall k d, plans st !! k = Some d -> below (next_address st) d) /\
  (forall k d, executions st !! k = Some d -> below (next_address st) d).

#[global] Instance well_allocated_dec st : Decision (well_allocated st).
Proof.
  unfold well_allocated, below.
  apply and_dec;
    apply (map_Forall_dec (fun (_ : string) d =>
             Forall (fun a => a < next_address st)%nat (addresses d))).
Defined.

(** The assignments all go into objects of [d]. *)
Definition into (d : doc) (ms : list assignment) : Prop :=
  Forall (fun m : assignment => m.1 ∈ addresses d) ms.

(** No object of one document is an object of the other. *)
Definition apart (d e : doc) : Prop :=
  forall a, a ∈ addresses d -> a ∈ addresses e -> False.

(** What an operation returned, as content. *)
Definition said (r : outcome doc * State) : option value :=
  match r.1 with
  | Returned d => Some (content d)
  | Raised _ => None
  end.

(** The three reads of one plan id. *)
Definition reads (k : string) (st : State)
    : option value * option value * option value :=
  (said (get_plan k st), said (get_artifacts k st), said (get_execution k st)).

(** *** Sample state *)

Definition matter_doc : doc :=
  Obj 0 Dictionary
    [("summary", Atom (AStr "Slip and fall"));
     ("parties", Obj 1 Sequence [("", Atom (AStr "Ada")); ("", Atom (AStr "Bo"))])].

Definition steps_doc : doc :=
  Obj 2 Sequence
    [("", Obj 3 Dictionary [("id", Atom (AStr "n1")); ("agent", Atom (AStr "lda"))])].

Definition graph_doc : doc := Obj 4 Dictionary [("nodes", Obj 5 Sequence [])].

Definition catalogue_doc : doc := Obj 6 Dictionary [].

Definition blank : State :=
  {| plans := ∅; executions := ∅; next_address := 7 |}.

Definition planned : doc * State :=
  plan "p1" matter_doc graph_doc steps_doc catalogue_doc blank.

Definition record_doc : doc :=
  Obj 30 Dictionary
    [("plan_id", Atom (AStr "p1")); ("status", Atom (AStr "complete"));
     ("artifacts", Obj 31 Dictionary
        [("lda", Obj 32 Dictionary [("facts", Atom (ANum 3))])])].

Definition ran : State :=
  remember_run "p1" planned.1 record_doc (allocated 33 planned.2).

(** The caller overwrites the matter of the plan [plan()] returned. *)
Definition scribble : assignment :=
  (0%nat, fun _ => [("summary", Atom (AStr "changed"))]).

(** What [get_plan("p1")] returns after the run, and the caller emptying
    its matter and its list of steps. *)
Definition fetched : outcome doc * State := get_plan "p1" ran.

Definition fetched_plan : doc :=
  match fetched.1 with
  | Returned d => d
  | Raised _ => Atom ANone
  end.

Definition wipe : list assignment :=
  [(45%nat, fun _ => []); (49%nat, fun _ => [])].

(** The same for [get_artifacts("p1")]. *)
Definition fetched_artifacts : outcome doc * State := get_artifacts "p1" ran.

Definition artifacts_doc : doc :=
  match fetched_artifacts.1 with
  | Returned d => d
  | Raised _ => Atom ANone
  end.

Definition wipe_artifacts : list assignment :=
  [(45%nat, fun items => ("lda", Atom ANone) :: items)].

End Sharing.

(** ** orchestrator/retry.py: further sample operations *)
Module RetryCases.
Import Retry.




End RetryCases.

(** ** orchestrator/circuit_breaker.py: invariants and the registry *)
Module BreakerRegistry.
Import Breaker.

(** A breaker is closed exactly when it carries no opening time. *)
Definition coherent (b : CircuitBreaker) : Prop :=
  _state b = CLOSED <-> _opened_at b = None.

(** [CircuitBreakerConfig()]. *)
Definition default_breaker_config : CircuitBreakerConfig :=
  {| failure_threshold := 5; success_threshold := 2; timeout_seconds := 30;
     excluded_exceptions := [] |}.

(** The registry: its breakers by name. *)
Record CircuitBreakerRegistry := {
  _breakers : gmap string CircuitBreaker;
  _default_config : CircuitBreakerConfig
}.

(** [CircuitBreakerRegistry(default_config)]. *)
Definition new_registry (default_config : option CircuitBreakerConfig)
    : CircuitBreakerRegistry :=
  {| _breakers := ∅;
     _default_config := default default_breaker_config default_config |}.

Definition get_or_create (n : string) (c : option CircuitBreakerConfig)
    (r : CircuitBreakerRegistry) : CircuitBreaker * CircuitBreakerRegistry :=
  match _breakers r !! n with
  | Some b => (b, r)
  | None =>
      let b := new_breaker n (default (_default_config r) c) in
      (b, {| _breakers := <[n := b]> (_breakers r);
             _default_config := _default_config r |})
  end.

Definition get (n : string) (r : CircuitBreakerRegistry) : option CircuitBreaker :=
  _breakers r !! n.

(** [state.value]. *)
Definition state_value (s : CircuitState) : string :=
  match s with
  | CLOSED => "closed"
  | OPEN => "open"
  | HALF_OPEN => "half_open"
  end.

(** One entry of [get_all_stats]. *)
Record stats_row := {
  row_state : string;
  row_total_calls : Z;
  row_successful_calls : Z;
  row_failed_calls : Z;
  row_rejected_calls : Z;
  row_consecutive_failures : Z
}.

Definition row_of (b : CircuitBreaker) : stats_row :=
  {| row_state := state_value (_state b);
     row_total_calls := total_calls (_stats b);
     row_successful_calls := successful_calls (_stats b);
     row_failed_calls := failed_calls (_stats b);
     row_rejected_calls := rejected_calls (_stats b);
     row_consecutive_failures := consecutive_failures (_stats b) |}.

Definition get_all_stats (r : CircuitBreakerRegistry) : gmap string stats_row :=
  row_of <$> _breakers r.

Definition reset_all (r : CircuitBreakerRegistry) : CircuitBreakerRegistry :=
  {| _breakers := reset <$> _breakers r; _default_config := _default_config r |}.

(** The function raises an exception of a class the configuration
    excludes. *)
Definition raises_excluded {W A : Type} (c : CircuitBreakerConfig)
    (func : W -> outcome A * W) : Prop :=
  forall w, exists e w',
    func w = (Raised e, w') /\ isinstance e (excluded_exceptions c) = true.

(** A run of failures shorter than the threshold, ended by a success. *)
Definition round {W A : Type} (c : CircuitBreakerConfig)
    (r : list ((W -> outcome A * W) * readings) * ((W -> outcome A * W) * readings))
    : Prop :=
  Forall (fun i => fails c i.1) r.1 /\
  Z.of_nat (length r.1) < failure_threshold c /\
  succeeds r.2.1.

(** Sample functions: one that raises an exception the configuration
    excludes, and a configuration excluding it. *)
Definition lenient_config : CircuitBreakerConfig :=
  {| failure_threshold := 2; success_threshold := 2; timeout_seconds := 1;
     excluded_exceptions := ["KeyError"] |}.

Definition key_error_func (w : nat) : outcome string * nat :=
  (Raised (Exn "KeyError" ["LookupError"; "Exception"; "BaseException"] "k"), S w).

(** Two rounds of two failures and a success, then two more failures:
    six failures in all under a threshold of three. *)
Definition sample_rounds
    : list (list ((nat -> outcome string * nat) * readings) *
            ((nat -> outcome string * nat) * readings)) :=
  [([(failing_func, at_time 1); (failing_func, at_time 2)], (ok_func, at_time 3));
   ([(failing_func, at_time 4); (failing_func, at_time 5)], (ok_func, at_time 6))].

Definition sample_tail : list ((nat -> outcome string * nat) * readings) :=
  [(failing_func, at_time 7); (failing_func, at_time 8)].

End BreakerRegistry.

(** ** orchestrator/async_execution.py: the job table *)
Module JobTable.
Import AsyncExecution.

Section Table.
Context {R : Type}.

(** [status.value]. *)
Definition status_value (s : JobStatus) : string :=
  match s with
  | PENDING => "pending"
  | RUNNING => "running"
  | COMPLETED => "completed"
  | FAILED => "failed"
  | CANCELLED => "cancelled"
  end.

(** The dictionary [get_stats] fills: one counter per status. *)
Record job_stats := {
  n_pending : Z;
  n_running : Z;
  n_completed : Z;
  n_failed : Z;
  n_cancelled : Z;
  n_total : Z
}.

(** [stats[job.status.value] += 1]. *)
Definition count_job (s : JobStatus) (st : job_stats) : job_stats :=
  match s with
  | PENDING =>
      {| n_pending := n_pending st + 1; n_running := n_running st;
         n_completed := n_completed st; n_failed := n_failed st;
         n_cancelled := n_cancelled st; n_total := n_total st |}
  | RUNNING =>
      {| n_pending := n_pending st; n_running := n_running st + 1;
         n_completed := n_completed st; n_failed := n_failed st;
         n_cancelled := n_cancelled st; n_total := n_total st |}
  | COMPLETED =>
      {| n_pending := n_pending st; n_running := n_running st;
         n_completed := n_completed st + 1; n_failed := n_failed st;
         n_cancelled := n_cancelled st; n_total := n_total st |}
  | FAILED =>
      {| n_pending := n_pending st; n_running := n_running st;
         n_completed := n_completed st; n_failed := n_failed st + 1;
         n_cancelled := n_cancelled st; n_total := n_total st |}
  | CANCELLED =>
      {| n_pending := n_pending st; n_running := n_running st;
         n_completed := n_completed st; n_failed := n_failed st;
         n_cancelled := n_cancelled st + 1; n_total := n_total st |}
  end.

Definition no_jobs : job_stats :=
  {| n_pending := 0; n_running := 0; n_completed := 0; n_failed := 0;
     n_cancelled := 0; n_total := 0 |}.

Definition with_total (n : Z) (st : job_stats) : job_stats :=
  {| n_pending := n_pending st; n_running := n_running st;
     n_completed := n_completed st; n_failed := n_failed st;
     n_cancelled := n_cancelled st; n_total := n |}.

(** [stats[s.value]]. *)
Definition stat_of (s : JobStatus) (st : job_stats) : Z :=
  match s with
  | PENDING => n_pending st
  | RUNNING => n_running st
  | COMPLETED => n_completed st
  | FAILED => n_failed st
  | CANCELLED => n_cancelled st
  end.

(** [get_stats]: the loop over [self._jobs.values()], then the total. *)
Definition get_stats (m : AsyncExecutionManager R) : job_stats :=
  with_total (Z.of_nat (size (_jobs m)))
    (map_fold (fun _ job st => count_job (status job) st) no_jobs (_jobs m)).

(** The status is one of those a finished job has. *)
Definition finished (s : JobStatus) : bool :=
  match s with
  | COMPLETED | FAILED | CANCELLED => true
  | PENDING | RUNNING => false
  end.

(** The test [cleanup_old_jobs] makes on a job; [now] is its one clock
    reading. *)
Definition expired (now max_age_seconds : Q) (job : AsyncJob R) : bool :=
  finished (status job) &&
  match completed_at job with
  | Some ended => if Qlt_le_dec max_age_seconds (now - ended) then true else false
  | None => false
  end.

(** [cleanup_old_jobs]: the ids collected first, then deleted one by
    one; the number of ids is returned. *)
Definition cleanup_old_jobs (now max_age_seconds : Q)
    (m : AsyncExecutionManager R) : Z * AsyncExecutionManager R :=
  let to_remove :=
    (map_to_list (filter (fun kv => expired now max_age_seconds kv.2 = true)
                    (_jobs m))).*1 in
  (Z.of_nat (length to_remove),
   {| _jobs := foldr delete (_jobs m) to_remove;
      _running_tasks := _running_tasks m |}).







(** A failed POST of attempt [b] with the back-off sleep after it. *)
Definition failed_round (payload : webhook_payload R) (b : Z)
    : list (delivery_event R) :=
  [Posted b payload false; Slept (2 ^ b)].

End Table.
End JobTable.

(** ** orchestrator/validation.py: document type and jurisdiction *)
Module Normalisation.
Import Validation.

(** [c.lower()] for a character below U+0100: the letters A-Z and the
    accented capitals U+00C0-U+00DE (the multiplication sign apart) move up
    by 32. *)
Definition lower_char (c : ascii) : ascii :=
  let n := nat_of_ascii c in
  if ((65 <=? n)%nat && (n <=? 90)%nat) ||
     ((192 <=? n)%nat && (n <=? 222)%nat && negb (n =? 215)%nat)
  then ascii_of_nat (n + 32) else c.

(** A string changed character by character. *)
Fixpoint map_chars (f : ascii -> ascii) (s : string) : string :=
  match s with
  | EmptyString => EmptyString
  | String c rest => String (f c) (map_chars f rest)
  end.

(** [s.lower()]. *)
Definition lower (s : string) : string := map_chars lower_char s.

Definition space_to_underscore (c : ascii) : ascii :=
  if Ascii.eqb c " " then "_"%char else c.

(** [s.replace(" ", "_")]. *)
Definition spaces_to_underscores (s : string) : string :=
  map_chars space_to_underscore s.

Definition valid_types : list string :=
  ["complaint"; "motion"; "memorandum"; "demand_letter"; "brief"; "answer"].

(** [validate_document_type]; [VNone] is Python's [None].  A type that
    is not one of [valid_types] is only logged. *)
Definition validate_document_type (document_type : value) : outcome string :=
  match document_type with
  | VNone => Returned "memorandum"
  | VStr given => Returned (spaces_to_underscores (lower (strip given)))
  | other =>
      Raised (ValidationError
                ("Document type must be a string, got " +:+ type_name other))
  end.

Definition validate_jurisdiction (jurisdiction : value) : outcome string :=
  match jurisdiction with
  | VNone => Returned "federal"
  | VStr given =>
      let stripped := strip given in
      if String.eqb stripped "" then Returned "federal" else Returned stripped
  | other =>
      Raised (ValidationError
                ("Jurisdiction must be a string, got " +:+ type_name other))
  end.

(** A string that neither starts nor ends with whitespace. *)
Definition trimmed (s : string) : Prop := strip s = s.

(** The characters of a string. *)
Fixpoint chars (s : string) : list ascii :=
  match s with
  | EmptyString => []
  | String c rest => c :: chars rest
  end.

End Normalisation.

(** ** orchestrator/service.py: vocabulary of further properties *)
Module ServiceTerms.
Import Retry Validation Service.

(** Induction over a value and the values inside it. *)
Fixpoint value_induction (P : value -> Prop)
    (none : P VNone) (bools : forall b, P (VBool b))
    (nums : forall n, P (VNum n)) (strs : forall s, P (VStr s))
    (lists : forall items, Forall P items -> P (VList items))
    (dicts : forall items, Forall (fun kv => P kv.2) items -> P (VDict items))
    (v : value) {struct v} : P v :=
  match v with
  | VNone => none
  | VBool b => bools b
  | VNum n => nums n
  | VStr s => strs s
  | VList items =>
      lists items
        ((fix each (l : list value) : Forall P l :=
            match l with
            | [] => @List.Forall_nil _ P
            | x :: rest =>
                @List.Forall_cons _ P x rest
                  (value_induction P none bools nums strs lists dicts x)
                  (each rest)
            end) items)
  | VDict items =>
      dicts items
        ((fix each (l : list (string * value)) : Forall (fun kv => P kv.2) l :=
            match l with
            | [] => @List.Forall_nil _ (fun kv => P kv.2)
            | kv :: rest =>
                @List.Forall_cons _ (fun kv => P kv.2) kv rest
                  (value_induction P none bools nums strs lists dicts kv.2)
                  (each rest)
            end) items)
  end.

(** [v] is stored under [name] in a dictionary that is a value of
    [payload], or a value of such a dictionary, and so on: below the top
    level, and not inside a list. *)
Inductive held_below (name : string) (v : value) : dict -> Prop :=
| held_in_child (k : string) (inner payload : dict) :
    (k, VDict inner) ∈ payload -> dict_get inner name = Some v ->
    held_below name v payload
| held_deeper (k : string) (inner payload : dict) :
    (k, VDict inner) ∈ payload -> held_below name v inner ->
    held_below name v payload.

(** The search over the values of a dictionary, one item after the
    other: the loop of [_find_nested_artifact]. *)
Fixpoint search_values (artifact_name : string) (items : dict) : value :=
  match items with
  | [] => VNone
  | (_, VDict inner) :: rest =>
      match dict_get inner artifact_name with
      | Some found => found
      | None =>
          match _find_nested_artifact artifact_name (VDict inner) with
          | VNone => search_values artifact_name rest
          | nested => nested
          end
      end
  | _ :: rest => search_values artifact_name rest
  end.

(** The loop [execute_stream] and [re_execute] make over the nodes they
    run: one plain run per node, on the step [plan_steps_map] holds for it. *)
Definition plain_walk (C : collaborators) (nodes : list step) (st : loop_state)
    : loop_state :=
  fold_left (fun st node => (run_plain C st (step_of (plan_steps st) node)).1)
    nodes st.

(** The two events a step of number [i] is reported with, read off its
    step result. *)
Definition events_of (total i : Z) (x : step_result) : list progress_event :=
  [agent_started (sr_agent x) i total (sr_phase x);
   if has_status "failed" x
   then agent_failed (sr_agent x) (default "" (error (sr x)))
   else agent_completed (sr_agent x) i total].

(** The events of a list of step results, numbered from [from + 1] on. *)
Fixpoint numbered_events (total from : Z) (results : list step_result)
    : list progress_event :=
  match results with
  | [] => []
  | x :: rest =>
      events_of total (from + 1) x ++ numbered_events total (from + 1) rest
  end.

(** The output of the last step result of an agent that has one. *)
Definition latest_output (name : string) (results : list step_result)
    : option dict :=
  fold_left
    (fun found r =>
       if String.eqb (sr_agent r) name
       then match output (sr r) with Some out => Some out | None => found end
       else found)
    results None.

(** The artifacts agree with the step results recorded so far. *)
Definition artifacts_tally (st : loop_state) : Prop :=
  unique_keys (collected st) /\
  forall name,
    dict_get (collected st) name = VDict <$> latest_output name (steps_results st).

(** Every key of [source] is a key of [input]. *)
Definition carries (source input : dict) : Prop :=
  forall key, dict_has source key = true -> dict_has input key = true.

(** The running matter, and the input of every agent invocation made so
    far, have all the keys of [source]. *)
Definition well_fed (source : dict) (st : loop_state) : Prop :=
  carries source (plan_matter st) /\
  Forall (fun c => carries source (call_input c)) (calls st).

(** The cache, when there is one, holds what the repository holds: the
    state of a service nobody else writes to. *)
Definition in_step (s : service) : Prop :=
  forall cached, _state_cache s = Some cached -> cached = repository s.

End ServiceTerms.

(** * Properties *)

(** ** Dictionaries *)
Module DictFacts.

Lemma dict_get_set (d : dict) (k k' : string) (v : value) :
  dict_get (dict_set d k v) k' = if String.eqb k k' then Some v else dict_get d k'.
Proof.
  induction d as [|[k0 v0] d IH]; cbn.
  - by destruct (String.eqb k k').
  - destruct (String.eqb_spec k0 k) as [->|Hne]; cbn.
    + by destruct (String.eqb k k').
    + rewrite IH. destruct (String.eqb_spec k0 k') as [->|]; [|done].
      destruct (String.eqb_spec k k') as [->|]; done.
Qed.


Lemma dict_set_keys (d : dict) (k : string) (v : value) (k' : string) :
  k' ∈ map fst (dict_set d k v) <-> k' = k \/ k' ∈ map fst d.
Proof.
  induction d as [|[k0 v0] d IH]; cbn.
  - rewrite list_elem_of_singleton, elem_of_nil. tauto.
  - destruct (String.eqb_spec k0 k) as [->|Hne]; cbn;
      rewrite !elem_of_cons; [tauto|]. rewrite IH. tauto.
Qed.

Lemma dict_set_unique (d : dict) (k : string) (v : value) :
  unique_keys d -> unique_keys (dict_set d k v).
Proof.
  unfold unique_keys. induction d as [|[k0 v0] d IH]; cbn.
  - intros _. apply NoDup_singleton.
  - intros [Hk0 Hd]%NoDup_cons.
    destruct (String.eqb_spec k0 k) as [->|Hne]; cbn; apply NoDup_cons.
    + done.
    + split; [|by apply IH]. rewrite dict_set_keys. intros [?|?]; done.
Qed.



Lemma dict_has_set (d : dict) (k k' : string) (v : value) :
  dict_has d k' = true -> dict_has (dict_set d k v) k' = true.
Proof.
  unfold dict_has. rewrite dict_get_set.
  by destruct (String.eqb k k').
Qed.

Lemma dict_has_update (d other : dict) (k : string) :
  dict_has d k = true \/ dict_has other k = true ->
  dict_has (dict_update d other) k = true.
Proof.
  unfold dict_update. revert d.
  induction other as [|[k1 v1] other IH]; intros d [H|H]; try done.
  - cbn. apply IH. left. by apply dict_has_set.
  - cbn. apply IH. unfold dict_has in H. cbn in H.
    destruct (String.eqb_spec k1 k) as [->|Hne].
    + left. unfold dict_has. rewrite dict_get_set, String.eqb_refl. done.
    + by right.
Qed.

End DictFacts.

(** ** Retry policy and retry executor *)
Module RetryFacts.
Import Retry.



Section RetryLoop.
Context {A : Type}.
Variable operation : Z -> outcome A.
Variable policy : RetryPolicy.
Variable rnd : Z -> Q.



End RetryLoop.




End RetryFacts.

(** ** Circuit breaker *)
Module BreakerFacts.
Import Breaker.

Section Calls.
Context {W A : Type}.
Implicit Types (func : W -> outcome A * W) (b : CircuitBreaker) (w : W).

Lemma call_not_open func t b w :
  _state b <> OPEN ->
  call func t b w =
  match func w with
  | (Returned r, w') =>
      (CallReturned r, _on_success (t_outcome t) (bump_total b), w')
  | (Raised exc, w') =>
      if isinstance exc (excluded_exceptions (config b))
      then (CallRaised exc, bump_total b, w')
      else (CallRaised exc,
            _on_failure (t_outcome t) (t_open t) (bump_total b), w')
  end.
Proof.
  intros Hst. unfold call, _maybe_transition_to_half_open.
  destruct (_state b) eqn:E; try done; rewrite E; done.
Qed.

Lemma closed_failures (inputs : list ((W -> outcome A * W) * readings)) :
  forall b w,
    _state b = CLOSED -> 0 <= consecutive_failures (_stats b) ->
    Forall (fun i => fails (config b) i.1) inputs ->
    let n := consecutive_failures (_stats b) + Z.of_nat (length inputs) in
    let b' := (calls inputs b w).1 in
    (n < failure_threshold (config b) ->
       _state b' = CLOSED /\ consecutive_failures (_stats b') = n /\
       config b' = config b) /\
    (inputs <> [] -> n = failure_threshold (config b) -> _state b' = OPEN).
Proof.
  induction inputs as [|[func t] rest IH]; intros b w Hst Hcf Hall n b'.
  - subst n b'. simpl. split; [|done]. intros _. repeat split; [done | lia].
  - apply Forall_cons in Hall as [Hf Hrest]. simpl in Hf.
    destruct (Hf w) as (e & w1 & Hfw & Hex).
    subst b'. cbn [calls].
    rewrite call_not_open by (rewrite Hst; discriminate).
    rewrite Hfw. cbn [config bump_total with_stats]. rewrite Hex.
    unfold _on_failure. cbn. rewrite Hst.
    subst n. cbn [length].
    destruct (Z.geb_spec (consecutive_failures (_stats b) + 1)
                (failure_threshold (config b))) as [Hge|Hlt].
    + split; [lia|]. intros _ Heq.
      assert (rest = []) as -> by (destruct rest; [done | simpl in Heq; lia]).
      reflexivity.
    + match goal with |- context [calls rest ?b1 w1] => set (b1' := b1) end.
      specialize (IH b1' w1). subst b1'. cbn in IH.
      destruct IH as [IHlt IHeq]; [done | lia | done |].
      split.
      * intros Hn. destruct IHlt as (? & ? & ?); [lia|]. repeat split; [done | lia | done].
      * intros _ Heq. apply IHeq; [|lia].
        intros ->. simpl in Heq. lia.
Qed.

Lemma half_open_successes (inputs : list ((W -> outcome A * W) * readings)) :
  forall b w,
    _state b = HALF_OPEN -> 0 <= consecutive_successes (_stats b) ->
    Forall (fun i => succeeds i.1) inputs ->
    let n := consecutive_successes (_stats b) + Z.of_nat (length inputs) in
    let b' := (calls inputs b w).1 in
    (n < success_threshold (config b) ->
       _state b' = HALF_OPEN /\ consecutive_successes (_stats b') = n /\
       config b' = config b) /\
    (inputs <> [] -> n = success_threshold (config b) ->
       _state b' = CLOSED /\ _opened_at b' = None /\
       consecutive_failures (_stats b') = 0).
Proof.
  induction inputs as [|[func t] rest IH]; intros b w Hst Hcs Hall n b'.
  - subst n b'. simpl. split; [|done]. intros _. repeat split; [done | lia].
  - apply Forall_cons in Hall as [Hf Hrest]. simpl in Hf.
    destruct (Hf w) as (r & w1 & Hfw).
    subst b'. cbn [calls].
    rewrite call_not_open by (rewrite Hst; discriminate).
    rewrite Hfw. unfold _on_success. cbn. rewrite Hst.
    subst n. cbn [length].
    destruct (Z.geb_spec (consecutive_successes (_stats b) + 1)
                (success_threshold (config b))) as [Hge|Hlt].
    + split; [lia|]. intros _ Heq.
      assert (rest = []) as -> by (destruct rest; [done | simpl in Heq; lia]).
      done.
    + match goal with |- context [calls rest ?b1 w1] => set (b1' := b1) end.
      specialize (IH b1' w1). subst b1'. cbn in IH.
      destruct IH as [IHlt IHeq]; [done | lia | done |].
      split.
      * intros Hn. destruct IHlt as (? & ? & ?); [lia|]. repeat split; [done | lia | done].
      * intros _ Heq. apply IHeq; [|lia].
        intros ->. simpl in Heq. lia.
Qed.

(** C7. From the closed state, a run of non-excluded failures keeps the
    breaker closed while it is shorter than [failure_threshold] and opens it
    when it reaches exactly [failure_threshold]; an open breaker whose
    cooldown has not elapsed rejects the call with [CircuitBreakerOpen]
    carrying the remaining seconds, counts it in [rejected_calls] and leaves
    the world of the wrapped function untouched; once [timeout_seconds] has
    elapsed the call goes to half-open first and runs the function; in
    half-open, [success_threshold] successes in a row close the breaker and one
    non-excluded failure reopens it with [_opened_at] set to the time of that
    failure. *)
Theorem circuit_breaker_transitions
    (inputs : list ((W -> outcome A * W) * readings)) func t b w :
  (_state b = CLOSED -> consecutive_failures (_stats b) = 0 ->
   1 <= failure_threshold (config b) ->
   Forall (fun i => fails (config b) i.1) inputs ->
     (Z.of_nat (length inputs) < failure_threshold (config b) ->
        _state (calls inputs b w).1 = CLOSED) /\
     (Z.of_nat (length inputs) = failure_threshold (config b) ->
        _state (calls inputs b w).1 = OPEN)) /\
  (forall opened, _state b = OPEN -> _opened_at b = Some opened ->
     (t_check t - opened < timeout_seconds (config b))%Q ->
     exists b',
       call func t b w =
         (CircuitBreakerOpen (name b)
            (Qmax 0 (timeout_seconds (config b) - (t_remaining t - opened))),
          b', w) /\
       _state b' = OPEN /\
       rejected_calls (_stats b') = rejected_calls (_stats b) + 1 /\
       total_calls (_stats b') = total_calls (_stats b)) /\
  (forall opened, _state b = OPEN -> _opened_at b = Some opened ->
     (timeout_seconds (config b) <= t_check t - opened)%Q ->
     _state (_maybe_transition_to_half_open (t_check t) b) = HALF_OPEN /\
     call func t b w = call func t (_half_open b) w /\
     (call func t b w).2 = (func w).2 /\
     (call func t b w).1.1 =
       match (func w).1 with
       | Returned r => CallReturned r
       | Raised e => CallRaised e
       end /\
     total_calls (_stats (call func t b w).1.2) = total_calls (_stats b) + 1) /\
  (_state b = HALF_OPEN -> consecutive_successes (_stats b) = 0 ->
   1 <= success_threshold (config b) ->
   Forall (fun i => succeeds i.1) inputs ->
     (Z.of_nat (length inputs) < success_threshold (config b) ->
        _state (calls inputs b w).1 = HALF_OPEN) /\
     (Z.of_nat (length inputs) = success_threshold (config b) ->
        _state (calls inputs b w).1 = CLOSED)) /\
  (_state b = HALF_OPEN -> fails (config b) func ->
     _state (call func t b w).1.2 = OPEN /\
     _opened_at (call func t b w).1.2 = Some (t_open t)).
Proof.
  split; [|split; [|split; [|split]]].
  - intros Hst Hcf Hth Hall.
    destruct (closed_failures inputs b w Hst ltac:(lia) Hall) as [Hlt Heq].
    rewrite Hcf in Hlt, Heq. split.
    + intros Hn. by apply Hlt.
    + intros Hn. apply Heq; [|lia]. intros ->. simpl in Hn. lia.
  - intros opened Hst Hop Hlt. unfold call, _maybe_transition_to_half_open.
    rewrite Hst, Hop.
    destruct (Qle_bool _ _) eqn:E.
    { apply Qle_bool_iff in E. exfalso. lra. }
    rewrite Hst. exists (bump_rejected b). split; [|by repeat split].
    unfold _time_until_half_open. cbn. rewrite Hop. reflexivity.
  - intros opened Hst Hop Hge.
    assert (_maybe_transition_to_half_open (t_check t) b = _half_open b) as Hm.
    { unfold _maybe_transition_to_half_open. rewrite Hst, Hop.
      destruct (Qle_bool _ _) eqn:E; [done|].
      assert (Qle_bool (timeout_seconds (config b)) (t_check t - opened) = true)
        by (by apply Qle_bool_iff).
      congruence. }
    split; [by rewrite Hm|].
    assert (call func t b w = call func t (_half_open b) w) as Hc.
    { unfold call at 1 2. rewrite Hm. reflexivity. }
    split; [exact Hc|]. rewrite Hc.
    rewrite call_not_open by (cbn; discriminate).
    destruct (func w) as [[r|e] w']; cbn.
    + repeat split. unfold _on_success. cbn. by destruct (_ >=? _).
    + destruct (isinstance e _); repeat split.
  - intros Hst Hcs Hth Hall.
    destruct (half_open_successes inputs b w Hst ltac:(lia) Hall) as [Hlt Heq].
    rewrite Hcs in Hlt, Heq. split.
    + intros Hn. by apply Hlt.
    + intros Hn. apply Heq; [|lia]. intros ->. simpl in Hn. lia.
  - intros Hst Hf. destruct (Hf w) as (e & w' & Hfw & Hex).
    rewrite call_not_open by (rewrite Hst; discriminate).
    rewrite Hfw. cbn [config bump_total with_stats]. rewrite Hex.
    unfold _on_failure. cbn. rewrite Hst. done.
Qed.

End Calls.
Lemma failing_func_fails : fails test_config failing_func.
Proof. intros w. eexists _, _. split; reflexivity. Qed.

Lemma ok_func_succeeds : succeeds ok_func.
Proof. intros w. eexists _, _. reflexivity. Qed.

Lemma circuit_breaker_transitions_witness :
  let three := [(failing_func, at_time 1); (failing_func, at_time 2);
                (failing_func, at_time 3)] in
  let two := [(ok_func, at_time 12); (ok_func, at_time 13)] in
  _state (calls three (new_breaker "test" test_config) 0%nat).1 = OPEN /\
  (exists b',
     call ok_func (at_time (21 # 2)) test_open_breaker 0%nat =
       (CircuitBreakerOpen "test" (Qmax 0 (1 - ((21 # 2) - 10))), b', 0%nat) /\
     _state b' = OPEN /\
     rejected_calls (_stats b') = 0 + 1 /\ total_calls (_stats b') = 0) /\
  (call ok_func (at_time 12) test_open_breaker 0%nat).2 = 1%nat /\
  _state (calls two (_half_open test_open_breaker) 0%nat).1 = CLOSED /\
  _opened_at (call failing_func (at_time 12) (_half_open test_open_breaker) 0%nat).1.2
    = Some 12%Q.
Proof.
  intros three two.
  pose proof (circuit_breaker_transitions three ok_func (at_time 1)
                (new_breaker "test" test_config) 0%nat) as (Hopen & _).
  pose proof (circuit_breaker_transitions [] ok_func (at_time (21 # 2))
                test_open_breaker 0%nat) as (_ & Hreject & _).
  pose proof (circuit_breaker_transitions [] ok_func (at_time 12)
                test_open_breaker 0%nat) as (_ & _ & Hprobe & _).
  pose proof (circuit_breaker_transitions two failing_func (at_time 12)
                (_half_open test_open_breaker) 0%nat)
    as (_ & _ & _ & Hclose & Hreopen).
  split; [|split; [|split; [|split]]].
  - apply Hopen; try reflexivity; [simpl; lia|].
    repeat constructor; apply failing_func_fails.
  - apply (Hreject 10%Q); reflexivity.
  - apply (Hprobe 10%Q); try reflexivity. discriminate.
  - apply Hclose; try reflexivity; [simpl; lia|].
    repeat constructor; apply ok_func_succeeds.
  - apply Hreopen; [reflexivity | apply failing_func_fails].
Defined.

End BreakerFacts.

(** ** Background jobs *)
Module AsyncFacts.
Import AsyncExecution.

Section Jobs.
Context {R : Type}.

Lemma webhook_loop_all_fail (post : Z -> bool) cfg (payload : webhook_payload R) :
  (forall a, post a = false) ->
  forall remaining attempt,
    length (posts_made (webhook_loop post cfg payload remaining attempt)) = remaining.
Proof.
  intros Hfail. unfold posts_made.
  induction remaining as [|remaining IH]; intros attempt; [done|].
  cbn [webhook_loop]. rewrite Hfail. cbn [omap list_omap].
  rewrite omap_app. cbn [length]. rewrite length_app, IH.
  by destruct (attempt <? retry_count cfg - 1).
Qed.

(** C9. [start_async] hands back a job that is [PENDING] (also in the job
    table) with its task only registered; the task sets the job [RUNNING],
    then [COMPLETED] with the value [execute(plan_id=job.plan_id)] returned or
    [FAILED] with the message of the exception it raised; with a webhook
    configured (and [retry_count >= 1]) the first POST carries the finished
    job; when every POST fails, [retry_count] POSTs are made; and the job the
    task leaves in the table is the same whatever the POSTs do. *)
Theorem async_job_lifecycle (execute : string -> outcome R) (post : Z -> bool)
    (t_start t_done now : Q) (plan uuid : string) (hook : option WebhookConfig)
    (m : AsyncExecutionManager R) :
  let job := (start_async plan hook uuid now m).1 in
  let m1 := (start_async plan hook uuid now m).2 in
  let run := _execute_job execute post t_start t_done job in
  let m2 := (run_task execute post t_start t_done uuid m1).1 in
  let evs := (run_task execute post t_start t_done uuid m1).2 in
  (status job = PENDING /\ get_job uuid m1 = Some job /\
   uuid ∈ _running_tasks m1) /\
  (status (while_running run) = RUNNING /\ get_job uuid m2 = Some (at_end run)) /\
  (forall r, execute plan = Returned r ->
     status (at_end run) = COMPLETED /\ result (at_end run) = Some r /\
     error (at_end run) = None /\ get_job_result uuid m2 = Some r) /\
  (forall e, execute plan = Raised e ->
     status (at_end run) = FAILED /\ error (at_end run) = Some (exn_str e) /\
     result (at_end run) = None) /\
  (forall cfg, hook = Some cfg -> 1 <= retry_count cfg ->
     exists delivered rest,
       evs = Posted 0 (payload_of (at_end run)) delivered :: rest) /\
  (forall cfg, hook = Some cfg -> (forall a, post a = false) ->
     length (posts_made evs) = Z.to_nat (retry_count cfg)) /\
  (forall post', (run_task execute post' t_start t_done uuid m1).1 = m2).
Proof.
  intros job m1 run m2 evs.
  assert (get_job uuid m1 = Some job) as Hget.
  { subst m1 job. unfold get_job, start_async. cbn. apply lookup_insert_eq. }
  assert (forall p, run_task execute p t_start t_done uuid m1 =
            ({| _jobs := <[uuid := at_end (_execute_job execute p t_start t_done job)]> (_jobs m1);
                _running_tasks := _running_tasks m1 ∖ {[uuid]} |},
             deliveries (_execute_job execute p t_start t_done job))) as Hrun.
  { intros p. unfold run_task. unfold get_job in Hget. by rewrite Hget. }
  split; [|split; [|split; [|split; [|split; [|split]]]]].
  - split; [done|]. split; [done|]. subst m1. cbn. set_solver.
  - split; [done|]. subst m2. rewrite Hrun. unfold get_job. cbn.
    apply lookup_insert_eq.
  - intros r Hr. subst run m2. rewrite Hrun.
    unfold get_job_result, _execute_job. cbn. rewrite lookup_insert_eq.
    cbn. rewrite Hr. done.
  - intros e He. subst run. unfold _execute_job. cbn. rewrite He. done.
  - intros cfg -> Hcount. subst evs run. rewrite Hrun.
    unfold _execute_job. cbn.
    assert (exists n, Z.to_nat (retry_count cfg) = S n) as [n Hn].
    { exists (Z.to_nat (retry_count cfg - 1)). lia. }
    destruct (execute plan); cbn; unfold _send_webhook; cbn; rewrite Hn; cbn;
      destruct (post 0); eauto.
  - intros cfg -> Hfail. subst evs. rewrite Hrun. unfold _execute_job. cbn.
    destruct (execute plan); cbn; unfold _send_webhook; cbn;
      by apply webhook_loop_all_fail.
  - intros post'. subst m2. rewrite !Hrun. done.
Qed.

End Jobs.
Lemma async_job_lifecycle_witness :
  let m1 := (start_async "plan-123" (Some sample_hook) "job-1" 0 empty_manager).2 in
  let done := run_task sample_execute (fun _ => false) 1 2 "job-1" m1 in
  get_job_result "job-1" done.1 = Some "complete" /\
  length (posts_made done.2) = 3%nat /\
  (exists delivered rest, done.2 =
     Posted 0 (payload_of (at_end (_execute_job sample_execute (fun _ => false) 1 2
        (start_async "plan-123" (Some sample_hook) "job-1" 0 empty_manager).1)))
       delivered :: rest) /\
  (let failed := _execute_job sample_execute (fun _ => false) 1 2
       (start_async "missing" None "job-2" 0 empty_manager).1 in
   status (at_end failed) = FAILED /\
   error (at_end failed) = Some "Plan 'missing' does not exist").
Proof.
  intros m1 done.
  pose proof (async_job_lifecycle sample_execute (fun _ => false) 1 2 0
                "plan-123" "job-1" (Some sample_hook) empty_manager)
    as (_ & _ & Hok & _ & Hfirst & Hall & _).
  pose proof (async_job_lifecycle sample_execute (fun _ => false) 1 2 0
                "missing" "job-2" None empty_manager)
    as (_ & _ & _ & Hfail & _).
  split; [|split; [|split]].
  - apply (Hok "complete"). reflexivity.
  - apply (Hall sample_hook); [reflexivity | intros a; reflexivity].
  - apply (Hfirst sample_hook); [reflexivity | simpl; lia].
  - destruct (Hfail _ eq_refl) as (Hst & Herr & _). split; [exact Hst | exact Herr].
Defined.

End AsyncFacts.

(** ** Orchestrator service *)
Module ServiceFacts.
Import Retry Validation Service.

(** *** The flags of the walk *)

Lemma tallied_step (st st' : loop_state) (r : step_result) :
  tallied st ->
  steps_results st' = steps_results st ++ [r] ->
  demoted r ->
  overall_status st' =
    (if has_status "failed" r then "failed" else overall_status st) ->
  needs_attention st' =
    needs_attention st || has_status "attention_required" r ->
  tallied st'.
Proof.
  intros [Ho Ha Hd] Hsteps Hr Ho' Ha'. split.
  - rewrite Ho', Hsteps, existsb_app, Ho. cbn [existsb].
    destruct (existsb _ (steps_results st)), (has_status "failed" r); done.
  - rewrite Ha', Hsteps, existsb_app, Ha. cbn [existsb].
    by rewrite orb_false_r.
  - rewrite Hsteps. apply Forall_app. split; [done|]. by constructor.
Qed.

Lemma tallied_final (st : loop_state) :
  tallied st -> final_status st = status_from_steps (steps_results st).
Proof.
  intros [Ho Ha _]. unfold final_status, status_from_steps.
  rewrite Ho, Ha. by destruct (existsb (has_status "failed") _).
Qed.

Lemma demoted_other (r : step_result) (v : string) :
  status (sr r) = Some v -> v <> "attention_required" -> demoted r.
Proof. intros Hst Hne Hatt. congruence. Qed.

Section Walk.
Variable C : collaborators.

(** What one supporting agent can change of the flags. *)
Lemma run_supporting_step (s : step) (out : dict) (sup : supporting)
    st outs failed st1 outs1 failed1 :
  run_supporting C s out (st, outs, failed) sup = (st1, outs1, failed1) ->
  steps_results st1 = steps_results st /\
  needs_attention st1 = needs_attention st /\
  plan_steps st1 = plan_steps st /\
  ((failed1 = failed /\ overall_status st1 = overall_status st) \/
   (failed1 = true /\ overall_status st1 = "failed")).
Proof.
  unfold run_supporting. intros E.
  destruct (agents C !! sup_agent sup) as [a|].
  - destruct (invoke C a _ _) as [input o n|e input]; injection E as <- <- <-.
    + unfold hoist_if_any.
      destruct (_collect_expected_artifacts _ _); cbn; repeat split; by left.
    + cbn. repeat split. by right.
  - injection E as <- <- <-. cbn. repeat split. by right.
Qed.

Lemma run_supporting_flags (s : step) (out : dict) (sups : list supporting) :
  forall st outs failed st' outs' failed',
    fold_left (run_supporting C s out) sups (st, outs, failed) = (st', outs', failed') ->
    (failed = true -> overall_status st = "failed") ->
    steps_results st' = steps_results st /\
    needs_attention st' = needs_attention st /\
    plan_steps st' = plan_steps st /\
    (failed = true -> failed' = true) /\
    (failed' = true -> overall_status st' = "failed") /\
    (failed' = false -> overall_status st' = overall_status st).
Proof.
  induction sups as [|sup sups IH]; intros st outs failed st' outs' failed' Hfold Hinv.
  - simpl in Hfold. injection Hfold as <- <- <-. by repeat split.
  - cbn [fold_left] in Hfold.
    destruct (run_supporting C s out (st, outs, failed) sup) as [[st1 outs1] failed1] eqn:E.
    apply run_supporting_step in E as (Hs1 & Hn1 & Hp1 & Hflag).
    apply IH in Hfold as (Hs & Hn & Hp & Hm & Ht & Hf).
    + rewrite Hs, Hn, Hp. repeat split; try done.
      * intros ->. apply Hm. by destruct Hflag as [[-> _]|[-> _]].
      * intros Hff. rewrite (Hf Hff).
        destruct Hflag as [[_ Ho]|[-> _]]; [done|].
        specialize (Hm eq_refl). congruence.
    + destruct Hflag as [[-> Ho]|[_ Ho]]; [|done]. rewrite Ho. done.
Qed.

Lemma annotate_results node s st :
  steps_results (annotate node s st) = steps_results st.
Proof. unfold annotate. by destruct (find_step _ _). Qed.

Lemma annotate_overall node s st :
  overall_status (annotate node s st) = overall_status st.
Proof. unfold annotate. by destruct (find_step _ _). Qed.

Lemma annotate_attention node s st :
  needs_attention (annotate node s st) = needs_attention st.
Proof. unfold annotate. by destruct (find_step _ _). Qed.

Lemma hoist_if_any_flags produced st :
  steps_results (hoist_if_any produced st) = steps_results st /\
  overall_status (hoist_if_any produced st) = overall_status st /\
  needs_attention (hoist_if_any produced st) = needs_attention st /\
  plan_steps (hoist_if_any produced st) = plan_steps st.
Proof. unfold hoist_if_any. by destruct produced. Qed.

Lemma hoist_results produced st :
  steps_results (hoist_if_any produced st) = steps_results st.
Proof. apply hoist_if_any_flags. Qed.

Lemma hoist_overall produced st :
  overall_status (hoist_if_any produced st) = overall_status st.
Proof. apply hoist_if_any_flags. Qed.

Lemma hoist_attention produced st :
  needs_attention (hoist_if_any produced st) = needs_attention st.
Proof. apply hoist_if_any_flags. Qed.

Ltac flags :=
  cbn [steps_results overall_status needs_attention push_result set_failed
       set_needs_attention record_event log_call keep_output];
  rewrite ?annotate_results, ?annotate_overall, ?annotate_attention;
  cbn [steps_results overall_status needs_attention push_result set_failed
       set_needs_attention record_event log_call keep_output];
  rewrite ?hoist_results, ?hoist_overall, ?hoist_attention;
  cbn [steps_results overall_status needs_attention push_result set_failed
       set_needs_attention record_event log_call keep_output].

Lemma has_status_with_sr (v w : string) (f : recorded -> recorded) r :
  status (f (sr r)) = Some w ->
  has_status v (with_sr f r) = bool_decide (w = v).
Proof.
  intros Hw. unfold has_status. cbn. rewrite Hw.
  apply bool_decide_ext. split; congruence.
Qed.

(** One turn of the loop of [execute] appends one step result and keeps
    the flags in step with the results. *)
Lemma execute_node_tallied (st : loop_state) (node : step) :
  tallied st ->
  tallied (execute_node C st node) /\
  exists r, steps_results (execute_node C st node) = steps_results st ++ [r] /\
            sr_id r = id (step_of (plan_steps st) node).
Proof.
  intros Hst. unfold execute_node.
  set (s := step_of (plan_steps st) node).
  destruct (agents C !! agent s) as [a|].
  2: { split; [|eexists; split; [flags; reflexivity | done]].
       eapply tallied_step; [exact Hst | flags; reflexivity | | flags | flags].
       - eapply demoted_other; [reflexivity | done].
       - done.
       - by rewrite orb_false_r. }
  destruct (invoke C a _ _) as [input out n|e input].
  2: { split; [|eexists; split; [flags; reflexivity | done]].
       eapply tallied_step; [exact Hst | flags; reflexivity | | flags | flags].
       - eapply demoted_other; [reflexivity | done].
       - done.
       - by rewrite orb_false_r. }
  match goal with
  | |- context [fold_left (run_supporting C ?s' out) ?sups ?acc] =>
      destruct (fold_left (run_supporting C s' out) sups acc)
        as [[st1 outs] failed] eqn:Hfold
  end.
  apply run_supporting_flags in Hfold as (Hs & Hn & Hp & _ & Ht & Hf); [|done].
  cbn [steps_results needs_attention overall_status record_event] in Hs, Hn, Hf.
  destruct (hoist_if_any_flags (_collect_expected_artifacts out (expected_artifacts s))
              (keep_output true (agent s) out
                 (log_call (call_of
                    (with_written (fun r => set_output out (set_status "complete"
                       (with_artifacts (_collect_expected_artifacts out (expected_artifacts s)) r))) s)
                    false (agent s) (Some input))
                    (record_event (phase_start (id s) (agent s) (phase s)) st))))
    as (Hh1 & Hh2 & Hh3 & _).
  rewrite Hh1 in Hs. rewrite Hh3 in Hn. rewrite Hh2 in Hf.
  cbn in Hs, Hn, Hf. clear Hh1 Hh2 Hh3 Hp.
  assert (forall r : step_result, r = r -> True) as _ by done.
  unfold with_artifacts, note_attempts.
  destruct failed.
  - specialize (Ht eq_refl).
    split; [|eexists; split; [flags; by rewrite Hs | by destruct outs]].
    eapply tallied_step; [exact Hst | flags; by rewrite Hs | | flags | flags].
    + eapply demoted_other; [reflexivity | done].
    + by rewrite Ht.
    + rewrite Hn. by rewrite orb_false_r.
  - specialize (Hf eq_refl).
    destruct (evaluate_exit_conditions C _ _) as [|m ms].
    + split; [|eexists; split; [flags; by rewrite Hs | by destruct outs]].
      eapply tallied_step; [exact Hst | flags; by rewrite Hs | | flags | flags].
      * eapply demoted_other with (v := "complete"); [|done].
        destruct outs, (_collect_expected_artifacts _ _), (1 <? n); reflexivity.
      * rewrite Hf. unfold has_status.
        destruct outs, (_collect_expected_artifacts _ _), (1 <? n); reflexivity.
      * rewrite Hn. unfold has_status.
        destruct outs, (_collect_expected_artifacts _ _), (1 <? n);
          by rewrite orb_false_r.
    + split; [|eexists; split; [flags; by rewrite Hs | by destruct outs]].
      eapply tallied_step; [exact Hst | flags; by rewrite Hs | | flags | flags].
      * intros _. split; [|by exists m, ms].
        destruct outs, (_collect_expected_artifacts _ _), (1 <? n); by eexists.
      * by rewrite Hf.
      * by rewrite orb_true_r.
Qed.

Lemma completed_demoted (produced out : dict) (n : Z) (r : step_result) :
  demoted
    (with_sr (fun x => with_artifacts produced
                (set_output out (set_status "complete" (note_attempts n x)))) r).
Proof.
  eapply demoted_other with (v := "complete"); [|done].
  unfold with_artifacts, note_attempts. by destruct produced, (1 <? n).
Qed.

Lemma completed_status (v : string) (produced out : dict) (n : Z) (r : step_result) :
  has_status v
    (with_sr (fun x => with_artifacts produced
                (set_output out (set_status "complete" (note_attempts n x)))) r)
  = bool_decide ("complete" = v).
Proof.
  apply has_status_with_sr.
  unfold with_artifacts, note_attempts. by destruct produced, (1 <? n).
Qed.


Lemma run_plain_tallied (st : loop_state) (s : step) :
  tallied st ->
  tallied (run_plain C st s).1 /\
  exists r, steps_results (run_plain C st s).1 = steps_results st ++ [r] /\
            sr_id r = id s.
Proof.
  intros Hst. unfold run_plain.
  destruct (agents C !! agent s) as [a|].
  2: { cbn [fst]. split; [|eexists; split; [flags; reflexivity | done]].
       eapply tallied_step; [exact Hst | flags; reflexivity | | flags | flags].
       - eapply demoted_other; [reflexivity | done].
       - done.
       - by rewrite orb_false_r. }
  destruct (invoke C a _ _) as [input out n|e input].
  2: { cbn [fst]. split; [|eexists; split; [flags; reflexivity | done]].
       eapply tallied_step; [exact Hst | flags; reflexivity | | flags | flags].
       - eapply demoted_other; [reflexivity | done].
       - done.
       - by rewrite orb_false_r. }
  set (produced := _collect_expected_artifacts out (expected_artifacts s)).
  destruct (evaluate_exit_conditions C _ _) as [|m ms]; cbn [fst].
  - split; [|eexists; split; [flags; reflexivity | done]].
    eapply tallied_step; [exact Hst | | apply completed_demoted | |].
    + flags. reflexivity.
    + rewrite completed_status. flags. reflexivity.
    + rewrite completed_status. flags. by rewrite orb_false_r.
  - split; [|eexists; split; [flags; reflexivity | done]].
    eapply tallied_step; [exact Hst | | | |].
    + flags. reflexivity.
    + intros _. split; [|by exists m, ms]. cbn.
      unfold with_artifacts, note_attempts. destruct produced, (1 <? n); by eexists.
    + flags. reflexivity.
    + flags. by rewrite orb_true_r.
Qed.

Lemma stream_node_tallied (total : Z) st events current (node : step) :
  tallied st ->
  tallied (stream_node C total (st, events, current) node).1.1.
Proof.
  intros Hst. unfold stream_node.
  destruct (run_plain_tallied st (step_of (plan_steps st) node) Hst) as [Ht _].
  by destruct (run_plain C st _).
Qed.

Lemma re_execute_node_tallied (start : option string) st past (node : step) :
  tallied st -> tallied (re_execute_node C start (st, past) node).1.
Proof.
  intros Hst. unfold re_execute_node.
  destruct (negb _); [done|]. destruct (existsb _ _); [done|].
  by apply run_plain_tallied.
Qed.

Lemma start_state_tallied (p : Plan) (l : list step) : tallied (start_state p l).
Proof. by split. Qed.

Lemma fold_execute_tallied (nodes : list step) :
  forall st, tallied st -> tallied (fold_left (execute_node C) nodes st).
Proof.
  induction nodes as [|node nodes IH]; intros st Hst; [done|].
  cbn [fold_left]. apply IH. by apply execute_node_tallied.
Qed.

Lemma fold_stream_tallied (total : Z) (nodes : list step) :
  forall st events current,
    tallied st ->
    tallied (fold_left (stream_node C total) nodes (st, events, current)).1.1.
Proof.
  induction nodes as [|node nodes IH]; intros st events current Hst; [done|].
  cbn [fold_left].
  pose proof (stream_node_tallied total st events current node Hst) as Hnext.
  destruct (stream_node C total (st, events, current) node) as [[st1 ev1] c1].
  by apply IH.
Qed.

Lemma fold_re_execute_tallied (start : option string) (nodes : list step) :
  forall st past,
    tallied st ->
    tallied (fold_left (re_execute_node C start) nodes (st, past)).1.
Proof.
  induction nodes as [|node nodes IH]; intros st past Hst; [done|].
  cbn [fold_left].
  pose proof (re_execute_node_tallied start st past node Hst) as Hnext.
  destruct (re_execute_node C start (st, past) node) as [st1 past1].
  by apply IH.
Qed.

Lemma restore_tallied (start : string) (previous : list step_result) :
  forall st, tallied st -> tallied (restore start previous st).1.
Proof.
  induction previous as [|r previous IH]; intros st Hst; [done|].
  cbn [restore]. destruct (String.eqb _ _); [done|].
  case_bool_decide as Hc; [|by apply IH].
  apply IH.
  eapply tallied_step with (r := r); [exact Hst | | | |].
  - by destruct (output (sr r)) as [[|]|], (artifacts (sr r)) as [[|]|].
  - by eapply demoted_other.
  - unfold has_status. rewrite Hc.
    by destruct (output (sr r)) as [[|]|], (artifacts (sr r)) as [[|]|].
  - unfold has_status. rewrite Hc.
    destruct (output (sr r)) as [[|]|], (artifacts (sr r)) as [[|]|];
      cbn; by rewrite orb_false_r.
Qed.

Lemma persist_recall (k : string) (p : Plan) (r : execution_record) (s : service) :
  recall_plan k (repository (persist C k p r s)) = Some p /\
  recall_execution k (repository (persist C k p r s)) = Some r.
Proof.
  unfold persist, recall_plan, recall_execution. cbn.
  split; apply lookup_insert_eq.
Qed.

Lemma stream_events_end (total : Z) (nodes : list step) :
  forall st events current,
    (fold_left (stream_node C total) nodes (st, events, current)).1.2 <> [] \/
    events = [].
Proof.
  induction nodes as [|node nodes IH]; intros st events current.
  - cbn. destruct events; [by right | by left].
  - cbn [fold_left]. unfold stream_node at 2.
    destruct (run_plain C st _) as [st1 failure].
    destruct (IH st1
      ((events ++ [agent_started (agent (step_of (plan_steps st) node)) (current + 1)
                     total (phase (step_of (plan_steps st) node))]) ++
       [match failure with
        | Some message => agent_failed (agent (step_of (plan_steps st) node)) message
        | None => agent_completed (agent (step_of (plan_steps st) node)) (current + 1) total
        end]) (current + 1)) as [H|H]; [by left|].
    by destruct events.
Qed.

(** C1. Whatever [execute], [execute_stream] and [re_execute] persist (and
    the first and the last return) as the execution record has the status
    the step results call for: [failed] if a step result is marked failed,
    else [attention_required] if one was demoted (every demoted result has
    its output and a non-empty list of missing signals), else [complete];
    and the plan persisted under the same id carries that status. *)
Theorem execution_status_from_steps (m : option value) (k : option string)
    (uuid k' : string) (from_step : option string) (resume_from_failure : bool)
    (s : service) :
  (forall r s' log,
     execute C m k uuid s = (Returned r, s', log) ->
     er_status r = status_from_steps (er_steps r) /\
     Forall demoted (er_steps r) /\
     recall_execution (er_plan_id r) (repository s') = Some r /\
     exists p, recall_plan (er_plan_id r) (repository s') = Some p /\
               plan_status p = er_status r) /\
  (forall events s' log,
     execute_stream C m k uuid s = (events, None, s', log) ->
     exists r p,
       recall_execution (er_plan_id r) (repository s') = Some r /\
       recall_plan (er_plan_id r) (repository s') = Some p /\
       er_status r = status_from_steps (er_steps r) /\
       Forall demoted (er_steps r) /\
       plan_status p = er_status r /\
       last events = Some (execution_complete (er_status r) (er_plan_id r)
                             (Z.of_nat (length (er_artifacts r))))) /\
  (forall r s' log,
     re_execute C k' from_step resume_from_failure s = (Returned r, s', log) ->
     er_status r = status_from_steps (er_steps r) /\
     Forall demoted (er_steps r) /\
     re_execution r = true /\
     recall_execution (er_plan_id r) (repository s') = Some r /\
     exists p, recall_plan (er_plan_id r) (repository s') = Some p /\
               plan_status p = er_status r).
Proof.
  split; [|split].
  - intros r s' log. unfold execute.
    destruct (resolve_plan C m k uuid s) as [[[p kk]|e] s1]; [|done].
    intros E. injection E as <- <- <-.
    pose proof (fold_execute_tallied
                  (topological_order C (graph_of C p))
                  (start_state p match steps p with
                                 | [] => to_linear_steps C (graph_of C p)
                                 | l => l
                                 end)
                  (start_state_tallied _ _)) as Ht.
    cbn [er_status er_steps er_plan_id record_of].
    split; [by apply tallied_final|]. split; [apply Ht|].
    destruct (persist_recall kk
      (with_outcome (final_status (fold_left (execute_node C)
         (topological_order C (graph_of C p))
         (start_state p match steps p with
                        | [] => to_linear_steps C (graph_of C p)
                        | l => l
                        end)))
         (plan_steps (fold_left (execute_node C)
            (topological_order C (graph_of C p))
            (start_state p match steps p with
                           | [] => to_linear_steps C (graph_of C p)
                           | l => l
                           end))) p)
      (record_of kk false (fold_left (execute_node C)
         (topological_order C (graph_of C p))
         (start_state p match steps p with
                        | [] => to_linear_steps C (graph_of C p)
                        | l => l
                        end))) s1) as [Hp He].
    split; [exact He|]. eexists. split; [exact Hp | done].
  - intros events s' log. unfold execute_stream.
    destruct (resolve_plan C m k uuid s) as [[[p kk]|e] s1]; [|done].
    set (l := match steps p with [] => to_linear_steps C (graph_of C p) | l => l end).
    set (nodes := topological_order C (graph_of C p)).
    pose proof (fold_stream_tallied (Z.of_nat (length nodes)) nodes
                  (start_state p l) [plan_created kk] 0
                  (start_state_tallied _ _)) as Ht.
    destruct (fold_left _ nodes _) as [[st evs] c].
    intros E. injection E as <- <- <-. cbn [fst] in Ht.
    destruct (persist_recall kk (with_outcome (final_status st) l p)
                (record_of kk false st) s1) as [Hp He].
    exists (record_of kk false st), (with_outcome (final_status st) l p).
    cbn [er_status er_steps er_plan_id er_artifacts record_of].
    repeat split; try done.
    + by apply tallied_final.
    + apply Ht.
    + by rewrite last_snoc.
  - intros r s' log. unfold re_execute.
    destruct (recall_plan k' _) as [p|]; [|done].
    set (prev := recall_execution k' _).
    set (start := start_point from_step resume_from_failure prev).
    assert (tallied (match prev, start with
                     | Some pr, Some (String _ _ as st) =>
                         restore st (er_steps pr) (start_state p (steps p))
                     | _, _ => (start_state p (steps p), false)
                     end).1) as Ht1.
    { destruct prev as [pr|]; [|apply start_state_tallied].
      destruct start as [[|c0 rest]|]; try apply start_state_tallied.
      apply restore_tallied, start_state_tallied. }
    destruct (match prev, start with
              | Some pr, Some (String _ _ as st) => _
              | _, _ => _
              end) as [st1 met].
    cbn [fst] in Ht1.
    pose proof (fold_re_execute_tallied start
                  (topological_order C (graph_of C p)) st1
                  (bool_decide (start = None) || met) Ht1) as Ht.
    destruct (fold_left _ _ _) as [st past].
    intros E. injection E as <- <- <-. cbn [fst] in Ht.
    cbn [er_status er_steps er_plan_id re_execution record_of].
    split; [by apply tallied_final|]. split; [apply Ht|]. split; [done|].
    destruct (persist_recall k' (with_outcome (final_status st) (steps p) p)
                (record_of k' true st) (_load_state C s)) as [Hp He].
    split; [exact He|]. eexists. split; [exact Hp | done].
Qed.

(** *** Failed steps *)





(** *** Rejected requests *)

Lemma validate_matter_raises (m : option value) (b : bool) (e : exn) :
  validate_matter (model_validate C) m b = Raised e ->
  exn_class e = "ValidationError".
Proof.
  unfold validate_matter. intros H.
  destruct m as [[| | | | |d]|]; try (by injection H as <-).
  destruct (negb (dict_has d "summary")); [by injection H as <-|].
  destruct (negb (dict_has d "parties")); [by injection H as <-|].
  destruct (b && negb (dict_has d "documents")); [by injection H as <-|].
  destruct (model_validate C d) as [?|[|? ?]]; [done| |]; by injection H as <-.
Qed.

Lemma load_keeps_repository (s : service) :
  repository (_load_state C s) = repository s.
Proof.
  unfold _load_state.
  destruct (_state_cache s), (_cache_timestamp s); try done.
  by destruct (Qlt_le_dec _ _).
Qed.

(** C8, as the code has it. [execute] and [execute_stream] end with a
    [ValidationError] when both arguments are [None], when the supplied
    matter fails validation, and also when the plan id is empty once its
    surrounding whitespace is stripped; with a plan id that is not blank (and
    a matter that is absent or valid) they end with [PlanNotFoundError] for
    the stripped id when the state the service loads has no plan under it.
    In every case no agent has been invoked and the repository is as it
    was. *)
Theorem execute_rejects_before_running (m : option value) (k : option string)
    (uuid : string) (s : service) :
  let rejected e s' :=
    execute C m k uuid s = (Raised e, s', []) /\
    execute_stream C m k uuid s = ([], Some e, s', []) /\
    repository s' = repository s in
  (m = None -> k = None ->
     exists e, exn_class e = "ValidationError" /\ rejected e s) /\
  (forall v e, m = Some v ->
     validate_matter (model_validate C) m true = Raised e ->
     exists e', exn_class e' = "ValidationError" /\ rejected e' s) /\
  (forall given, k = Some given -> strip given = "" ->
     rejected (ValidationError "Plan ID cannot be empty") s) /\
  (forall given, k = Some given -> strip given <> "" ->
     (m = None \/ exists vm, validate_matter (model_validate C) m true = Returned vm) ->
     recall_plan (strip given) (state (_load_state C s)) = None ->
     rejected (PlanNotFoundError (strip given)) (_load_state C s)).
Proof.
  intros rejected. subst rejected. cbv beta.
  unfold execute, execute_stream, resolve_plan, validate_execute_params, validate_plan_id.
  split; [|split; [|split]].
  - intros -> ->. eexists. split; [|by repeat split]. done.
  - intros v e -> He. destruct k as [given|].
    + destruct (String.eqb (strip given) "").
      * eexists. split; [|by repeat split]. done.
      * rewrite He. eexists. split; [|by repeat split].
        by eapply validate_matter_raises.
    + rewrite He. eexists. split; [|by repeat split].
      by eapply validate_matter_raises.
  - intros given -> Hblank. rewrite Hblank. cbn.
    destruct m; by repeat split.
  - intros given -> Hgiven Hm Hnone.
    destruct (String.eqb_spec (strip given) ""); [done|].
    destruct Hm as [->|[vm Hvm]].
    + rewrite Hnone. repeat split. apply load_keeps_repository.
    + destruct m as [v|]; [|done]. rewrite Hvm, Hnone.
      repeat split. apply load_keeps_repository.
Qed.

(** *** Resuming *)





Lemma find_step_id (l : list step) (k : string) (i : nat) :
  find_step l k = Some i -> exists s, l !! i = Some s /\ id s = k.
Proof.
  revert i. induction l as [|s l IH]; intros i; [done|].
  cbn [find_step]. destruct (find_step l k) as [j|].
  - intros [= <-]. by apply IH.
  - destruct (String.eqb_spec (id s) k); [|done].
    intros [= <-]. by exists s.
Qed.

Lemma step_of_id (l : list step) (n : step) : id (step_of l n) = id n.
Proof.
  unfold step_of. destruct (find_step l (id n)) as [i|] eqn:E; [|done].
  apply find_step_id in E as (s & -> & Hs). done.
Qed.


Lemma seen_spec (results : list step_result) (k : string) :
  existsb (fun r => String.eqb (sr_id r) k) results = true <-> k ∈ map sr_id results.
Proof.
  rewrite existsb_exists, list_elem_of_fmap. split.
  - intros (r & Hin & Heq). apply String.eqb_eq in Heq.
    exists r. split; [done|]. by apply list_elem_of_In.
  - intros (r & -> & Hin). exists r. split; [by apply list_elem_of_In|].
    apply String.eqb_refl.
Qed.



(** *** Hoisted artifacts *)

Lemma collect_fold (payload : dict) (name : string) (l : list value) :
  forall acc,
    unique_keys acc ->
    let collected := fold_left
      (fun collected artifact =>
         match artifact_name artifact with
         | None => collected
         | Some name =>
             match find_artifact payload name with
             | VNone => collected
             | v => dict_set collected name v
             end
         end) l acc in
    unique_keys collected /\
    dict_get collected name =
      if decide (name ∈ advertised l /\ is_none (find_artifact payload name) = false)
      then Some (find_artifact payload name) else dict_get acc name.
Proof.
  induction l as [|a l IH]; intros acc Hacc.
  - cbn. split; [done|]. rewrite decide_False; [done|].
    intros [?%elem_of_nil _]. done.
  - cbn [fold_left]. unfold advertised. cbn [omap list_omap].
    destruct (artifact_name a) as [n|] eqn:Ea.
    + fold (advertised l).
      set (acc' := match find_artifact payload n with
                   | VNone => acc
                   | v => dict_set acc n v
                   end).
      assert (unique_keys acc') as Hacc'.
      { subst acc'. destruct (find_artifact payload n); try done;
          by apply DictFacts.dict_set_unique. }
      destruct (IH acc' Hacc') as [Hu Hg]. split; [exact Hu|].
      cbv zeta in Hg. rewrite Hg.
      assert (dict_get acc' name =
              if decide (n = name /\ is_none (find_artifact payload name) = false)
              then Some (find_artifact payload name) else dict_get acc name) as Hacc_get.
      { subst acc'. destruct (decide (n = name)) as [->|Hne].
        - destruct (find_artifact payload name) eqn:Ef; cbn [is_none];
            rewrite ?DictFacts.dict_get_set, ?String.eqb_refl;
            first [ by rewrite decide_False by (by intros [_ ?])
                  | by rewrite decide_True by done ].
        - rewrite decide_False by (by intros [? _]).
          destruct (find_artifact payload n); try done;
            rewrite DictFacts.dict_get_set;
            by destruct (String.eqb_spec n name). }
      rewrite Hacc_get.
      destruct (decide (name ∈ advertised l /\ _)) as [[Hin Hv]|Hno].
      * rewrite decide_True; [done|]. split; [|done]. by apply list_elem_of_further.
      * destruct (decide (n = name /\ _)) as [[-> Hv]|Hno'].
        -- rewrite decide_True; [done|]. split; [|done]. apply list_elem_of_here.
        -- rewrite decide_False; [done|]. intros [Hin Hv].
           apply elem_of_cons in Hin as [->|Hin]; [by apply Hno' | by apply Hno].
    + fold (advertised l). apply IH. done.
Qed.

(** What [_collect_expected_artifacts] holds for a name. *)
Lemma collect_get (payload : dict) (l : list value) (name : string) :
  unique_keys (_collect_expected_artifacts payload l) /\
  dict_get (_collect_expected_artifacts payload l) name =
    if decide (name ∈ advertised l /\ is_none (find_artifact payload name) = false)
    then Some (find_artifact payload name) else None.
Proof. apply (collect_fold payload name l []). apply NoDup_nil_2. Qed.





















End Walk.





(** C8 as worded fails on a blank plan id: it names no persisted plan, yet
    the error is the [ValidationError] of [validate_plan_id], not a
    [PlanNotFoundError]. *)
Lemma blank_plan_id_is_a_validation_error :
  recall_plan "  " (repository sample_service) = None /\
  execute scenario_b None (Some "  ") "plan-1" sample_service
    = (Raised (ValidationError "Plan ID cannot be empty"), sample_service, []) /\
  ~ (exists given s' log,
       execute scenario_b None (Some "  ") "plan-1" sample_service
         = (Raised (PlanNotFoundError given), s', log)).
Proof.
  split; [reflexivity|]. split; [reflexivity|].
  intros (given & s' & log & H). vm_compute in H. discriminate.
Qed.

Lemma execute_rejects_before_running_witness :
  (exists e, exn_class e = "ValidationError" /\
     execute scenario_b None None "plan-1" sample_service
       = (Raised e, sample_service, [])) /\
  (exists e, exn_class e = "ValidationError" /\
     execute scenario_b (Some (VStr "not a dictionary")) None "plan-1" sample_service
       = (Raised e, sample_service, [])) /\
  execute_stream scenario_b None (Some "  ") "plan-1" sample_service
    = ([], Some (ValidationError "Plan ID cannot be empty"), sample_service, []) /\
  (execute scenario_b None (Some " missing ") "plan-1" sample_service).1.1
    = Raised (PlanNotFoundError "missing").
Proof.
  split; [|split; [|split]].
  - destruct (execute_rejects_before_running scenario_b None None "plan-1"
                sample_service) as (H & _).
    destruct (H eq_refl eq_refl) as (e & Hc & He & _). by exists e.
  - destruct (execute_rejects_before_running scenario_b
                (Some (VStr "not a dictionary")) None "plan-1" sample_service)
      as (_ & H & _).
    destruct (H (VStr "not a dictionary")
                (ValidationError "Matter must be a dictionary, got str")
                eq_refl eq_refl) as (e & Hc & He & _).
    by exists e.
  - destruct (execute_rejects_before_running scenario_b None (Some "  ") "plan-1"
                sample_service) as (_ & _ & H & _).
    by destruct (H "  " eq_refl eq_refl) as (_ & Hs & _).
  - destruct (execute_rejects_before_running scenario_b None (Some " missing ")
                "plan-1" sample_service) as (_ & _ & _ & H).
    destruct (H " missing " eq_refl) as (He & _).
    + discriminate.
    + by left.
    + reflexivity.
    + by rewrite He.
Defined.


Lemma execution_status_from_steps_witness :
  (let '(out, s', _) := execute scenario_b (Some sample_matter) None "plan-1" sample_service in
   match out with
   | Returned r =>
       er_status r = status_from_steps (er_steps r) /\ er_status r = "failed" /\
       recall_execution "plan-1" (repository s') = Some r /\
       plan_status <$> recall_plan "plan-1" (repository s') = Some "failed"
   | Raised _ => False
   end) /\
  (let '(events, _, s', _) :=
     execute_stream scenario_b (Some sample_matter) None "plan-1" sample_service in
   er_status <$> recall_execution "plan-1" (repository s') = Some "failed" /\
   last events = Some (execution_complete "failed" "plan-1" 1)).
Proof.
  pose proof (execution_status_from_steps scenario_b (Some sample_matter) None
                "plan-1" "plan-1" None true sample_service) as (Hexec & Hstream & _).
  split.
  - destruct (execute scenario_b (Some sample_matter) None "plan-1" sample_service)
      as [[[r|e] s'] log] eqn:E.
    + destruct (Hexec r s' log eq_refl) as (Hst & _ & Hrec & p & Hp & Hps).
      vm_compute in E. injection E as <- <- <-.
      split; [exact Hst|]. split; [reflexivity|]. split; [exact Hrec|].
      cbn [er_plan_id] in Hp. rewrite Hp. cbn. by rewrite Hps.
    + vm_compute in E. discriminate.
  - destruct (execute_stream scenario_b (Some sample_matter) None "plan-1" sample_service)
      as [[[events [e|]] s'] log] eqn:E.
    + vm_compute in E. discriminate.
    + destruct (Hstream events s' log eq_refl) as (r & p & Hrec & _ & _ & _ & _ & Hlast).
      vm_compute in E. injection E as <- <- <-.
      split; reflexivity.
Defined.

End ServiceFacts.


(** ** Sharing between returned documents and the remembered state *)

Module SharingFacts.
Import Validation Sharing.

Lemma deepcopy_Obj a k items n :
  deepcopy (Obj a k items) n =
  (Obj n k (deepcopy_items items (S n)).1, (deepcopy_items items (S n)).2).
Proof.
  cbn [deepcopy].
  set (each := fix each (l : list (string * doc)) (next : nat) {struct l}
         : list (string * doc) * nat := _).
  assert (H : forall l m, each l m = deepcopy_items l m).
  { induction l as [|kv rest IH]; intros m; cbn; [reflexivity|].
    rewrite IH. reflexivity. }
  rewrite H. reflexivity.
Qed.

Lemma deepcopy_content d : forall n, content (deepcopy d n).1 = content d.
Proof.
  induction d as [a|a k items IH] using doc_induction; intros n.
  - reflexivity.
  - rewrite deepcopy_Obj. cbn [fst].
    assert (H : forall m,
      map (fun kv => (kv.1, content kv.2)) (deepcopy_items items m).1 =
      map (fun kv => (kv.1, content kv.2)) items).
    { induction IH as [|kv rest Hkv _ IHrest]; intros m; cbn; [reflexivity|].
      rewrite Hkv, IHrest. reflexivity. }
    destruct k; cbn [content].
    + rewrite H. reflexivity.
    + f_equal. specialize (H (S n)).
      apply (f_equal (map snd)) in H.
      rewrite !map_map in H. exact H.
Qed.

(** The copy is made of the objects from [n] up to the new free address. *)
Lemma deepcopy_fresh d : forall n,
  (n <= (deepcopy d n).2)%nat /\
  Forall (fun a => n <= a < (deepcopy d n).2)%nat (addresses (deepcopy d n).1).
Proof.
  induction d as [a|a k items IH] using doc_induction; intros n.
  - cbn. split; [lia | constructor].
  - rewrite deepcopy_Obj. cbn [fst snd addresses].
    assert (H : forall m,
      (m <= (deepcopy_items items m).2)%nat /\
      Forall (fun a => m <= a < (deepcopy_items items m).2)%nat
        (flat_map (fun kv => addresses kv.2) (deepcopy_items items m).1)).
    { induction IH as [|kv rest Hkv _ IHrest]; intros m; cbn.
      - split; [lia | constructor].
      - destruct (Hkv m) as [H1 H2].
        destruct (IHrest (deepcopy kv.2 m).2) as [H3 H4].
        split; [lia|].
        apply Forall_app. split.
        + eapply Forall_impl; [exact H2|]. cbn. intros; lia.
        + eapply Forall_impl; [exact H4|]. cbn. intros; lia. }
    destruct (H (S n)) as [H1 H2].
    split; [lia|].
    constructor; [lia|].
    eapply Forall_impl; [exact H2|]. cbn. intros; lia.
Qed.

Lemma deepcopy_grows d n : (n <= (deepcopy d n).2)%nat.
Proof. apply deepcopy_fresh. Qed.

Lemma deepcopy_below d n : below (deepcopy d n).2 (deepcopy d n).1.
Proof.
  unfold below. eapply Forall_impl; [apply deepcopy_fresh|].
  cbn. intros; lia.
Qed.

Lemma deepcopy_above d n a :
  a ∈ addresses (deepcopy d n).1 -> (n <= a)%nat.
Proof.
  intros Ha. pose proof (proj2 (deepcopy_fresh d n)) as H.
  rewrite Forall_forall in H. apply H in Ha. lia.
Qed.

Lemma below_mono n m d : (n <= m)%nat -> below n d -> below m d.
Proof.
  intros Hnm H. eapply Forall_impl; [exact H|]. cbn. intros; lia.
Qed.

Lemma below_not_in n d a : below n d -> (n <= a)%nat -> a ∉ addresses d.
Proof.
  intros H Hna Ha. unfold below in H. rewrite Forall_forall in H.
  apply H in Ha. lia.
Qed.

(** An assignment into an object a document does not hold leaves the
    document as it is. *)
Lemma mutate_absent target f d :
  target ∉ addresses d -> mutate target f d = d.
Proof.
  induction d as [a|a k items IH] using doc_induction; intros Hout.
  - reflexivity.
  - cbn [mutate addresses] in *.
    apply not_elem_of_cons in Hout as [Hne Hout].
    destruct (Nat.eqb_spec a target) as [->|_]; [congruence|].
    f_equal.
    induction IH as [|kv rest Hkv _ IHrest]; cbn in *; [reflexivity|].
    rewrite elem_of_app in Hout.
    rewrite Hkv by tauto. rewrite IHrest by tauto.
    destruct kv; reflexivity.
Qed.

Lemma mutate_all_absent ms d :
  Forall (fun m : assignment => m.1 ∉ addresses d) ms -> mutate_all ms d = d.
Proof.
  unfold mutate_all. induction 1 as [|m ms Hm _ IH]; cbn; [reflexivity|].
  rewrite mutate_absent by exact Hm. exact IH.
Qed.

Lemma assign_all_next ms : forall st,
  next_address (assign_all ms st) = next_address st.
Proof.
  unfold assign_all. induction ms as [|m ms IH]; intros st; cbn; [reflexivity|].
  rewrite IH. reflexivity.
Qed.

Lemma assign_all_plans ms : forall st k,
  plans (assign_all ms st) !! k = mutate_all ms <$> plans st !! k.
Proof.
  unfold assign_all, mutate_all.
  induction ms as [|m ms IH]; intros st k; cbn.
  - destruct (plans st !! k); reflexivity.
  - rewrite IH. cbn. rewrite lookup_fmap.
    destruct (plans st !! k); reflexivity.
Qed.

Lemma assign_all_executions ms : forall st k,
  executions (assign_all ms st) !! k = mutate_all ms <$> executions st !! k.
Proof.
  unfold assign_all, mutate_all.
  induction ms as [|m ms IH]; intros st k; cbn.
  - destruct (executions st !! k); reflexivity.
  - rewrite IH. cbn. rewrite lookup_fmap.
    destruct (executions st !! k); reflexivity.
Qed.

(** Assignments into objects from [n] on do not reach a document below [n]. *)
Lemma into_misses d e ms :
  apart d e -> into d ms ->
  Forall (fun m : assignment => m.1 ∉ addresses e) ms.
Proof.
  intros Hapart Hinto. eapply Forall_impl; [exact Hinto|].
  cbn. intros m Hm He. exact (Hapart _ Hm He).
Qed.

Lemma fresh_apart d n e :
  below n e -> apart (deepcopy d n).1 e.
Proof.
  intros He a Ha Hae. apply deepcopy_above in Ha.
  exact (below_not_in _ _ _ He Ha Hae).
Qed.

Lemma apart_sym d e : apart d e -> apart e d.
Proof. intros H a Ha Hb. exact (H a Hb Ha). Qed.

(** The reads look at the entry of the plan id and at the free address
    only. *)
Lemma get_plan_ext k st1 st2 :
  plans st1 !! k = plans st2 !! k -> next_address st1 = next_address st2 ->
  (get_plan k st1).1 = (get_plan k st2).1.
Proof.
  intros Hp Hn. unfold get_plan, recall_plan. rewrite Hp, Hn.
  destruct (plans st2 !! k) as [[[]|]|]; reflexivity.
Qed.

Lemma get_execution_ext k st1 st2 :
  executions st1 !! k = executions st2 !! k ->
  next_address st1 = next_address st2 ->
  (get_execution k st1).1 = (get_execution k st2).1.
Proof.
  intros Hp Hn. unfold get_execution, recall_execution. rewrite Hp, Hn.
  destruct (executions st2 !! k) as [[[]|]|]; reflexivity.
Qed.

Lemma get_artifacts_ext k st1 st2 :
  executions st1 !! k = executions st2 !! k ->
  next_address st1 = next_address st2 ->
  (get_artifacts k st1).1 = (get_artifacts k st2).1.
Proof.
  intros Hp Hn. unfold get_artifacts, recall_execution. rewrite Hp, Hn.
  destruct (executions st2 !! k) as [[[]|? [] ?]|]; reflexivity.
Qed.

Lemma reads_ext k st1 st2 :
  plans st1 !! k = plans st2 !! k ->
  executions st1 !! k = executions st2 !! k ->
  next_address st1 = next_address st2 ->
  reads k st1 = reads k st2.
Proof.
  intros Hp He Hn. unfold reads, said.
  rewrite (get_plan_ext _ _ _ Hp Hn), (get_artifacts_ext _ _ _ He Hn),
    (get_execution_ext _ _ _ He Hn).
  reflexivity.
Qed.

(** Assignments that miss every remembered document leave the state as
    it is. *)
Lemma assign_all_misses ms st :
  (forall k d, plans st !! k = Some d ->
     Forall (fun m : assignment => m.1 ∉ addresses d) ms) ->
  (forall k d, executions st !! k = Some d ->
     Forall (fun m : assignment => m.1 ∉ addresses d) ms) ->
  assign_all ms st = st.
Proof.
  intros Hp He.
  assert (H1 : plans (assign_all ms st) = plans st).
  { apply map_eq. intros k. rewrite assign_all_plans.
    destruct (plans st !! k) as [d|] eqn:Hk; [|reflexivity].
    cbn. rewrite mutate_all_absent by eauto. reflexivity. }
  assert (H2 : executions (assign_all ms st) = executions st).
  { apply map_eq. intros k. rewrite assign_all_executions.
    destruct (executions st !! k) as [d|] eqn:Hk; [|reflexivity].
    cbn. rewrite mutate_all_absent by eauto. reflexivity. }
  pose proof (assign_all_next ms st) as H3.
  destruct (assign_all ms st), st; cbn in *. congruence.
Qed.

Lemma allocated_well n st :
  (next_address st <= n)%nat -> well_allocated st ->
  well_allocated (allocated n st).
Proof.
  intros Hn [Hp He]. split; intros k d Hk; cbn in *;
    eapply below_mono; eauto.
Qed.

Lemma remember_plan_well k d st :
  below (next_address st) d -> well_allocated st ->
  well_allocated (remember_plan k d st).
Proof.
  intros Hd [Hp He]. split; intros k' d' Hk; cbn in *; [|eauto].
  destruct (decide (k = k')) as [->|Hne].
  - rewrite lookup_insert_eq in Hk. congruence.
  - rewrite lookup_insert_ne in Hk by exact Hne. eauto.
Qed.

Lemma remember_execution_well k d st :
  below (next_address st) d -> well_allocated st ->
  well_allocated (remember_execution k d st).
Proof.
  intros Hd [Hp He]. split; intros k' d' Hk; cbn in *; [eauto|].
  destruct (decide (k = k')) as [->|Hne].
  - rewrite lookup_insert_eq in Hk. congruence.
  - rewrite lookup_insert_ne in Hk by exact Hne. eauto.
Qed.

(** A fresh copy is apart from everything remembered so far, so
    assignments into it leave the state as it is. *)
Lemma copy_is_private d n ms st :
  well_allocated (allocated n st) ->
  into (deepcopy d n).1 ms -> assign_all ms st = st.
Proof.
  intros [Hp He] Hinto. cbn in Hp, He.
  apply assign_all_misses; intros k e Hk;
    (eapply into_misses; [|exact Hinto]); apply fresh_apart; eauto.
Qed.

Lemma get_plan_returned k st d st' :
  get_plan k st = (Returned d, st') ->
  d = (deepcopy (recall_plan k st) (next_address st)).1 /\
  st' = allocated (deepcopy (recall_plan k st) (next_address st)).2 st /\
  recall_plan k st <> Atom ANone.
Proof.
  unfold get_plan. destruct (recall_plan k st) as [[]|]; intros H;
    inversion H; subst; repeat split; discriminate.
Qed.

Lemma get_execution_returned k st d st' :
  get_execution k st = (Returned d, st') ->
  d = (deepcopy (recall_execution k st) (next_address st)).1 /\
  st' = allocated (deepcopy (recall_execution k st) (next_address st)).2 st /\
  recall_execution k st <> Atom ANone.
Proof.
  unfold get_execution. destruct (recall_execution k st) as [[]|]; intros H;
    inversion H; subst; repeat split; discriminate.
Qed.

Lemma get_artifacts_returned k st d st' :
  get_artifacts k st = (Returned d, st') ->
  exists found,
    d = (deepcopy found (S (next_address st))).1 /\
    st' = allocated (deepcopy found (S (next_address st))).2 st /\
    content found =
      from_option content (VDict []) (doc_get (recall_execution k st) "artifacts") /\
    exists a items, recall_execution k st = Obj a Dictionary items.
Proof.
  unfold get_artifacts.
  destruct (recall_execution k st) as [[]|a [] items]; intros H;
    try (inversion H; fail).
  injection H as <- <-.
  exists (default (Obj (next_address st) Dictionary [])
            (doc_get (Obj a Dictionary items) "artifacts")).
  repeat split; [|eauto].
  destruct (doc_get (Obj a Dictionary items) "artifacts"); reflexivity.
Qed.

Lemma said_get_artifacts k st a items :
  recall_execution k st = Obj a Dictionary items ->
  said (get_artifacts k st) =
  Some (from_option content (VDict [])
          (doc_get (recall_execution k st) "artifacts")).
Proof.
  intros Hrec. unfold said, get_artifacts. rewrite Hrec. cbn [fst].
  rewrite deepcopy_content.
  destruct (doc_get (Obj a Dictionary items) "artifacts"); reflexivity.
Qed.

Lemma reads_after ms k st :
  assign_all ms st = st -> reads k (assign_all ms st) = reads k st.
Proof. intros ->. reflexivity. Qed.

Lemma said_get_plan k st :
  recall_plan k st <> Atom ANone ->
  said (get_plan k st) = Some (content (recall_plan k st)).
Proof.
  intros Hsome. unfold said, get_plan.
  destruct (recall_plan k st) as [[]|]; try congruence; cbn [fst];
    try reflexivity.
  rewrite deepcopy_content. reflexivity.
Qed.

Lemma said_get_execution k st :
  recall_execution k st <> Atom ANone ->
  said (get_execution k st) = Some (content (recall_execution k st)).
Proof.
  intros Hsome. unfold said, get_execution.
  destruct (recall_execution k st) as [[]|]; try congruence; cbn [fst];
    try reflexivity.
  rewrite deepcopy_content. reflexivity.
Qed.

Lemma recall_plan_allocated k n st :
  recall_plan k (allocated n st) = recall_plan k st.
Proof. reflexivity. Qed.

Lemma recall_execution_allocated k n st :
  recall_execution k (allocated n st) = recall_execution k st.
Proof. reflexivity. Qed.

Lemma plans_assigned_apart ms st k d stored :
  plans st !! k = Some stored -> apart d stored -> into d ms ->
  recall_plan k (assign_all ms st) = stored.
Proof.
  intros Hk Hapart Hinto. unfold recall_plan.
  rewrite assign_all_plans, Hk. cbn.
  apply mutate_all_absent. eapply into_misses; eauto.
Qed.

(** C10. [plan()], [get_plan()], [get_artifacts()] and [get_execution()]
    hand out documents that share no object with the remembered state.
    In a state whose objects all lie below the next free address:
    (1) [plan()] remembers a deep copy, equal in content to the plan it
    returns and sharing no object with it, and whatever the caller assigns
    into the objects of the returned plan, [get_plan()] of that plan id
    still says what [plan()] returned;
    (2) the end of a run remembers deep copies of the plan and of the
    execution record, and assignments into the objects of the originals
    change none of the three reads of that plan id;
    (3)-(5) what [get_plan()], [get_artifacts()] and [get_execution()]
    return is a deep copy: assignments into its objects leave the whole
    state as it is, and the same read of the same plan id afterwards says
    what the first read returned. *)
Theorem returned_documents_are_decoupled (st : State) :
  well_allocated st ->
  (forall uuid m g s c,
     below (next_address st) m -> below (next_address st) g ->
     below (next_address st) s -> below (next_address st) c ->
     let r := plan uuid m g s c st in
     well_allocated r.2 /\
     (exists stored, plans r.2 !! uuid = Some stored /\
        content stored = content r.1 /\ apart r.1 stored) /\
     forall ms, into r.1 ms ->
       said (get_plan uuid (assign_all ms r.2)) = Some (content r.1)) /\
  (forall k p e,
     below (next_address st) p -> below (next_address st) e ->
     let st' := remember_run k p e st in
     well_allocated st' /\
     (exists p' e', plans st' !! k = Some p' /\ executions st' !! k = Some e' /\
        content p' = content p /\ content e' = content e /\
        apart p p' /\ apart p e' /\ apart e p' /\ apart e e') /\
     forall ms,
       Forall (fun m : assignment => m.1 ∈ addresses p ++ addresses e) ms ->
       reads k (assign_all ms st') = reads k st') /\
  (forall k d st', get_plan k st = (Returned d, st') ->
     well_allocated st' /\ content d = content (recall_plan k st) /\
     forall ms, into d ms ->
       assign_all ms st' = st' /\
       said (get_plan k (assign_all ms st')) = Some (content d)) /\
  (forall k d st', get_artifacts k st = (Returned d, st') ->
     well_allocated st' /\
     content d = from_option content (VDict [])
                   (doc_get (recall_execution k st) "artifacts") /\
     forall ms, into d ms ->
       assign_all ms st' = st' /\
       said (get_artifacts k (assign_all ms st')) = Some (content d)) /\
  (forall k d st', get_execution k st = (Returned d, st') ->
     well_allocated st' /\ content d = content (recall_execution k st) /\
     forall ms, into d ms ->
       assign_all ms st' = st' /\
       said (get_execution k (assign_all ms st')) = Some (content d)).
Proof.
  intros Hwell. repeat apply conj.
  - intros uuid m g s c Hm Hg Hs Hc r.
    set (made := r.1).
    assert (Hmade : below (S (next_address st)) made).
    { unfold made, r, plan, below. cbn [fst addresses flat_map snd].
      constructor; [lia|].
      rewrite app_nil_r, !Forall_app. cbn.
      repeat split; try constructor;
        (eapply below_mono; [|eassumption]); lia. }
    set (copied := deepcopy made (S (next_address st))).
    assert (Hr2 : r.2 = remember_plan uuid copied.1 (allocated copied.2 st))
      by reflexivity.
    assert (Hapart : apart made copied.1).
    { apply apart_sym, fresh_apart, Hmade. }
    assert (Hstored : plans r.2 !! uuid = Some copied.1).
    { rewrite Hr2. cbn. apply lookup_insert_eq. }
    split; [|split].
    + rewrite Hr2. apply remember_plan_well.
      * apply deepcopy_below.
      * apply allocated_well; [|exact Hwell].
        pose proof (deepcopy_grows made (S (next_address st))) as Hgrow.
        fold copied in Hgrow. lia.
    + exists copied.1. repeat split; [exact Hstored| |exact Hapart].
      apply deepcopy_content.
    + intros ms Hinto.
      assert (Hrec : recall_plan uuid (assign_all ms r.2) = copied.1)
        by (eapply plans_assigned_apart; eauto).
      rewrite said_get_plan; rewrite Hrec.
      * unfold copied. rewrite deepcopy_content. reflexivity.
      * unfold copied, made, r, plan. cbn [fst]. rewrite deepcopy_Obj.
        discriminate.
  - intros k p e Hp He st'.
    set (p' := deepcopy p (next_address st)).
    set (e' := deepcopy e p'.2).
    assert (Hst' : st' = remember_execution k e'.1
                           (remember_plan k p'.1 (allocated e'.2 st)))
      by reflexivity.
    pose proof (deepcopy_grows p (next_address st)) as Hgp.
    pose proof (deepcopy_grows e p'.2) as Hge.
    fold p' in Hgp. fold e' in Hge.
    assert (Hplan : plans st' !! k = Some p'.1).
    { rewrite Hst'. cbn. apply lookup_insert_eq. }
    assert (Hexec : executions st' !! k = Some e'.1).
    { rewrite Hst'. cbn. apply lookup_insert_eq. }
    assert (Hpp : apart p p'.1) by (apply apart_sym, fresh_apart, Hp).
    assert (Hep : apart e p'.1) by (apply apart_sym, fresh_apart, He).
    assert (Hpe : apart p e'.1).
    { apply apart_sym, fresh_apart. eapply below_mono; [|exact Hp]. lia. }
    assert (Hee : apart e e'.1).
    { apply apart_sym, fresh_apart. eapply below_mono; [|exact He]. lia. }
    split; [|split].
    + rewrite Hst'. apply remember_execution_well; [apply deepcopy_below|].
      apply remember_plan_well.
      * eapply below_mono; [|apply deepcopy_below]. exact Hge.
      * apply allocated_well; [cbn; lia | exact Hwell].
    + exists p'.1, e'.1.
      repeat split; try assumption; apply deepcopy_content.
    + intros ms Hms.
      assert (Hmiss : forall d, apart p d -> apart e d ->
                Forall (fun m : assignment => m.1 ∉ addresses d) ms).
      { intros d H1 H2. eapply Forall_impl; [exact Hms|].
        cbn. intros m Hm Hd. apply elem_of_app in Hm as [Hm|Hm].
        - exact (H1 _ Hm Hd).
        - exact (H2 _ Hm Hd). }
      apply reads_ext.
      * rewrite assign_all_plans, Hplan. cbn.
        rewrite mutate_all_absent by (apply Hmiss; assumption). reflexivity.
      * rewrite assign_all_executions, Hexec. cbn.
        rewrite mutate_all_absent by (apply Hmiss; assumption). reflexivity.
      * apply assign_all_next.
  - intros k d st' Hget.
    apply get_plan_returned in Hget as (-> & -> & Hsome).
    pose proof (deepcopy_grows (recall_plan k st) (next_address st)) as Hg.
    split; [|split].
    + apply allocated_well; [exact Hg | exact Hwell].
    + apply deepcopy_content.
    + intros ms Hinto.
      assert (Hsame : assign_all ms
                (allocated (deepcopy (recall_plan k st) (next_address st)).2 st)
              = allocated (deepcopy (recall_plan k st) (next_address st)).2 st).
      { eapply copy_is_private; [|exact Hinto].
        destruct Hwell as [H1 H2]. split; cbn; eauto. }
      split; [exact Hsame|]. rewrite Hsame.
      rewrite said_get_plan by exact Hsome.
      rewrite deepcopy_content. reflexivity.
  - intros k d st' Hget.
    apply get_artifacts_returned in Hget
      as (found & -> & -> & Hfound & a & items & Hrec).
    pose proof (deepcopy_grows found (S (next_address st))) as Hg.
    split; [|split].
    + apply allocated_well; [lia | exact Hwell].
    + rewrite deepcopy_content. exact Hfound.
    + intros ms Hinto.
      assert (Hsame : assign_all ms
                (allocated (deepcopy found (S (next_address st))).2 st)
              = allocated (deepcopy found (S (next_address st))).2 st).
      { eapply copy_is_private; [|exact Hinto].
        destruct Hwell as [H1 H2].
        split; cbn; intros; (eapply below_mono; [|eauto]); lia. }
      split; [exact Hsame|]. rewrite Hsame.
      erewrite said_get_artifacts by exact Hrec.
      rewrite deepcopy_content, Hfound. reflexivity.
  - intros k d st' Hget.
    apply get_execution_returned in Hget as (-> & -> & Hsome).
    pose proof (deepcopy_grows (recall_execution k st) (next_address st)) as Hg.
    split; [|split].
    + apply allocated_well; [exact Hg | exact Hwell].
    + apply deepcopy_content.
    + intros ms Hinto.
      assert (Hsame : assign_all ms
                (allocated (deepcopy (recall_execution k st) (next_address st)).2 st)
              = allocated (deepcopy (recall_execution k st) (next_address st)).2 st).
      { eapply copy_is_private; [|exact Hinto].
        destruct Hwell as [H1 H2]. split; cbn; eauto. }
      split; [exact Hsame|]. rewrite Hsame.
      rewrite said_get_execution by exact Hsome.
      rewrite deepcopy_content. reflexivity.
Qed.

Lemma returned_documents_are_decoupled_witness :
  well_allocated blank /\ well_allocated ran /\
  said (get_plan "p1" (assign_all [scribble] planned.2)) =
    Some (content planned.1) /\
  said (get_plan "p1" (assign_all wipe fetched.2)) =
    Some (content fetched_plan) /\
  said (get_artifacts "p1" (assign_all wipe_artifacts fetched_artifacts.2)) =
    Some (content artifacts_doc).
Proof.
  assert (Hblank : well_allocated blank)
    by (apply (bool_decide_unpack _); vm_compute; reflexivity).
  assert (Hran : well_allocated ran)
    by (apply (bool_decide_unpack _); vm_compute; reflexivity).
  pose proof (returned_documents_are_decoupled blank Hblank)
    as (Hplan & _).
  pose proof (returned_documents_are_decoupled ran Hran)
    as (_ & _ & Hget & Hart & _).
  split; [exact Hblank|]. split; [exact Hran|]. split; [|split].
  - destruct (Hplan "p1" matter_doc graph_doc steps_doc catalogue_doc)
      as (_ & _ & Hread);
      try (apply (bool_decide_unpack _); vm_compute; reflexivity).
    apply Hread.
    apply (bool_decide_unpack _); vm_compute; reflexivity.
  - destruct (Hget "p1" fetched_plan fetched.2) as (_ & _ & Hread);
      [vm_compute; reflexivity|].
    apply Hread.
    apply (bool_decide_unpack _); vm_compute; reflexivity.
  - destruct (Hart "p1" artifacts_doc fetched_artifacts.2) as (_ & _ & Hread);
      [vm_compute; reflexivity|].
    apply Hread.
    apply (bool_decide_unpack _); vm_compute; reflexivity.
Defined.

(** The model does let an assignment through where an object is shared:
    had the caller hold of the remembered matter itself (address 9 in the
    state [plan()] leaves), the next [get_plan()] would say something
    else. *)
Lemma assignment_reaches_a_remembered_object :
  said (get_plan "p1" (assign_all [(9%nat, fun _ => [])] planned.2)) <>
  said (get_plan "p1" planned.2).
Proof. vm_compute. discriminate. Qed.

End SharingFacts.

(** ** Retry executor: how many attempts, how long the waits *)
Module RetryBounds.
Import Retry RetryCases.

Section Loop.
Context {A : Type}.
Variable operation : Z -> outcome A.
Variable policy : RetryPolicy.
Variable rnd : Z -> Q.

(** What one pass of the loop keeps, entered at attempt [attempt] with
    the exceptions [excs] of the attempts before it and a sleep after each of
    them. *)
Lemma retry_loop_accounting (n : nat) :
  forall attempt last excs slept,
    attempt = Z.of_nat (length excs) + 1 ->
    length slept = length excs ->
    Z.of_nat n + attempt = max_attempts policy ->
    (forall (i : nat) d, slept !! i = Some d ->
       d = compute_delay policy (Z.of_nat i + 1) (rnd (Z.of_nat i + 1))) ->
    (forall (i : nat) e, excs !! i = Some e ->
       operation (Z.of_nat i + 1) = Raised e) ->
    let out := retry_loop operation policy rnd (S n) attempt last excs slept in
    let r := out.1 in
    attempts r <= max_attempts policy /\
    (success r = true ->
       attempts r = Z.of_nat (length (exceptions r)) + 1 /\
       length out.2 = length (exceptions r) /\
       last_exception r = None /\
       exists v, result r = Some v /\ operation (attempts r) = Returned v) /\
    (success r = false ->
       attempts r = Z.of_nat (length (exceptions r)) /\
       S (length out.2) = length (exceptions r) /\
       result r = None /\
       last_exception r = List.last (Some <$> exceptions r) None) /\
    (forall (i : nat) d, out.2 !! i = Some d ->
       d = compute_delay policy (Z.of_nat i + 1) (rnd (Z.of_nat i + 1))) /\
    (forall (i : nat) e, exceptions r !! i = Some e ->
       operation (Z.of_nat i + 1) = Raised e).
Proof.
  induction n as [|n IH]; intros attempt last excs slept Hat Hlen Hmax Hsl Hex;
    cbn [retry_loop]; destruct (operation attempt) as [v|e] eqn:Hop.
  - cbn. repeat split; try done; try lia. eauto.
  - assert (should_retry policy e attempt = false) as ->.
    { unfold should_retry. destruct (Z.geb_spec attempt (max_attempts policy)); [done|lia]. }
    cbn. rewrite length_app. cbn [length]. repeat split; try done; try lia.
    + rewrite fmap_app. cbn. by rewrite last_last.
    + intros i e' Hi. apply lookup_app_Some in Hi as [Hi|[Hge Hi]]; [eauto|].
      apply list_lookup_singleton_Some in Hi as [Hi <-].
      replace (Z.of_nat i + 1) with attempt by lia. done.
  - cbn. repeat split; try done; try lia. eauto.
  - destruct (should_retry policy e attempt) eqn:Hretry.
    + apply (IH (attempt + 1) (Some e) (excs ++ [e])
               (slept ++ [compute_delay policy attempt (rnd attempt)])).
      * rewrite length_app. cbn [length]. lia.
      * rewrite !length_app. cbn [length]. lia.
      * lia.
      * intros i d Hi. apply lookup_app_Some in Hi as [Hi|[Hge Hi]]; [eauto|].
        apply list_lookup_singleton_Some in Hi as [Hi <-].
        replace (Z.of_nat i + 1) with attempt by lia. done.
      * intros i e' Hi. apply lookup_app_Some in Hi as [Hi|[Hge Hi]]; [eauto|].
        apply list_lookup_singleton_Some in Hi as [Hi <-].
        replace (Z.of_nat i + 1) with attempt by lia. done.
    + cbn. rewrite length_app. cbn [length]. repeat split; try done; try lia.
      * rewrite fmap_app. cbn. by rewrite last_last.
      * intros i e' Hi. apply lookup_app_Some in Hi as [Hi|[Hge Hi]]; [eauto|].
        apply list_lookup_singleton_Some in Hi as [Hi <-].
        replace (Z.of_nat i + 1) with attempt by lia. done.
Qed.

(** [retry_async] for every operation and policy.  It makes at most
    [max_attempts] attempts, and none when [max_attempts] is not positive:
    the result is then a failure with zero attempts and no exception at all.
    After a success [attempts] is one more than the number of exceptions and
    there was one sleep per exception; after a failure [attempts] is the
    number of exceptions and there is one sleep fewer: the loop never sleeps
    after its last attempt.  The [i]-th sleep lasts what [compute_delay]
    gives for attempt [i], and the [i]-th exception is the one the [i]-th
    invocation raised. *)
Theorem retry_async_accounting :
  let out := retry_async operation policy rnd in
  let r := out.1 in
  (max_attempts policy <= 0 ->
     out = (gave_up None [], []) /\ attempts r = 0) /\
  (1 <= max_attempts policy -> 1 <= attempts r <= max_attempts policy) /\
  (success r = true ->
     attempts r = Z.of_nat (length (exceptions r)) + 1 /\
     length out.2 = length (exceptions r) /\
     exists v, result r = Some v /\ operation (attempts r) = Returned v) /\
  (success r = false ->
     attempts r = Z.of_nat (length (exceptions r)) /\
     result r = None /\
     last_exception r = List.last (Some <$> exceptions r) None /\
     (1 <= max_attempts policy -> S (length out.2) = length (exceptions r))) /\
  (forall (i : nat) d, out.2 !! i = Some d ->
     d = compute_delay policy (Z.of_nat i + 1) (rnd (Z.of_nat i + 1))) /\
  (forall (i : nat) e, exceptions r !! i = Some e ->
     operation (Z.of_nat i + 1) = Raised e).
Proof.
  intros out r. subst out r. unfold retry_async.
  destruct (Z.to_nat (max_attempts policy)) as [|n] eqn:Hn.
  - cbn. split; [done|]. split; [lia|]. split; [done|].
    split; [|split; intros i x Hi; done].
    intros _. repeat split. lia.
  - pose proof (retry_loop_accounting n 1 None [] []) as H.
    cbv zeta in H.
    destruct H as (Hle & Hok & Hko & Hsl & Hex); try done; try (cbn; lia).
    split; [lia|]. split; [|split; [|split; [|split]]].
    + intros _. split; [|exact Hle].
      destruct (success _) eqn:Hs.
      * destruct (Hok eq_refl) as (-> & _). lia.
      * destruct (Hko eq_refl) as (-> & Hlen & _). lia.
    + intros Hs. destruct (Hok Hs) as (? & ? & ? & ?). done.
    + intros Hs. destruct (Hko Hs) as (? & ? & ? & ?). done.
    + exact Hsl.
    + exact Hex.
Qed.



End Loop.

(** One delay lies between zero and the cap enlarged by the jitter
    factor, whatever the attempt number and the strategy, when the policy's
    delays and jitter are not negative and the random draw is in the unit
    interval (a linear policy also needs a non-negative attempt number). *)
Lemma compute_delay_within (p : RetryPolicy) (attempt : Z) (draw : Q) :
  (0 <= base_delay_seconds p)%Q -> (0 <= max_delay_seconds p)%Q ->
  (0 <= jitter p)%Q -> (0 <= draw <= 1)%Q -> 0 <= attempt ->
  (0 <= compute_delay p attempt draw <=
   max_delay_seconds p * (1 + jitter p))%Q.
Proof.
  intros Hbase Hmax Hjit [Hd0 Hd1] Hat.
  assert (Hback : (0 <= backoff_delay p attempt)%Q).
  { unfold backoff_delay. destruct (backoff_strategy p).
    - exact Hbase.
    - assert (0 <= inject_Z attempt)%Q by (rewrite Zle_Qle in Hat; exact Hat).
      nra.
    - assert (0 < 2 ^ (attempt - 1))%Q by (apply Qpower_0_lt; reflexivity).
      nra. }
  unfold compute_delay.
  set (delay := Qmin (backoff_delay p attempt) (max_delay_seconds p)).
  assert (Hlo : (0 <= delay)%Q) by (apply Q.min_glb; assumption).
  assert (Hhi : (delay <= max_delay_seconds p)%Q) by apply Q.le_min_r.
  assert (H1 : (0 <= delay * jitter p)%Q) by nra.
  assert (H2 : (0 <= delay * jitter p * draw)%Q) by nra.
  assert (H3 : (delay * jitter p * draw <= delay * jitter p)%Q) by nra.
  assert (H4 : (delay * jitter p <= max_delay_seconds p * jitter p)%Q) by nra.
  destruct (Qlt_le_dec 0 (jitter p)); split; lra.
Qed.

(** The waits of the retry executor are bounded: under a policy whose
    delays and jitter are not negative, and with random draws in the unit
    interval, every delay [compute_delay] gives for a non-negative attempt
    number, and so every sleep of [retry_async], lies between zero and
    [max_delay_seconds * (1 + jitter)]; there are fewer sleeps than
    [max_attempts]. *)
Theorem retry_waits_are_bounded {A : Type} (operation : Z -> outcome A)
    (p : RetryPolicy) (rnd : Z -> Q) :
  (0 <= base_delay_seconds p)%Q -> (0 <= max_delay_seconds p)%Q ->
  (0 <= jitter p)%Q -> (forall n, 0 <= rnd n <= 1)%Q ->
  (forall attempt draw, 0 <= attempt -> (0 <= draw <= 1)%Q ->
     (0 <= compute_delay p attempt draw <=
      max_delay_seconds p * (1 + jitter p))%Q) /\
  let slept := (retry_async operation p rnd).2 in
  (1 <= max_attempts p -> Z.of_nat (length slept) < max_attempts p) /\
  Forall (fun d => 0 <= d <= max_delay_seconds p * (1 + jitter p))%Q slept.
Proof.
  intros Hbase Hmax Hjit Hrnd. split.
  - intros attempt draw Hat Hdraw. by apply compute_delay_within.
  - cbv zeta. unfold retry_async.
    destruct (Z.to_nat (max_attempts p)) as [|n] eqn:Hn.
    { cbn. split; [lia | constructor]. }
    pose proof (retry_loop_accounting operation p rnd n 1 None [] []) as H.
    cbv zeta in H.
    destruct H as (Hle & Hok & Hko & Hsl & _); try done; try (cbn; lia).
    split.
    + intros _. destruct (success _) eqn:Hs.
      * destruct (Hok eq_refl) as (Ha & Hlen & _). lia.
      * destruct (Hko eq_refl) as (Ha & Hlen & _). lia.
    + apply Forall_lookup. intros i d Hi. rewrite (Hsl i d Hi).
      apply compute_delay_within; try done. lia.
Qed.


Lemma retry_waits_are_bounded_witness :
  (0 <= compute_delay DEFAULT_AGENT_RETRY_POLICY 2 (1 # 2) <= 30 * (1 + (1 # 10)))%Q /\
  Forall (fun d => 0 <= d <= 30 * (1 + (1 # 10)))%Q
    (retry_async flaky_op DEFAULT_AGENT_RETRY_POLICY (fun _ => 1 # 2)).2.
Proof.
  destruct (retry_waits_are_bounded flaky_op DEFAULT_AGENT_RETRY_POLICY
              (fun _ => 1 # 2)) as (Hone & _ & Hall).
  - vm_compute. discriminate.
  - vm_compute. discriminate.
  - vm_compute. discriminate.
  - intros n. split; vm_compute; discriminate.
  - split.
    + apply Hone; [lia|]. split; vm_compute; discriminate.
    + exact Hall.
Defined.

End RetryBounds.

(** ** Circuit breaker: counters, opening time, registry *)
Module BreakerInvariants.
Import Breaker BreakerRegistry.

Section Runs.
Context {W A : Type}.
Implicit Types (func : W -> outcome A * W) (b : CircuitBreaker) (w : W).

Lemma calls_app (xs ys : list ((W -> outcome A * W) * readings)) b w :
  calls (xs ++ ys) b w =
  calls ys (calls xs b w).1 (calls xs b w).2.
Proof.
  revert b w. induction xs as [|[func t] xs IH]; intros b w; [reflexivity|].
  cbn [app calls]. destruct (call func t b w) as [[res b'] w']. apply IH.
Qed.



Lemma call_closed_success func t b w r w' :
  _state b = CLOSED -> func w = (Returned r, w') ->
  let b' := (call func t b w).1.2 in
  _state b' = CLOSED /\ consecutive_failures (_stats b') = 0 /\
  config b' = config b.
Proof.
  intros Hst Hf. cbv zeta.
  rewrite BreakerFacts.call_not_open by (rewrite Hst; discriminate).
  rewrite Hf. unfold _on_success. cbn. rewrite Hst. done.
Qed.

Lemma round_keeps_closed
    (r : list ((W -> outcome A * W) * readings) * ((W -> outcome A * W) * readings))
    b w :
  _state b = CLOSED -> consecutive_failures (_stats b) = 0 ->
  round (config b) r ->
  let b' := (calls (r.1 ++ [r.2]) b w).1 in
  _state b' = CLOSED /\ consecutive_failures (_stats b') = 0 /\
  config b' = config b.
Proof.
  intros Hst Hcf (Hfail & Hshort & Hok). cbv zeta.
  rewrite calls_app.
  destruct (BreakerFacts.closed_failures r.1 b w Hst ltac:(lia) Hfail) as [Hlt _].
  destruct Hlt as (Hst1 & _ & Hc1); [lia|].
  destruct r.2 as [func t] eqn:Hr2. cbn [calls].
  destruct (Hok (calls r.1 b w).2) as (v & w' & Hf).
  cbn in Hf.
  pose proof (call_closed_success func t _ _ v w' Hst1 Hf) as H.
  cbv zeta in H. destruct (call func t _ _) as [[res b2] w2]. cbn in *.
  destruct H as (? & ? & ?). repeat split; congruence.
Qed.

(** Only consecutive failures open a closed breaker.  Starting closed
    with no failure streak, any number of rounds, each a run of failures
    shorter than [failure_threshold] ended by one success, followed by a last
    run of failures shorter than the threshold, leaves the breaker closed,
    with the length of that last run as its failure streak: however many
    failures there were in all. *)
Theorem only_consecutive_failures_open
    (rounds : list (list ((W -> outcome A * W) * readings) *
                    ((W -> outcome A * W) * readings)))
    (tail : list ((W -> outcome A * W) * readings)) b w :
  _state b = CLOSED -> consecutive_failures (_stats b) = 0 ->
  Forall (round (config b)) rounds ->
  Forall (fun i => fails (config b) i.1) tail ->
  Z.of_nat (length tail) < failure_threshold (config b) ->
  let b' := (calls (concat (map (fun r => r.1 ++ [r.2]) rounds) ++ tail) b w).1 in
  _state b' = CLOSED /\
  consecutive_failures (_stats b') = Z.of_nat (length tail).
Proof.
  revert b w. induction rounds as [|r rounds IH]; intros b w Hst Hcf Hrounds Htail Hshort.
  - cbn [map concat app].
    destruct (BreakerFacts.closed_failures tail b w Hst ltac:(lia) Htail) as [Hlt _].
    destruct Hlt as (? & ? & ?); [lia|]. split; [done|lia].
  - apply Forall_cons in Hrounds as [Hr Hrounds].
    cbn [map concat]. rewrite <- app_assoc, calls_app.
    pose proof (round_keeps_closed r b w Hst Hcf Hr) as H. cbv zeta in H.
    destruct H as (Hst1 & Hcf1 & Hc1).
    apply IH; try done; rewrite Hc1; done.
Qed.

(** What one call does to the opening time. *)
Lemma call_coherent func t b w :
  coherent b ->
  let b' := (call func t b w).1.2 in
  coherent b' /\
  (_opened_at b' = _opened_at b \/ _opened_at b' = None \/
   _opened_at b' = Some (t_open t)).
Proof.
  unfold coherent. intros Hco. cbv zeta.
  unfold call, _maybe_transition_to_half_open.
  destruct (_state b) eqn:Hst; cbn.
  - rewrite Hst. destruct (func w) as [[r|e] w']; cbn.
    + unfold _on_success. cbn. rewrite Hst. cbn. rewrite Hst. tauto.
    + destruct (isinstance e _); cbn; [rewrite Hst; tauto|].
      unfold _on_failure. cbn. rewrite Hst.
      destruct (_ >=? _); cbn; [|rewrite Hst; tauto].
      split; [|tauto]. split; discriminate.
  - destruct (_opened_at b) as [opened|] eqn:Hop; cbn.
    + destruct (Qle_bool _ _); cbn.
      * destruct (func w) as [[r|e] w']; cbn.
        -- unfold _on_success. cbn. destruct (_ >=? _); cbn.
           ++ tauto.
           ++ rewrite Hop. split; [|tauto]. split; discriminate.
        -- destruct (isinstance e _); cbn.
           ++ rewrite Hop. split; [|tauto]. split; discriminate.
           ++ split; [|tauto]. split; discriminate.
      * rewrite Hst. cbn. rewrite Hst, Hop. split; [|tauto]. split; discriminate.
    + destruct Hco as [_ Hco]. specialize (Hco eq_refl). discriminate.
  - rewrite Hst. destruct (func w) as [[r|e] w']; cbn.
    + unfold _on_success. cbn. rewrite Hst.
      destruct (_ >=? _); cbn; [tauto|]. rewrite Hst. tauto.
    + destruct (isinstance e _); cbn; [rewrite Hst; tauto|].
      unfold _on_failure. cbn. rewrite Hst. cbn.
      split; [|tauto]. split; discriminate.
Qed.

Lemma calls_coherent (inputs : list ((W -> outcome A * W) * readings)) b w :
  coherent b ->
  let b' := (calls inputs b w).1 in
  coherent b' /\
  (_opened_at b' = _opened_at b \/ _opened_at b' = None \/
   exists i, i ∈ inputs /\ _opened_at b' = Some (t_open i.2)).
Proof.
  revert b w. induction inputs as [|[func t] rest IH]; intros b w Hco.
  - cbn. tauto.
  - cbn [calls].
    pose proof (call_coherent func t b w Hco) as H. cbv zeta in H.
    destruct (call func t b w) as [[res b1] w1]. cbn [fst snd] in H.
    destruct H as [Hco1 Hop1].
    destruct (IH b1 w1 Hco1) as [Hco2 Hop2]. cbv zeta. split; [exact Hco2|].
    destruct Hop2 as [Heq|[Hnone|(i & Hi & Heq)]].
    + rewrite Heq. destruct Hop1 as [?|[?|?]]; [tauto|tauto|].
      right. right. exists (func, t). split; [constructor | done].
    + tauto.
    + right. right. exists i. split; [by constructor | done].
Qed.

(** A breaker never stays open for want of an opening time.  From a new
    breaker, over any run of calls: the breaker is closed exactly when it
    has no opening time; an opening time is the [_open] clock reading of one
    of the calls made; and when the breaker is open, a call made once
    [timeout_seconds] have passed since that time is let through to the
    wrapped function. *)
Theorem open_breaker_recovers (n : string) (c : CircuitBreakerConfig)
    (inputs : list ((W -> outcome A * W) * readings)) w :
  let b := (calls inputs (new_breaker n c) w).1 in
  (_state b = CLOSED <-> _opened_at b = None) /\
  (forall opened, _opened_at b = Some opened ->
     exists i, i ∈ inputs /\ opened = t_open i.2) /\
  (_state b = OPEN ->
     exists opened, _opened_at b = Some opened /\
       forall func t w',
         (timeout_seconds (config b) <= t_check t - opened)%Q ->
         (call func t b w').2 = (func w').2 /\
         (call func t b w').1.1 =
           match (func w').1 with
           | Returned r => CallReturned r
           | Raised e => CallRaised e
           end).
Proof.
  intros b.
  assert (Hnew : coherent (new_breaker n c)) by (split; reflexivity).
  destruct (calls_coherent inputs (new_breaker n c) w Hnew) as [Hco Hop].
  fold b in Hco, Hop. split; [exact Hco|]. split.
  - intros opened Ho. destruct Hop as [Heq|[Hnone|(i & Hi & Heq)]].
    + rewrite Ho in Heq. discriminate.
    + congruence.
    + exists i. split; [done|congruence].
  - intros Hst. destruct (_opened_at b) as [opened|] eqn:Ho.
    2: { destruct Hco as [_ Hco]. rewrite Hco in Hst; done. }
    exists opened. split; [done|]. intros func t w' Hdue.
    assert (Hm : _maybe_transition_to_half_open (t_check t) b = _half_open b).
    { unfold _maybe_transition_to_half_open. rewrite Hst, Ho.
      destruct (Qle_bool _ _) eqn:E; [done|].
      apply Qle_bool_iff in Hdue. congruence. }
    unfold call. rewrite Hm. cbn.
    destruct (func w') as [[r|e] w1]; cbn; [done|].
    destruct (isinstance e _); done.
Qed.

(** Excluded exceptions leave no trace but the call count.  On a breaker
    that is not open, a run of calls that all raise exceptions of excluded
    classes changes neither the state nor the opening time nor any streak or
    failure counter: a closed breaker stays closed however long the run, a
    half-open one stays half-open. *)
Theorem excluded_exceptions_are_not_failures
    (inputs : list ((W -> outcome A * W) * readings)) b w :
  _state b <> OPEN ->
  Forall (fun i => raises_excluded (config b) i.1) inputs ->
  (calls inputs b w).1 =
  with_stats
    {| total_calls := total_calls (_stats b) + Z.of_nat (length inputs);
       successful_calls := successful_calls (_stats b);
       failed_calls := failed_calls (_stats b);
       rejected_calls := rejected_calls (_stats b);
       last_failure_time := last_failure_time (_stats b);
       last_success_time := last_success_time (_stats b);
       consecutive_failures := consecutive_failures (_stats b);
       consecutive_successes := consecutive_successes (_stats b) |} b.
Proof.
  revert b w. induction inputs as [|[func t] rest IH]; intros b w Hst Hall.
  - cbn. rewrite Z.add_0_r. destruct b as [? ? ? [] ?]. reflexivity.
  - apply Forall_cons in Hall as [Hf Hrest]. cbn in Hf.
    destruct (Hf w) as (e & w' & Hfw & Hex).
    cbn [calls]. rewrite BreakerFacts.call_not_open by exact Hst.
    rewrite Hfw. cbn [config bump_total with_stats]. rewrite Hex.
    rewrite IH; [|exact Hst|exact Hrest].
    cbn. unfold with_stats. cbn. do 2 f_equal. cbn [length]. lia.
Qed.

End Runs.

(** [get_or_create] hands out one breaker per name.  For a name the
    registry knows it returns the breaker held and changes nothing: the
    configuration passed is ignored.  For a new name it creates a closed
    breaker with zeroed statistics under the configuration passed, or the
    registry's default, and from then on [get] and [get_or_create] of that
    name return it; the other names are not touched. *)
Theorem get_or_create_once_per_name (n : string)
    (c c' : option CircuitBreakerConfig) (r : CircuitBreakerRegistry) :
  (forall b, get n r = Some b -> get_or_create n c r = (b, r)) /\
  (get n r = None ->
     (get_or_create n c r).1 = new_breaker n (default (_default_config r) c)) /\
  get n (get_or_create n c r).2 = Some (get_or_create n c r).1 /\
  get_or_create n c' (get_or_create n c r).2 = get_or_create n c r /\
  (forall n', n' <> n -> get n' (get_or_create n c r).2 = get n' r) /\
  _default_config (get_or_create n c r).2 = _default_config r.
Proof.
  unfold get_or_create, get.
  destruct (_breakers r !! n) as [b|] eqn:Hn; cbn.
  - repeat split; try done.
    + intros b' Hb. congruence.
    + by rewrite Hn.
  - repeat split; try done.
    + by rewrite lookup_insert_eq.
    + by rewrite lookup_insert_eq.
    + intros n' Hne. by rewrite lookup_insert_ne.
Qed.

(** [reset_all] brings every breaker of the registry back to its
    initial state: the names, their configurations and the registry's
    default stay, each breaker is closed with no opening time and zeroed
    statistics, and [get_all_stats] then reports ["closed"] and zero
    counters under every name. *)
Theorem reset_all_starts_over (r : CircuitBreakerRegistry) (n : string) :
  dom (_breakers (reset_all r)) = dom (_breakers r) /\
  _default_config (reset_all r) = _default_config r /\
  (forall b, get n r = Some b ->
     get n (reset_all r) = Some (new_breaker (name b) (config b)) /\
     get_all_stats (reset_all r) !! n =
       Some {| row_state := "closed"; row_total_calls := 0;
               row_successful_calls := 0; row_failed_calls := 0;
               row_rejected_calls := 0; row_consecutive_failures := 0 |}) /\
  (get n r = None ->
     get n (reset_all r) = None /\ get_all_stats (reset_all r) !! n = None).
Proof.
  unfold reset_all, get_all_stats, get. cbn.
  split; [by rewrite dom_fmap_L|]. split; [done|]. split.
  - intros b Hb. rewrite !lookup_fmap, Hb. done.
  - intros Hb. rewrite !lookup_fmap, Hb. done.
Qed.

Lemma only_consecutive_failures_open_witness :
  let b := (calls (concat (map (fun r => r.1 ++ [r.2]) sample_rounds) ++ sample_tail)
              (new_breaker "test" test_config) 0%nat).1 in
  _state b = CLOSED /\ consecutive_failures (_stats b) = 2.
Proof.
  apply (only_consecutive_failures_open sample_rounds sample_tail
           (new_breaker "test" test_config) 0%nat); try reflexivity.
  - repeat constructor; try apply BreakerFacts.failing_func_fails;
      apply BreakerFacts.ok_func_succeeds.
  - repeat constructor; apply BreakerFacts.failing_func_fails.
Defined.

Lemma key_error_func_excluded : raises_excluded lenient_config key_error_func.
Proof. intros w. eexists _, _. split; reflexivity. Qed.

Lemma excluded_exceptions_are_not_failures_witness :
  let b := (calls [(key_error_func, at_time 1); (key_error_func, at_time 2);
                   (key_error_func, at_time 3)]
              (new_breaker "lenient" lenient_config) 0%nat).1 in
  _state b = CLOSED /\ total_calls (_stats b) = 3 /\
  failed_calls (_stats b) = 0 /\ consecutive_failures (_stats b) = 0.
Proof.
  cbv zeta.
  rewrite (excluded_exceptions_are_not_failures
             [(key_error_func, at_time 1); (key_error_func, at_time 2);
              (key_error_func, at_time 3)]
             (new_breaker "lenient" lenient_config) 0%nat).
  - repeat split.
  - discriminate.
  - repeat constructor; apply key_error_func_excluded.
Defined.

End BreakerInvariants.

(** ** Job table: statistics, clean-up, listing *)
Module JobTableFacts.
Import AsyncExecution JobTable.

Section Table.
Context {R : Type}.
Implicit Types (m : AsyncExecutionManager R) (job j : AsyncJob R).

Lemma count_job_stat (s s' : JobStatus) (st : job_stats) :
  stat_of s (count_job s' st) = stat_of s st + (if decide (s' = s) then 1 else 0).
Proof. destruct s, s'; destruct (decide _); try congruence; cbn; lia. Qed.

Lemma size_filter_insert (P : string * AsyncJob R -> Prop)
    `{!forall kv, Decision (P kv)} (jobs : gmap string (AsyncJob R)) i x :
  jobs !! i = None ->
  size (filter P (<[i := x]> jobs)) =
  (size (filter P jobs) + (if decide (P (i, x)) then 1 else 0))%nat.
Proof.
  intros Hi. destruct (decide (P (i, x))) as [Hp|Hp].
  - rewrite map_filter_insert_True by done.
    rewrite map_size_insert_None by (by rewrite map_lookup_filter, Hi).
    lia.
  - rewrite map_filter_insert_not' by (done || (intros y Hy; congruence)).
    lia.
Qed.

Lemma fold_counts (jobs : gmap string (AsyncJob R)) (s : JobStatus) :
  stat_of s (map_fold (fun _ job st => count_job (status job) st) no_jobs jobs) =
  Z.of_nat (size (filter (fun kv => status kv.2 = s) jobs)).
Proof.
  apply (map_fold_weak_ind
           (fun (r : job_stats) (jobs : gmap string (AsyncJob R)) =>
              stat_of s r =
              Z.of_nat (size (filter (fun kv => status kv.2 = s) jobs)))).
  - rewrite map_filter_empty, map_size_empty. by destruct s.
  - intros i x jobs' r Hi IH. rewrite count_job_stat, IH.
    rewrite size_filter_insert by done. cbn.
    destruct (decide (status x = s)); lia.
Qed.

Lemma size_by_status (jobs : gmap string (AsyncJob R)) :
  (size (filter (fun kv => status kv.2 = PENDING) jobs) +
   size (filter (fun kv => status kv.2 = RUNNING) jobs) +
   size (filter (fun kv => status kv.2 = COMPLETED) jobs) +
   size (filter (fun kv => status kv.2 = FAILED) jobs) +
   size (filter (fun kv => status kv.2 = CANCELLED) jobs))%nat = size jobs.
Proof.
  induction jobs as [|i x jobs Hi IH] using map_ind.
  - by rewrite !map_filter_empty, map_size_empty.
  - rewrite map_size_insert_None by done. rewrite <- IH.
    rewrite !size_filter_insert by done. cbn.
    destruct (status x); repeat (destruct (decide _); try congruence); lia.
Qed.

(** [get_stats] adds up: each counter is the number of jobs of the table
    in that status, ["total"] is the number of jobs, and the five counters
    sum to the total. *)
Theorem get_stats_adds_up m :
  let st := get_stats m in
  (forall s, stat_of s st =
     Z.of_nat (size (filter (fun kv => status kv.2 = s) (_jobs m)))) /\
  n_total st = Z.of_nat (size (_jobs m)) /\
  n_pending st + n_running st + n_completed st + n_failed st + n_cancelled st
    = n_total st.
Proof.
  intros st.
  assert (Hs : forall s, stat_of s st =
     Z.of_nat (size (filter (fun kv => status kv.2 = s) (_jobs m)))).
  { intros s. unfold st, get_stats. rewrite <- fold_counts. by destruct s. }
  split; [exact Hs|]. split; [reflexivity|].
  pose proof (Hs PENDING) as H1. pose proof (Hs RUNNING) as H2.
  pose proof (Hs COMPLETED) as H3. pose proof (Hs FAILED) as H4.
  pose proof (Hs CANCELLED) as H5. cbn [stat_of] in H1, H2, H3, H4, H5.
  change (n_total st) with (Z.of_nat (size (_jobs m))).
  rewrite <- (size_by_status (_jobs m)). lia.
Qed.

Lemma lookup_foldr_delete (jobs : gmap string (AsyncJob R)) (ids : list string) i :
  foldr delete jobs ids !! i = if decide (i ∈ ids) then None else jobs !! i.
Proof.
  induction ids as [|k ids IH]; cbn.
  - destruct (decide (i ∈ [])) as [H|_]; [by apply elem_of_nil in H | done].
  - destruct (decide (k = i)) as [->|Hne].
    + rewrite lookup_delete_eq.
      destruct (decide (i ∈ i :: ids)) as [_|H]; [done|].
      exfalso. apply H. constructor.
    + rewrite lookup_delete_ne by done. rewrite IH.
      destruct (decide (i ∈ ids)) as [Hin|Hout];
        destruct (decide (i ∈ k :: ids)) as [Hin'|Hout']; try done.
      * exfalso. apply Hout'. by constructor.
      * apply elem_of_cons in Hin' as [->|?]; done.
Qed.

Lemma cleanup_jobs (now age : Q) m :
  _jobs (cleanup_old_jobs now age m).2 =
  filter (fun kv => ~ expired now age kv.2 = true) (_jobs m).
Proof.
  apply map_eq. intros i. cbn. rewrite lookup_foldr_delete.
  rewrite map_lookup_filter.
  destruct (decide (i ∈ _)) as [Hin|Hout].
  - apply list_elem_of_fmap in Hin as ([k x] & -> & Hin).
    apply elem_of_map_to_list in Hin.
    apply map_lookup_filter_Some in Hin as [Hk Hx]. cbn in *.
    rewrite Hk. cbn. by rewrite option_guard_False by tauto.
  - destruct (_jobs m !! i) as [x|] eqn:Hi; [|done]. cbn.
    rewrite option_guard_True; [done|]. cbn. intros Hx. apply Hout.
    apply list_elem_of_fmap. exists (i, x). split; [done|].
    apply elem_of_map_to_list. by apply map_lookup_filter_Some.
Qed.

(** [cleanup_old_jobs] removes exactly the finished jobs whose
    completion lies more than [max_age_seconds] back: a job is gone
    afterwards if it was [COMPLETED], [FAILED] or [CANCELLED] with a
    completion time older than that, and is still there unchanged otherwise,
    so a pending or running job is never removed, however old.  The number
    returned is the number of jobs removed, the table of running tasks is not
    touched, and a second clean-up at the same time removes nothing. *)
Theorem cleanup_removes_only_expired (now age : Q) m :
  let out := cleanup_old_jobs now age m in
  (forall id, get_job id out.2 =
     match get_job id m with
     | Some job => if expired now age job then None else Some job
     | None => None
     end) /\
  (forall id job, get_job id m = Some job ->
     status job = PENDING \/ status job = RUNNING ->
     get_job id out.2 = Some job) /\
  (forall id job, get_job id m = Some job -> get_job id out.2 = None ->
     exists ended, completed_at job = Some ended /\ (age < now - ended)%Q) /\
  out.1 + Z.of_nat (size (_jobs out.2)) = Z.of_nat (size (_jobs m)) /\
  _running_tasks out.2 = _running_tasks m /\
  cleanup_old_jobs now age out.2 = (0, out.2).
Proof.
  intros out.
  assert (Hget : forall id, get_job id out.2 =
     match get_job id m with
     | Some job => if expired now age job then None else Some job
     | None => None
     end).
  { intros id. unfold get_job, out. rewrite cleanup_jobs, map_lookup_filter.
    destruct (_jobs m !! id) as [job|]; [|done]. cbn.
    destruct (expired now age job) eqn:He.
    - by rewrite option_guard_False by tauto.
    - by rewrite option_guard_True by done. }
  split; [exact Hget|]. split; [|split; [|split; [|split]]].
  - intros id job Hjob Hst. rewrite Hget, Hjob.
    unfold expired. by destruct Hst as [-> | ->].
  - intros id job Hjob Hgone. rewrite Hget, Hjob in Hgone.
    unfold expired in Hgone.
    destruct (finished (status job)); cbn in Hgone; [|done].
    destruct (completed_at job) as [ended|]; [|done].
    exists ended. split; [done|].
    by destruct (Qlt_le_dec age (now - ended)).
  - unfold out at 1. cbn [fst cleanup_old_jobs].
    rewrite length_fmap, length_map_to_list. unfold out. rewrite cleanup_jobs.
    rewrite <- Nat2Z.inj_add.
    rewrite <- (map_size_disj_union _ _ (map_disjoint_filter_complement _ _)).
    by rewrite map_filter_union_complement.
  - reflexivity.
  - assert (Hnone : filter (fun kv => expired now age kv.2 = true) (_jobs out.2) = ∅).
    { apply map_empty. intros i. apply map_lookup_filter_None. right.
      intros x Hx. fold (get_job i out.2) in Hx. rewrite Hget in Hx.
      destruct (get_job i m) as [job|]; [|done].
      destruct (expired now age job) eqn:He; [done|].
      injection Hx as <-. cbn. by rewrite He. }
    unfold cleanup_old_jobs at 1. rewrite Hnone, map_to_list_empty. cbn.
    by destruct out.2.
Qed.








(** The loop of [_send_webhook], entered at attempt [attempt], when the
    attempts before [stop] fail. *)
Lemma webhook_loop_rounds (post : Z -> bool) cfg (payload : webhook_payload R)
    (rounds : nat) :
  forall attempt remaining,
    (forall b, attempt <= b < attempt + Z.of_nat rounds -> post b = false) ->
    attempt + Z.of_nat rounds < retry_count cfg ->
    webhook_loop post cfg payload (rounds + remaining) attempt =
    flat_map (failed_round payload) (seqZ attempt (Z.of_nat rounds)) ++
    webhook_loop post cfg payload remaining (attempt + Z.of_nat rounds).
Proof.
  induction rounds as [|rounds IH]; intros attempt remaining Hfail Hlt.
  - cbn. by rewrite Z.add_0_r.
  - cbn [Nat.add webhook_loop]. rewrite Hfail by lia.
    destruct (Z.ltb_spec attempt (retry_count cfg - 1)); [|lia].
    rewrite IH by (try (intros b Hb; apply Hfail); lia).
    replace (Z.of_nat (S rounds)) with (Z.succ (Z.of_nat rounds)) by lia.
    rewrite (seqZ_cons attempt) by lia. cbn [flat_map failed_round app].
    replace (Z.pred (Z.succ (Z.of_nat rounds))) with (Z.of_nat rounds) by lia.
    replace (Z.succ attempt) with (attempt + 1) by lia.
    replace (attempt + 1 + Z.of_nat rounds)
      with (attempt + Z.succ (Z.of_nat rounds)) by lia.
    reflexivity.
Qed.

(** The webhook is POSTed until it goes through, [retry_count] times at
    most.  With no retries allowed ([retry_count <= 0]) nothing is sent at
    all.  Otherwise the attempts are numbered from 0, each failed attempt
    but the last allowed one is followed by a sleep of [2 ** attempt]
    seconds, and the first attempt that goes through ends the delivery; when
    none does, the last attempt is not followed by a sleep.  Every POST
    carries the same payload, whose [result] is the job's result only when
    the job is [COMPLETED]. *)
Theorem webhook_is_posted_until_delivered (post : Z -> bool) (job : AsyncJob R)
    (cfg : WebhookConfig) :
  webhook job = Some cfg ->
  let events := _send_webhook post job in
  let payload := payload_of job in
  (retry_count cfg <= 0 -> events = []) /\
  (forall a, 0 <= a < retry_count cfg -> post a = true ->
     (forall b, 0 <= b < a -> post b = false) ->
     events = flat_map (failed_round payload) (seqZ 0 a) ++
              [Posted a payload true]) /\
  (1 <= retry_count cfg ->
   (forall b, 0 <= b < retry_count cfg -> post b = false) ->
     events = flat_map (failed_round payload) (seqZ 0 (retry_count cfg - 1)) ++
              [Posted (retry_count cfg - 1) payload false]) /\
  (wp_result payload = if decide (status job = COMPLETED) then result job else None).
Proof.
  intros Hhook events payload. subst events. unfold _send_webhook. rewrite Hhook.
  fold payload. split; [|split; [|split]].
  - intros Hle. by replace (Z.to_nat (retry_count cfg)) with 0%nat by lia.
  - intros a Ha Hpost Hfail.
    replace (Z.to_nat (retry_count cfg))
      with (Z.to_nat a + S (Z.to_nat (retry_count cfg - a - 1)))%nat by lia.
    rewrite webhook_loop_rounds by (try (intros b Hb; apply Hfail); lia).
    rewrite Z2Nat.id by lia. cbn [Z.add webhook_loop].
    replace (0 + a) with a by lia. by rewrite Hpost.
  - intros Hpos Hfail.
    replace (Z.to_nat (retry_count cfg))
      with (Z.to_nat (retry_count cfg - 1) + 1)%nat by lia.
    rewrite webhook_loop_rounds by (try (intros b Hb; apply Hfail); lia).
    rewrite Z2Nat.id by lia. cbn [webhook_loop].
    replace (0 + (retry_count cfg - 1)) with (retry_count cfg - 1) by lia.
    rewrite Hfail by lia.
    destruct (Z.ltb_spec (retry_count cfg - 1) (retry_count cfg - 1)); [lia|].
    reflexivity.
  - unfold payload, payload_of. cbn. by destruct (status job).
Qed.

End Table.

Lemma webhook_is_posted_until_delivered_witness :
  let job := {| job_id := "job-1"; plan_id := "plan-123"; status := COMPLETED;
                created_at := 0; started_at := Some 1%Q; completed_at := Some 2%Q;
                result := Some "complete"; error := None;
                webhook := Some sample_hook |} in
  _send_webhook (fun a => 1 <=? a) job =
  [Posted 0 (payload_of job) false; Slept 1; Posted 1 (payload_of job) true].
Proof.
  intros job.
  destruct (webhook_is_posted_until_delivered (fun a => 1 <=? a) job sample_hook
              eq_refl) as (_ & Hfirst & _).
  rewrite (Hfirst 1); [reflexivity | done | reflexivity |].
  intros b Hb. replace b with 0 by lia. reflexivity.
Defined.

End JobTableFacts.

(** ** Validation: what the normalisers return *)
Module NormalisationFacts.
Import Validation Normalisation.

Lemma lstrip_idem (s : string) : lstrip (lstrip s) = lstrip s.
Proof.
  induction s as [|c s IH]; cbn; [done|].
  destruct (is_space c) eqn:Hc; [done|]. cbn. by rewrite Hc.
Qed.

Lemma rstrip_cons (c a : ascii) (t kept : string) :
  rstrip t = String a kept -> rstrip (String c t) = String c (String a kept).
Proof. intros H. cbn. by rewrite H. Qed.

Lemma rstrip_idem (s : string) : rstrip (rstrip s) = rstrip s.
Proof.
  induction s as [|c s IH]; cbn; [done|].
  destruct (rstrip s) as [|c' kept] eqn:Hs.
  - destruct (is_space c) eqn:Hc; cbn; [done|]. by rewrite Hc.
  - by apply rstrip_cons.
Qed.

(** Stripping the right end keeps a left end that is already clean. *)
Lemma lstrip_rstrip (s : string) : lstrip s = s -> lstrip (rstrip s) = rstrip s.
Proof.
  destruct s as [|c s]; cbn; [done|].
  destruct (is_space c) eqn:Hc.
  - intros H. exfalso.
    assert (Hlen : forall t, (String.length (lstrip t) <= String.length t)%nat).
    { induction t as [|a t IH]; cbn; [lia|]. destruct (is_space a); cbn; lia. }
    specialize (Hlen s). rewrite H in Hlen. cbn in Hlen. lia.
  - intros _. destruct (rstrip s); cbn; by rewrite Hc.
Qed.

Lemma strip_idem (s : string) : strip (strip s) = strip s.
Proof.
  unfold strip.
  rewrite lstrip_rstrip by apply lstrip_idem. apply rstrip_idem.
Qed.

Lemma rstrip_nonempty (c : ascii) (s : string) :
  is_space c = false -> rstrip (String c s) <> "".
Proof. intros Hc. cbn. destruct (rstrip s); by rewrite ?Hc. Qed.

(** The last character [rstrip] keeps is not whitespace. *)
Lemma rstrip_last (s : string) :
  match List.last (Some <$> chars (rstrip s)) None with
  | Some c => is_space c = false
  | None => rstrip s = ""
  end.
Proof.
  induction s as [|c s IH]; cbn; [done|].
  destruct (rstrip s) as [|c' kept] eqn:Hs.
  - destruct (is_space c) eqn:Hc; cbn; done.
  - cbn [chars fmap list_fmap] in *.
    replace (List.last (Some c :: Some c' :: (Some <$> chars kept)) None)
      with (List.last (Some c' :: (Some <$> chars kept)) None) by reflexivity.
    destruct (List.last _ None); done.
Qed.

Lemma lstrip_first (s : string) :
  match lstrip s with
  | String c _ => is_space c = false
  | EmptyString => True
  end.
Proof.
  induction s as [|c s IH]; cbn; [done|].
  destruct (is_space c) eqn:Hc; [exact IH | exact Hc].
Qed.

(** A plan id leaves [validate_plan_id] in normal form: what is
    returned is the argument without its surrounding whitespace, is not
    empty, starts and ends with a character that is not whitespace, and is
    returned unchanged when validated again. *)
Theorem validate_plan_id_normal_form (given p : string) :
  validate_plan_id (Some given) = Returned p ->
  p = strip given /\ p <> "" /\
  validate_plan_id (Some p) = Returned p /\
  (exists c rest, p = String c rest /\ is_space c = false) /\
  (exists c, List.last (Some <$> chars p) None = Some c /\ is_space c = false).
Proof.
  unfold validate_plan_id. destruct (String.eqb_spec (strip given) "") as [|Hne]; [done|].
  intros [= <-]. split; [done|]. split; [done|]. split; [|split].
  - rewrite strip_idem. by destruct (String.eqb_spec (strip given) "").
  - pose proof (lstrip_first given) as Hfirst. unfold strip in *.
    destruct (lstrip given) as [|c rest] eqn:Hl; [done|].
    exists c. cbn. cbn in Hne.
    destruct (rstrip rest) as [|c' kept]; rewrite Hfirst; cbn; eauto.
  - pose proof (rstrip_last (lstrip given)) as Hlast. unfold strip in *.
    destruct (List.last _ None) as [c|]; [eauto | done].
Qed.

Lemma lower_char_not_space (c : ascii) :
  is_space c = false -> is_space (lower_char c) = false.
Proof. destruct c as [[] [] [] [] [] [] [] []]; vm_compute; done. Qed.

Lemma space_to_underscore_not_space (c : ascii) :
  is_space c = false -> is_space (space_to_underscore c) = false.
Proof. destruct c as [[] [] [] [] [] [] [] []]; vm_compute; done. Qed.

Lemma normal_char (c : ascii) :
  let n := space_to_underscore (lower_char c) in
  space_to_underscore (lower_char n) = n /\ n <> " "%char /\ lower_char n = n.
Proof. destruct c as [[] [] [] [] [] [] [] []]; vm_compute; done. Qed.

(** A change of characters that makes no whitespace keeps a string
    free of surrounding whitespace. *)
Lemma map_chars_trimmed (f : ascii -> ascii) (s : string) :
  (forall c, is_space c = false -> is_space (f c) = false) ->
  trimmed s -> trimmed (map_chars f s).
Proof.
  intros Hf. unfold trimmed, strip. intros Hs.
  assert (Hl : lstrip s = s).
  { pose proof (f_equal lstrip Hs) as H.
    rewrite lstrip_rstrip in H by apply lstrip_idem.
    rewrite Hs in H. exact (eq_sym H). }
  rewrite Hl in Hs.
  assert (Hl' : lstrip (map_chars f s) = map_chars f s).
  { destruct s as [|c s]; cbn in *; [done|].
    destruct (is_space c) eqn:Hc.
    - exfalso.
      assert (Hlen : forall t, (String.length (lstrip t) <= String.length t)%nat).
      { induction t as [|a t IH]; cbn; [lia|]. destruct (is_space a); cbn; lia. }
      specialize (Hlen s). rewrite Hl in Hlen. cbn in Hlen. lia.
    - by rewrite Hf. }
  rewrite Hl'. clear Hl Hl'.
  induction s as [|c s IH]; cbn in *; [done|].
  destruct (rstrip s) as [|a kept] eqn:Hr.
  - destruct (is_space c) eqn:Hc; [done|].
    injection Hs as <-. cbn. by rewrite Hf.
  - injection Hs as Hs. rewrite IH by done.
    destruct s as [|b s]; [done|]. done.
Qed.

Lemma map_chars_compose (f g : ascii -> ascii) (s : string) :
  map_chars f (map_chars g s) = map_chars (fun c => f (g c)) s.
Proof. induction s as [|c s IH]; cbn; [done|]. by rewrite IH. Qed.

Lemma map_chars_ext (f g : ascii -> ascii) (s : string) :
  (forall c, f c = g c) -> map_chars f s = map_chars g s.
Proof. intros H. induction s as [|c s IH]; cbn; [done|]. by rewrite H, IH. Qed.

Lemma chars_map_chars (f : ascii -> ascii) (s : string) :
  chars (map_chars f s) = f <$> chars s.
Proof. induction s as [|c s IH]; cbn; [done|]. by rewrite IH. Qed.

Lemma validate_plan_id_normal_form_witness :
  "plan-123" = strip "  plan-123 " /\ "plan-123" <> "" /\
  validate_plan_id (Some "plan-123") = Returned "plan-123" /\
  (exists c rest, "plan-123" = String c rest /\ is_space c = false) /\
  (exists c, List.last (Some <$> chars "plan-123") None = Some c /\
             is_space c = false).
Proof.
  apply (validate_plan_id_normal_form "  plan-123 " "plan-123"). reflexivity.
Defined.

(** [validate_document_type] normalises and never rejects a string.
    [None] gives ["memorandum"]; a string gives itself stripped, lower-cased
    and with its spaces turned into underscores, whether or not that is one
    of the known types: what is returned has no surrounding whitespace, no
    space and no capital letter, is returned unchanged when validated again,
    and is the empty string (not the default) for a blank argument.  Each of
    the six known types is returned as it is.  Any other kind of value is a
    [ValidationError]. *)
Theorem validate_document_type_normalises :
  validate_document_type VNone = Returned "memorandum" /\
  (forall given, exists n,
     validate_document_type (VStr given) = Returned n /\
     validate_document_type (VStr n) = Returned n /\
     trimmed n /\
     Forall (fun c => c <> " "%char /\ lower_char c = c) (chars n) /\
     (strip given = "" -> n = "")) /\
  (forall t, t ∈ valid_types -> validate_document_type (VStr t) = Returned t) /\
  (forall v, v <> VNone -> (forall s, v <> VStr s) ->
     exists e, validate_document_type v = Raised e /\
               exn_class e = "ValidationError").
Proof.
  split; [done|]. split; [|split].
  - intros given. eexists. split; [reflexivity|].
    unfold spaces_to_underscores, lower. rewrite map_chars_compose.
    set (g := fun c => space_to_underscore (lower_char c)).
    assert (Htrim : trimmed (map_chars g (strip given))).
    { apply map_chars_trimmed; [|apply strip_idem].
      intros c Hc. by apply space_to_underscore_not_space, lower_char_not_space. }
    split; [|split; [exact Htrim|split]].
    + cbn. unfold spaces_to_underscores, lower.
      rewrite Htrim, !map_chars_compose. f_equal.
      apply map_chars_ext. intros c. apply (normal_char c).
    + rewrite chars_map_chars. apply Forall_fmap, Forall_true.
      intros c. cbn. pose proof (normal_char c) as H. cbv zeta in H. tauto.
    + by intros ->.
  - intros t Ht. unfold valid_types in Ht.
    repeat (apply elem_of_cons in Ht as [->|Ht]; [reflexivity|]).
    by apply elem_of_nil in Ht.
  - intros v Hnone Hstr. destruct v; try (eexists; split; reflexivity).
    + done.
    + by specialize (Hstr s).
Qed.

(** [validate_jurisdiction] always names a jurisdiction when given a
    string or [None]: ["federal"] for [None] and for a blank string, the
    string without its surrounding whitespace otherwise; what is returned is
    never empty and is returned unchanged when validated again.  Any other
    kind of value is a [ValidationError]. *)
Theorem validate_jurisdiction_defaults :
  validate_jurisdiction VNone = Returned "federal" /\
  (forall given, exists j,
     validate_jurisdiction (VStr given) = Returned j /\
     j = (if String.eqb (strip given) "" then "federal" else strip given) /\
     j <> "" /\ trimmed j /\
     validate_jurisdiction (VStr j) = Returned j) /\
  (forall v, v <> VNone -> (forall s, v <> VStr s) ->
     exists e, validate_jurisdiction v = Raised e /\
               exn_class e = "ValidationError").
Proof.
  split; [done|]. split.
  - intros given. cbn.
    destruct (String.eqb_spec (strip given) "") as [Hblank|Hne].
    + exists "federal". repeat split; done.
    + exists (strip given). split; [done|]. split; [done|]. split; [done|].
      split; [apply strip_idem|].
      rewrite strip_idem. by destruct (String.eqb_spec (strip given) "").
  - intros v Hnone Hstr. destruct v; try (eexists; split; reflexivity).
    + done.
    + by specialize (Hstr s).
Qed.

End NormalisationFacts.

(** ** Service: artifacts, reads after writes, resuming, streaming *)
Module ServiceLaws.
Import Retry Validation Service ServiceTerms.

Lemma find_nested_unfold (name : string) (items : dict) :
  _find_nested_artifact name (VDict items) = search_values name items.
Proof.
  cbn [_find_nested_artifact].
  induction items as [|[k v] rest IH]; [reflexivity|].
  cbn [search_values]. destruct v; try exact IH.
  destruct (dict_get items name); [reflexivity|].
  rewrite <- IH. reflexivity.
Qed.

Lemma held_below_cons (name : string) (v : value) (kv : string * value) (rest : dict) :
  held_below name v rest -> held_below name v (kv :: rest).
Proof.
  intros [k inner p Hin Hget | k inner p Hin Hbelow].
  - eapply held_in_child; [|exact Hget]. by apply list_elem_of_further.
  - eapply held_deeper; [|exact Hbelow]. by apply list_elem_of_further.
Qed.

Lemma nested_search_sound (name : string) (payload : value) :
  forall items, payload = VDict items ->
  _find_nested_artifact name payload <> VNone ->
  held_below name (_find_nested_artifact name payload) items.
Proof.
  induction payload as [| | | | |items IH] using value_induction;
    intros items' Heq; try discriminate.
  injection Heq as <-. rewrite find_nested_unfold.
  induction IH as [|[k v] rest Hv _ IHrest]; cbn [search_values]; [done|].
  destruct v as [| | | | |inner];
    try (intros Hfound; apply held_below_cons, IHrest, Hfound).
  destruct (dict_get inner name) as [found|] eqn:Hget.
  - intros _. eapply held_in_child; [apply list_elem_of_here | exact Hget].
  - assert (Hinner : _find_nested_artifact name (VDict inner) <> VNone ->
             held_below name (_find_nested_artifact name (VDict inner)) inner)
      by exact (Hv inner eq_refl).
    destruct (_find_nested_artifact name (VDict inner)) eqn:Hnested;
      try (intros _; eapply held_deeper;
           [apply list_elem_of_here | apply Hinner; discriminate]).
    intros Hfound. apply held_below_cons, IHrest, Hfound.
Qed.

(** [_find_nested_artifact] looks below the top level only, and only
    into dictionaries.  A value it returns other than [None] is stored under
    the name in a dictionary nested in the payload; it returns [None] for a
    payload none of whose values is a dictionary (whatever the payload holds
    under the name itself, and whatever its lists hold) and for a payload
    that is not a dictionary.  The first nested dictionary that has the key
    decides: its value is returned as it is, also when it is [None], and the
    values after it are not searched. *)
Theorem nested_search_looks_below (name : string) (payload : dict) :
  (_find_nested_artifact name (VDict payload) <> VNone ->
     held_below name (_find_nested_artifact name (VDict payload)) payload) /\
  ((forall k inner, (k, VDict inner) ∉ payload) ->
     _find_nested_artifact name (VDict payload) = VNone) /\
  (forall v, (forall items, v <> VDict items) ->
     _find_nested_artifact name v = VNone) /\
  (forall front k inner back v,
     payload = front ++ (k, VDict inner) :: back ->
     (forall k' d, (k', VDict d) ∈ front ->
        dict_get d name = None /\
        _find_nested_artifact name (VDict d) = VNone) ->
     dict_get inner name = Some v ->
     _find_nested_artifact name (VDict payload) = v).
Proof.
  split; [|split; [|split]].
  - by apply nested_search_sound.
  - rewrite find_nested_unfold.
    induction payload as [|[k v] rest IH]; intros Hno; [done|].
    cbn [search_values].
    assert (Hrest : search_values name rest = VNone).
    { apply IH. intros k' inner Hin. apply (Hno k' inner).
      by apply list_elem_of_further. }
    destruct v; try exact Hrest.
    exfalso. eapply Hno. apply list_elem_of_here.
  - intros v Hv. destruct v; try reflexivity. by specialize (Hv items).
  - intros front k inner back v -> Hfront Hget. rewrite find_nested_unfold.
    induction front as [|[k' v'] front IH]; cbn [app search_values].
    + by rewrite Hget.
    + assert (Hrest : search_values name (front ++ (k, VDict inner) :: back) = v).
      { apply IH. intros k'' d Hin. apply (Hfront k'' d).
        by apply list_elem_of_further. }
      destruct v' as [| | | | |d]; try exact Hrest.
      destruct (Hfront k' d) as [Hd Hn]; [apply list_elem_of_here|].
      by rewrite Hd, Hn.
Qed.

(** [_collect_expected_artifacts] holds what is advertised and found:
    a name is a key of the result exactly when an entry of
    [expected_artifacts] advertises it (a dictionary with a non-empty
    ["name"]) and the payload holds a value other than [None] for it, at top
    level or else nested; the value stored is that value, the one at top
    level when there is one; no key is stored twice and nothing is collected
    from an empty list. *)
Theorem collect_holds_advertised (payload : dict) (expected : list value) :
  let collected := _collect_expected_artifacts payload expected in
  unique_keys collected /\
  (forall name v,
     dict_get collected name = Some v <->
     name ∈ advertised expected /\ v = find_artifact payload name /\ v <> VNone) /\
  (forall name v,
     name ∈ advertised expected -> dict_get payload name = Some v ->
     v <> VNone -> dict_get collected name = Some v) /\
  (forall name v,
     name ∈ advertised expected -> dict_get_or_none payload name = VNone ->
     _find_nested_artifact name (VDict payload) = v -> v <> VNone ->
     dict_get collected name = Some v) /\
  (expected = [] -> collected = []).
Proof.
  intros collected.
  assert (Hget : forall name,
    dict_get collected name =
      if decide (name ∈ advertised expected /\
                 is_none (find_artifact payload name) = false)
      then Some (find_artifact payload name) else None)
    by (intros name; apply ServiceFacts.collect_get).
  assert (Hnone : forall v, is_none v = false <-> v <> VNone)
    by (intros v; destruct v; cbn; split; congruence).
  split; [apply (ServiceFacts.collect_get payload expected "")|].
  split; [|split; [|split]].
  - intros name v. rewrite Hget.
    destruct (decide _) as [[Hin Hv]|Hno].
    + split.
      * intros [= <-]. by rewrite <- Hnone.
      * by intros (_ & -> & _).
    + split; [done|]. intros (Hin & -> & Hv). exfalso. apply Hno.
      by rewrite Hnone.
  - intros name v Hin Hv Hsome. rewrite Hget.
    assert (Hfind : find_artifact payload name = v).
    { unfold find_artifact, dict_get_or_none. rewrite Hv. cbn.
      by destruct v. }
    rewrite Hfind. rewrite decide_True; [done|]. by rewrite Hnone.
  - intros name v Hin Htop Hnested Hsome. rewrite Hget.
    assert (Hfind : find_artifact payload name = v).
    { unfold find_artifact. by rewrite Htop. }
    rewrite Hfind. rewrite decide_True; [done|]. by rewrite Hnone.
  - by intros ->.
Qed.

Section Engine.
Variable C : collaborators.

(** What was saved is what the next load gives, whether the cache is
    still fresh or has expired. *)
Lemma load_after_save (s : service) :
  state (_load_state C (_save_state C s)) = state s /\
  repository (_load_state C (_save_state C s)) = state s.
Proof.
  unfold _load_state, _save_state. cbn.
  destruct (Qlt_le_dec _ _); done.
Qed.

Lemma reads_after_persist (k : string) (p : Plan) (r : execution_record)
    (s : service) :
  let s' := persist C k p r s in
  get_plan C k s' = (Returned p, _load_state C s') /\
  get_execution C k s' = (Returned r, _load_state C s') /\
  get_artifacts C k s' = (Returned (er_artifacts r), _load_state C s').
Proof.
  intros s'. unfold get_plan, get_execution, get_artifacts.
  assert (Hst : state (_load_state C s') =
                remember_execution k r (remember_plan k p (state s))).
  { unfold s', persist. by rewrite (proj1 (load_after_save _)). }
  rewrite Hst. unfold recall_plan, recall_execution. cbn.
  by rewrite !lookup_insert_eq.
Qed.

(** The read accessors return what the service last wrote, whatever
    the clock reads and whether or not the cache has expired in between:
    after [plan()], [get_plan()] of the new id returns the plan [plan()]
    returned, which is ["planned"]; after [execute()] and [re_execute()],
    [get_execution()] returns the execution record they returned,
    [get_artifacts()] its artifacts, and [get_plan()] a plan carrying the
    record's status; after a complete [execute_stream()] the same reads give
    the record whose status, plan id and artifact count the last event
    announced. *)
Theorem reads_follow_writes (m : option value) (k : option string)
    (uuid k' : string) (from_step : option string) (resume_from_failure : bool)
    (s : service) :
  (forall p s',
     plan C m uuid s = (Returned p, s') ->
     get_plan C uuid s' = (Returned p, _load_state C s') /\
     plan_id p = uuid /\ plan_status p = "planned") /\
  (forall r s' log,
     execute C m k uuid s = (Returned r, s', log) ->
     get_execution C (er_plan_id r) s' = (Returned r, _load_state C s') /\
     get_artifacts C (er_plan_id r) s' =
       (Returned (er_artifacts r), _load_state C s') /\
     exists p, get_plan C (er_plan_id r) s' = (Returned p, _load_state C s') /\
               plan_status p = er_status r) /\
  (forall r s' log,
     re_execute C k' from_step resume_from_failure s = (Returned r, s', log) ->
     er_plan_id r = k' /\ re_execution r = true /\
     get_execution C k' s' = (Returned r, _load_state C s') /\
     get_artifacts C k' s' = (Returned (er_artifacts r), _load_state C s') /\
     exists p, get_plan C k' s' = (Returned p, _load_state C s') /\
               plan_status p = er_status r) /\
  (forall events s' log,
     execute_stream C m k uuid s = (events, None, s', log) ->
     exists r p,
       get_execution C (er_plan_id r) s' = (Returned r, _load_state C s') /\
       get_artifacts C (er_plan_id r) s' =
         (Returned (er_artifacts r), _load_state C s') /\
       get_plan C (er_plan_id r) s' = (Returned p, _load_state C s') /\
       plan_status p = er_status r /\
       last events = Some (execution_complete (er_status r) (er_plan_id r)
                             (Z.of_nat (length (er_artifacts r))))).
Proof.
  split; [|split; [|split]].
  - intros p s'. unfold plan.
    destruct (validate_matter _ _ _) as [vm|e]; [|done].
    intros [= <- <-]. cbn [plan_id plan_status]. split; [|done].
    unfold get_plan. rewrite (proj1 (load_after_save _)). cbn.
    unfold recall_plan. cbn. by rewrite lookup_insert_eq.
  - intros r s' log. unfold execute.
    destruct (resolve_plan C m k uuid s) as [[[p kk]|e] s1]; [|done].
    intros [= <- <- _]. cbn [er_plan_id record_of].
    destruct (reads_after_persist kk
                (with_outcome
                   (final_status (fold_left (execute_node C)
                      (topological_order C (graph_of C p))
                      (start_state p match steps p with
                                     | [] => to_linear_steps C (graph_of C p)
                                     | l => l
                                     end)))
                   (plan_steps (fold_left (execute_node C)
                      (topological_order C (graph_of C p))
                      (start_state p match steps p with
                                     | [] => to_linear_steps C (graph_of C p)
                                     | l => l
                                     end))) p)
                (record_of kk false
                   (fold_left (execute_node C)
                      (topological_order C (graph_of C p))
                      (start_state p match steps p with
                                     | [] => to_linear_steps C (graph_of C p)
                                     | l => l
                                     end))) s1) as (Hp & He & Ha).
    split; [exact He|]. split; [exact Ha|]. eexists. split; [exact Hp|done].
  - intros r s' log. unfold re_execute.
    destruct (recall_plan k' (state (_load_state C s))) as [p|]; [|done].
    destruct (match recall_execution k' (state (_load_state C s)) with
              | Some prev => _ | None => _ end) as [st1 met].
    destruct (fold_left _ _ _) as [st past].
    intros [= <- <- _]. cbn [er_plan_id record_of re_execution].
    destruct (reads_after_persist k'
                (with_outcome (final_status st) (steps p) p)
                (record_of k' true st) (_load_state C s)) as (Hp & He & Ha).
    split; [done|]. split; [done|]. split; [exact He|]. split; [exact Ha|].
    eexists. split; [exact Hp|done].
  - intros events s' log. unfold execute_stream.
    destruct (resolve_plan C m k uuid s) as [[[p kk]|e] s1]; [|done].
    destruct (fold_left _ _ _) as [[st evs] n].
    intros [= <- <- _].
    destruct (reads_after_persist kk
                (with_outcome (final_status st)
                   match steps p with
                   | [] => to_linear_steps C (graph_of C p)
                   | l => l
                   end p)
                (record_of kk false st) s1) as (Hp & He & Ha).
    exists (record_of kk false st). eexists.
    cbn [er_plan_id record_of er_status er_artifacts].
    split; [exact He|]. split; [exact Ha|]. split; [exact Hp|].
    split; [done|]. by rewrite last_snoc.
Qed.

(** What one plain run records: one step result, for this step, and an
    error message exactly when the result is [failed]. *)
Lemma run_plain_outcome (st : loop_state) (s : step) :
  exists x,
    steps_results (run_plain C st s).1 = steps_results st ++ [x] /\
    plan_steps (run_plain C st s).1 = plan_steps st /\
    sr_id x = id s /\ sr_agent x = agent s /\ sr_phase x = phase s /\
    match (run_plain C st s).2 with
    | Some message =>
        status (sr x) = Some "failed" /\ error (sr x) = Some message
    | None =>
        status (sr x) = Some "complete" \/
        status (sr x) = Some "attention_required"
    end.
Proof.
  unfold run_plain.
  destruct (agents C !! agent s) as [a|].
  2: { cbn. eexists. repeat split. }
  destruct (invoke C a _ _) as [input out n|e [input|]].
  - destruct (evaluate_exit_conditions C _ _); cbn [fst snd];
      unfold hoist_if_any, with_artifacts, note_attempts;
      destruct (_collect_expected_artifacts _ _); destruct (1 <? n);
      cbn; eexists; repeat split; tauto.
  - cbn. eexists. repeat split.
  - cbn. eexists. repeat split.
Qed.

Lemma plain_walk_snoc (nodes : list step) (node : step) (st : loop_state) :
  plain_walk C (nodes ++ [node]) st =
  (run_plain C (plain_walk C nodes st)
     (step_of (plan_steps (plain_walk C nodes st)) node)).1.
Proof. unfold plain_walk. by rewrite fold_left_app. Qed.

(** The plain walk adds one step result per node, in order. *)
Lemma plain_walk_results (nodes : list step) :
  forall st, exists fresh,
    steps_results (plain_walk C nodes st) = steps_results st ++ fresh /\
    plan_steps (plain_walk C nodes st) = plan_steps st /\
    map sr_id fresh = map id nodes.
Proof.
  induction nodes as [|node nodes IH]; intros st.
  - exists []. by rewrite app_nil_r.
  - change (plain_walk C (node :: nodes) st)
      with (plain_walk C nodes (run_plain C st (step_of (plan_steps st) node)).1).
    destruct (run_plain_outcome st (step_of (plan_steps st) node))
      as (x & Hx & Hp & Hid & _).
    destruct (IH (run_plain C st (step_of (plan_steps st) node)).1)
      as (fresh & Hf & Hp' & Hids).
    exists (x :: fresh). rewrite Hf, Hx, <- app_assoc. split; [done|].
    split; [congruence|]. cbn. rewrite Hids, Hid.
    by rewrite ServiceFacts.step_of_id.
Qed.


(** The main loop of [re_execute] past its start point, over nodes
    with distinct ids none of which has a result yet. *)
Lemma re_execute_fold_all (start : option string) (nodes : list step) :
  NoDup (map id nodes) ->
  forall st,
    Forall (fun n => id n ∉ map sr_id (steps_results st)) nodes ->
    fold_left (re_execute_node C start) nodes (st, true) =
    (plain_walk C nodes st, true).
Proof.
  induction nodes as [|n nodes IH]; intros Hnd st Hnew; [done|].
  cbn [map] in Hnd. apply NoDup_cons in Hnd as [Hn Hnd].
  apply Forall_cons in Hnew as [Hfirst Hrest].
  cbn [fold_left]. unfold re_execute_node at 2. cbn [orb negb].
  rewrite ServiceFacts.step_of_id.
  destruct (existsb _ (steps_results st)) eqn:Hseen.
  { apply ServiceFacts.seen_spec in Hseen. done. }
  change (plain_walk C (n :: nodes) st)
    with (plain_walk C nodes (run_plain C st (step_of (plan_steps st) n)).1).
  apply IH; [done|].
  destruct (run_plain_outcome st (step_of (plan_steps st) n))
    as (x & Hx & _ & Hid & _).
  rewrite Hx, map_app. cbn [map]. rewrite Hid, ServiceFacts.step_of_id.
  apply Forall_forall. intros n' Hin Hold.
  apply elem_of_app in Hold as [Hold|Hold].
  - rewrite Forall_forall in Hrest. by apply (Hrest n').
  - apply list_elem_of_singleton in Hold. apply Hn.
    rewrite <- Hold. apply list_elem_of_fmap. by exists n'.
Qed.

(** The loop of [execute_stream] is the plain walk, and yields the
    events of the step results it adds. *)
Lemma stream_fold (total : Z) (nodes : list step) :
  forall st events current,
    exists fresh,
      steps_results (plain_walk C nodes st) = steps_results st ++ fresh /\
      map sr_id fresh = map id nodes /\
      fold_left (stream_node C total) nodes (st, events, current) =
      (plain_walk C nodes st,
       events ++ numbered_events total current fresh,
       current + Z.of_nat (length nodes)).
Proof.
  induction nodes as [|node nodes IH]; intros st events current.
  - exists []. cbn. by rewrite !app_nil_r, Z.add_0_r.
  - change (plain_walk C (node :: nodes) st)
      with (plain_walk C nodes (run_plain C st (step_of (plan_steps st) node)).1).
    cbn [fold_left]. unfold stream_node at 2.
    destruct (run_plain_outcome st (step_of (plan_steps st) node))
      as (x & Hx & _ & Hid & Hagent & Hphase & Hout).
    destruct (run_plain C st (step_of (plan_steps st) node)) as [st1 failure].
    cbn [fst snd] in *.
    match goal with
    | |- context [fold_left _ nodes (st1, ?evs, ?cur)] =>
        destruct (IH st1 evs cur) as (fresh & Hf & Hids & Hfold)
    end.
    exists (x :: fresh). rewrite Hf, Hx, <- app_assoc. split; [done|].
    split. { cbn. by rewrite Hid, Hids, ServiceFacts.step_of_id. }
    rewrite Hfold. f_equal; [|cbn [length]; lia]. f_equal.
    cbn [numbered_events]. rewrite <- !app_assoc. f_equal.
    unfold events_of, has_status. rewrite Hagent, Hphase. cbn [app]. do 2 f_equal.
    destruct failure as [message|].
    + destruct Hout as [Hs He]. rewrite Hs, He.
      by rewrite bool_decide_true by done.
    + rewrite bool_decide_false; [done|].
      destruct Hout as [Hs|Hs]; rewrite Hs; intros [=].
Qed.

Lemma numbered_events_length (total from : Z) (results : list step_result) :
  length (numbered_events total from results) = (2 * length results)%nat.
Proof.
  revert from. induction results as [|x rest IH]; intros from; [done|].
  cbn [numbered_events length app events_of]. rewrite IH. lia.
Qed.

(** What [execute_stream] yields can be read off the record it
    persists.  The events are [plan_created], then for each step result, in
    order and numbered from 1, [agent_started] followed by [agent_failed]
    (with the step's error) if the step is recorded as [failed] and by
    [agent_completed] otherwise (also for a step that ends as
    [attention_required]), then [execution_complete] with the record's
    status and artifact count: two events per node of the graph and two
    more.  There is one step result per node of the topological order, under
    the node's id. *)
Theorem stream_reports_every_step (m : option value) (k : option string)
    (uuid : string) (s : service) events s' log :
  execute_stream C m k uuid s = (events, None, s', log) ->
  exists r p kk s1,
    resolve_plan C m k uuid s = (Returned (p, kk), s1) /\
    recall_execution kk (repository s') = Some r /\ er_plan_id r = kk /\
    map sr_id (er_steps r) = map id (topological_order C (graph_of C p)) /\
    events =
      plan_created kk ::
      numbered_events (Z.of_nat (length (er_steps r))) 0 (er_steps r) ++
      [execution_complete (er_status r) kk (Z.of_nat (length (er_artifacts r)))] /\
    length events = (2 * length (er_steps r) + 2)%nat.
Proof.
  unfold execute_stream.
  destruct (resolve_plan C m k uuid s) as [[[p kk]|e] s1] eqn:Hplan; [|done].
  set (l := match steps p with
            | [] => to_linear_steps C (graph_of C p)
            | l => l
            end).
  set (nodes := topological_order C (graph_of C p)).
  destruct (stream_fold (Z.of_nat (length nodes)) nodes (start_state p l)
              [plan_created kk] 0) as (fresh & Hfresh & Hids & Hfold).
  rewrite Hfold. cbn [steps_results start_state app] in Hfresh.
  intros [= <- <- _].
  eexists (record_of kk false (plain_walk C nodes (start_state p l))), p, kk, s1.
  split; [done|].
  split; [apply ServiceFacts.persist_recall|]. split; [done|].
  cbn [er_steps er_status er_artifacts record_of]. rewrite Hfresh.
  assert (Hlen : length fresh = length nodes).
  { by rewrite <- (length_map sr_id fresh), Hids, length_map. }
  split; [exact Hids|]. split.
  - rewrite Hlen. reflexivity.
  - cbn [length app]. rewrite length_app, numbered_events_length. cbn [length]. lia.
Qed.

(** The characterisation of a re-execution without a start point. *)
Lemma start_point_none (from_step : option string) (resume_from_failure : bool)
    (previous : option execution_record) :
  (from_step = None \/ from_step = Some "") ->
  (resume_from_failure = false \/ previous = None \/
   exists prev, previous = Some prev /\
     Forall (fun r => status (sr r) <> Some "failed") (er_steps prev)) ->
  start_point from_step resume_from_failure previous = None.
Proof.
  intros Hfrom Hwhy.
  assert (Hrest : match previous with
                  | Some prev =>
                      if resume_from_failure then
                        sr_id <$> find (fun r => bool_decide (status (sr r) = Some "failed"))
                                    (er_steps prev)
                      else None
                  | None => None
                  end = None).
  { destruct previous as [prev|]; [|done].
    destruct resume_from_failure; [|done].
    destruct Hwhy as [?|[?|(prev' & [= <-] & Hall)]]; try done.
    assert (Hfind : find (fun r => bool_decide (status (sr r) = Some "failed"))
                      (er_steps prev) = None).
    { induction Hall as [|r rest Hr _ IH]; [done|].
      cbn. by rewrite bool_decide_false by done. }
    by rewrite Hfind. }
  unfold start_point. by destruct Hfrom as [-> | ->].
Qed.

(** Without a start point, [re_execute] starts over.  When no step is
    named and there is nothing to resume from (resuming is switched off, or
    the plan was never executed, or its last execution has no [failed]
    step), every node of the graph is run again, in order, and nothing of
    the previous execution is carried over.  The step results, status,
    artifacts and agent invocations are those of [execute_stream] on the same
    stored plan: the records the two persist differ in [re_execution]
    only. *)
Theorem re_execute_starts_over (k uuid : string) (from_step : option string)
    (resume_from_failure : bool) (s : service) (p : Plan) :
  recall_plan k (state (_load_state C s)) = Some p ->
  (from_step = None \/ from_step = Some "") ->
  (resume_from_failure = false \/
   recall_execution k (state (_load_state C s)) = None \/
   exists prev, recall_execution k (state (_load_state C s)) = Some prev /\
     Forall (fun r => status (sr r) <> Some "failed") (er_steps prev)) ->
  NoDup (map id (topological_order C (graph_of C p))) ->
  let st := plain_walk C (topological_order C (graph_of C p))
              (start_state p (steps p)) in
  (exists s',
     re_execute C k from_step resume_from_failure s =
       (Returned (record_of k true st), s', calls st) /\
     recall_execution k (repository s') = Some (record_of k true st)) /\
  map sr_id (steps_results st) = map id (topological_order C (graph_of C p)) /\
  (steps p <> [] -> validate_plan_id (Some k) = Returned k ->
   exists events s1,
     execute_stream C None (Some k) uuid s = (events, None, s1, calls st) /\
     recall_execution k (repository s1) = Some (record_of k false st)).
Proof.
  intros Hp Hfrom Hwhy Hnd st.
  pose proof (start_point_none from_step resume_from_failure _ Hfrom Hwhy) as Hstart.
  split; [|split].
  - unfold re_execute. rewrite Hp, Hstart.
    assert (Hrestore :
      match recall_execution k (state (_load_state C s)), @None string with
      | Some prev, Some (String _ _ as start) =>
          restore start (er_steps prev) (start_state p (steps p))
      | _, _ => (start_state p (steps p), false)
      end = (start_state p (steps p), false))
      by (by destruct (recall_execution k _)).
    rewrite Hrestore. cbn [orb]. rewrite bool_decide_true by done. cbn [orb].
    rewrite re_execute_fold_all; [|done|].
    2: { apply Forall_forall. intros n _ Hin. cbn in Hin.
         by apply elem_of_nil in Hin. }
    fold st. eexists. split; [reflexivity|].
    apply ServiceFacts.persist_recall.
  - destruct (plain_walk_results (topological_order C (graph_of C p))
                (start_state p (steps p))) as (fresh & Hf & _ & Hids).
    fold st in Hf. by rewrite Hf.
  - intros Hsteps Hk. unfold execute_stream, resolve_plan, validate_execute_params.
    rewrite Hk, Hp.
    destruct (steps p) as [|s0 l] eqn:Hl; [done|].
    destruct (stream_fold
                (Z.of_nat (length (topological_order C (graph_of C p))))
                (topological_order C (graph_of C p)) (start_state p (s0 :: l))
                [plan_created k] 0) as (fresh & _ & _ & Hfold).
    rewrite Hfold. fold st. eexists _, _. split; [reflexivity|].
    apply ServiceFacts.persist_recall.
Qed.




Lemma run_supporting_keeps (s : step) (out : dict) (sup : supporting)
    (acc : loop_state * list support_result * bool) :
  collected (run_supporting C s out acc sup).1.1 = collected acc.1.1 /\
  steps_results (run_supporting C s out acc sup).1.1 = steps_results acc.1.1.
Proof.
  destruct acc as [[st outs] failed]. unfold run_supporting.
  destruct (agents C !! sup_agent sup) as [a|]; [|done].
  destruct (invoke C a _ _) as [input o n|e input]; [|done].
  unfold hoist_if_any. by destruct (_collect_expected_artifacts _ _).
Qed.

Lemma fold_supporting_keeps (s : step) (out : dict) (sups : list supporting) :
  forall acc,
    collected (fold_left (run_supporting C s out) sups acc).1.1 = collected acc.1.1 /\
    steps_results (fold_left (run_supporting C s out) sups acc).1.1 =
      steps_results acc.1.1.
Proof.
  induction sups as [|sup sups IH]; intros acc; [done|].
  cbn [fold_left]. destruct (IH (run_supporting C s out acc sup)) as [-> ->].
  apply run_supporting_keeps.
Qed.

Lemma annotate_keeps (node s : step) (st : loop_state) :
  collected (annotate node s st) = collected st /\
  steps_results (annotate node s st) = steps_results st.
Proof. unfold annotate. by destruct (find_step _ _). Qed.

(** What one node of [execute] does to the artifacts: the output of a
    run that completed is stored under the agent's name, and the step result
    carries it; any other run stores nothing and its result has no output. *)
Lemma execute_node_artifacts (st : loop_state) (node : step) :
  let s := step_of (plan_steps st) node in
  exists x,
    steps_results (execute_node C st node) = steps_results st ++ [x] /\
    sr_agent x = agent s /\
    collected (execute_node C st node) =
      match output (sr x) with
      | Some out => dict_set (collected st) (agent s) (VDict out)
      | None => collected st
      end.
Proof.
  intros s. unfold execute_node. fold s.
  destruct (agents C !! agent s) as [a|].
  2: { cbn. destruct (annotate_keeps node (with_written
         (fail_with ("Agent '" +:+ agent s +:+ "' is not registered")) s)
         (set_failed st)) as [-> ->]. eexists. repeat split. }
  destruct (invoke C a _ _) as [input out n|e called].
  2: { match goal with
       | |- context [annotate node ?s' ?st'] =>
           destruct (annotate_keeps node s' st') as [Hc Hr]
       end.
       cbn. rewrite Hc, Hr. cbn. eexists. repeat split. }
  match goal with
  | |- context [fold_left (run_supporting C ?s' out) ?sups ?acc] =>
      destruct (fold_supporting_keeps s' out sups acc) as [Hc Hr];
      destruct (fold_left (run_supporting C s' out) sups acc)
        as [[st1 outputs] support_failed]
  end.
  cbn [fst] in Hc, Hr.
  assert (Hc1 : collected st1 = dict_set (collected st) (agent s) (VDict out)).
  { rewrite Hc. unfold hoist_if_any.
    by destruct (_collect_expected_artifacts _ _). }
  assert (Hr1 : steps_results st1 = steps_results st).
  { rewrite Hr. unfold hoist_if_any.
    by destruct (_collect_expected_artifacts _ _). }
  destruct support_failed.
  - match goal with
    | |- context [annotate node ?s' ?st'] =>
        destruct (annotate_keeps node s' st') as [Hc2 Hr2]
    end.
    cbn [push_result steps_results collected]. rewrite Hc2, Hr2, Hc1, Hr1.
    eexists. split; [reflexivity|].
    unfold with_artifacts, note_attempts.
    destruct outputs; destruct (_collect_expected_artifacts _ _);
      destruct (1 <? n); done.
  - destruct (evaluate_exit_conditions C _ _).
    + match goal with
      | |- context [annotate node ?s' ?st'] =>
          destruct (annotate_keeps node s' st') as [Hc2 Hr2]
      end.
      cbn [push_result steps_results collected]. rewrite Hc2, Hr2, Hc1, Hr1.
      eexists. split; [reflexivity|].
      unfold with_artifacts, note_attempts.
      destruct outputs; destruct (_collect_expected_artifacts _ _);
        destruct (1 <? n); done.
    + match goal with
      | |- context [annotate node ?s' ?st'] =>
          destruct (annotate_keeps node s' st') as [Hc2 Hr2]
      end.
      cbn [push_result steps_results collected]. rewrite Hc2, Hr2.
      cbn [set_needs_attention steps_results collected]. rewrite Hc1, Hr1.
      eexists. split; [reflexivity|].
      unfold with_artifacts, note_attempts.
      destruct outputs; destruct (_collect_expected_artifacts _ _);
        destruct (1 <? n); done.
Qed.

Lemma run_plain_artifacts (st : loop_state) (s : step) :
  exists x,
    steps_results (run_plain C st s).1 = steps_results st ++ [x] /\
    sr_agent x = agent s /\
    collected (run_plain C st s).1 =
      match output (sr x) with
      | Some out => dict_set (collected st) (agent s) (VDict out)
      | None => collected st
      end.
Proof.
  unfold run_plain.
  destruct (agents C !! agent s) as [a|].
  2: { cbn. eexists. repeat split. }
  destruct (invoke C a _ _) as [input out n|e [input|]].
  - destruct (evaluate_exit_conditions C _ _); cbn [fst snd];
      unfold hoist_if_any, with_artifacts, note_attempts;
      destruct (_collect_expected_artifacts _ _); destruct (1 <? n);
      cbn; eexists; repeat split.
  - cbn. eexists. repeat split.
  - cbn. eexists. repeat split.
Qed.

Lemma latest_output_snoc (name : string) (results : list step_result)
    (x : step_result) :
  latest_output name (results ++ [x]) =
  if String.eqb (sr_agent x) name
  then match output (sr x) with
       | Some out => Some out
       | None => latest_output name results
       end
  else latest_output name results.
Proof. unfold latest_output. by rewrite fold_left_app. Qed.

Lemma artifacts_tally_step (st st' : loop_state) (a : string) (x : step_result) :
  artifacts_tally st ->
  steps_results st' = steps_results st ++ [x] -> sr_agent x = a ->
  collected st' = match output (sr x) with
                  | Some out => dict_set (collected st) a (VDict out)
                  | None => collected st
                  end ->
  artifacts_tally st'.
Proof.
  intros [Hu Hget] Hr Ha Hc. split.
  - rewrite Hc. destruct (output (sr x)); [|done].
    by apply DictFacts.dict_set_unique.
  - intros name. rewrite Hr, latest_output_snoc, Hc, Ha.
    destruct (output (sr x)) as [out|].
    + rewrite DictFacts.dict_get_set.
      destruct (String.eqb a name); [done | apply Hget].
    + rewrite Hget. by destruct (String.eqb a name).
Qed.

Lemma fold_execute_artifacts (nodes : list step) :
  forall st, artifacts_tally st ->
    artifacts_tally (fold_left (execute_node C) nodes st).
Proof.
  induction nodes as [|node nodes IH]; intros st Hst; [done|].
  cbn [fold_left]. apply IH.
  destruct (execute_node_artifacts st node) as (x & Hr & Ha & Hc).
  by eapply artifacts_tally_step.
Qed.

Lemma plain_walk_artifacts (nodes : list step) :
  forall st, artifacts_tally st -> artifacts_tally (plain_walk C nodes st).
Proof.
  induction nodes as [|node nodes IH]; intros st Hst; [done|].
  change (plain_walk C (node :: nodes) st)
    with (plain_walk C nodes (run_plain C st (step_of (plan_steps st) node)).1).
  apply IH.
  destruct (run_plain_artifacts st (step_of (plan_steps st) node))
    as (x & Hr & Ha & Hc).
  by eapply artifacts_tally_step.
Qed.

Lemma start_state_artifacts (p : Plan) (l : list step) :
  artifacts_tally (start_state p l).
Proof. split; [apply NoDup_nil_2 | done]. Qed.

(** The artifacts of an execution record are the latest outputs.  In
    the record [execute] returns, and in the one [execute_stream] persists,
    [artifacts] holds under an agent's name the output of the last step
    result of that agent that has an output, and has no entry for an agent
    none of whose steps has one: a run that failed leaves no artifact and
    does not remove the one an earlier step of the same agent left.  No key
    is stored twice. *)
Theorem artifacts_are_latest_outputs (m : option value) (k : option string)
    (uuid : string) (s : service) :
  (forall r s' log,
     execute C m k uuid s = (Returned r, s', log) ->
     unique_keys (er_artifacts r) /\
     forall name,
       dict_get (er_artifacts r) name = VDict <$> latest_output name (er_steps r)) /\
  (forall events s' log,
     execute_stream C m k uuid s = (events, None, s', log) ->
     exists r kk,
       recall_execution kk (repository s') = Some r /\
       unique_keys (er_artifacts r) /\
       forall name,
         dict_get (er_artifacts r) name = VDict <$> latest_output name (er_steps r)).
Proof.
  split.
  - intros r s' log. unfold execute.
    destruct (resolve_plan C m k uuid s) as [[[p kk]|e] s1]; [|done].
    intros [= <- _ _]. cbn [er_artifacts er_steps record_of].
    apply fold_execute_artifacts, start_state_artifacts.
  - intros events s' log. unfold execute_stream.
    destruct (resolve_plan C m k uuid s) as [[[p kk]|e] s1]; [|done].
    match goal with
    | |- context [fold_left (stream_node C ?total) ?nodes (?st, ?evs, ?cur)] =>
        destruct (stream_fold total nodes st evs cur) as (fresh & _ & _ & Hfold);
        pose proof (plain_walk_artifacts nodes st (start_state_artifacts _ _)) as Htally
    end.
    rewrite Hfold. intros [= _ <- _].
    eexists _, kk. split; [apply ServiceFacts.persist_recall|].
    cbn [er_artifacts er_steps record_of]. exact Htally.
Qed.

Lemma load_in_step (s : service) :
  in_step s ->
  state (_load_state C s) = repository s /\
  repository (_load_state C s) = repository s /\
  in_step (_load_state C s).
Proof.
  intros Hs. unfold _load_state.
  destruct (_state_cache s) as [cached|] eqn:Hc.
  - rewrite (Hs cached Hc).
    destruct (_cache_timestamp s) as [stamp|]; [destruct (Qlt_le_dec _ _)|];
      cbn; repeat split; intros c; cbn; congruence.
  - destruct (_cache_timestamp s); cbn; repeat split; intros c; cbn; congruence.
Qed.

Lemma save_in_step (s : service) :
  repository (_save_state C s) = state s /\ in_step (_save_state C s).
Proof. split; [done|]. intros c. cbn. congruence. Qed.

(** The plan a run is for, as the first lines of [execute] and
    [execute_stream] settle it. *)
Lemma resolve_plan_frame (m : option value) (k : option string) (uuid : string)
    (s s1 : service) (p : Plan) (kk : string) :
  in_step s ->
  resolve_plan C m k uuid s = (Returned (p, kk), s1) ->
  (forall k', k' <> kk ->
     recall_plan k' (state s1) = recall_plan k' (repository s)) /\
  executions (state s1) = executions (repository s) /\
  (forall given, k = Some given ->
     kk = strip given /\
     exists p0, recall_plan kk (repository s) = Some p0 /\
       plan_id p = plan_id p0 /\ graph p = graph p0 /\
       connectors p = connectors p0 /\ steps p = steps p0 /\
       match m with
       | None => matter p = matter p0
       | Some _ => validate_matter (model_validate C) m true = Returned (matter p)
       end) /\
  (k = None ->
     kk = uuid /\ plan_id p = uuid /\
     exists vm,
       validate_matter (model_validate C) m true = Returned vm /\
       validate_matter (model_validate C) (Some (VDict vm)) true =
         Returned (matter p)).
Proof.
  intros Hs. unfold resolve_plan, validate_execute_params.
  destruct (load_in_step s Hs) as (Hstate & Hrepo & Hs1).
  destruct k as [given|].
  - unfold validate_plan_id.
    destruct (String.eqb_spec (strip given) "") as [|Hne];
      [by destruct m|].
    destruct m as [v|].
    + destruct (validate_matter (model_validate C) (Some v) true) as [vm|e] eqn:Hv;
        [|done].
      rewrite Hstate.
      destruct (recall_plan (strip given) (repository s)) as [p0|] eqn:Hp0; [|done].
      intros [= <- <- <-]. cbn. rewrite Hstate.
      split; [|split; [done|split; [|done]]].
      * intros k' Hne'. unfold recall_plan. cbn. by rewrite lookup_insert_ne.
      * intros given' [= <-]. split; [done|]. by exists p0.
    + rewrite Hstate.
      destruct (recall_plan (strip given) (repository s)) as [p0|] eqn:Hp0; [|done].
      intros [= <- <- <-]. rewrite Hstate.
      split; [done|]. split; [done|]. split; [|done].
      intros given' [= <-]. split; [done|]. by exists p0.
  - destruct m as [v|]; [|done].
    destruct (validate_matter (model_validate C) (Some v) true) as [vm|e] eqn:Hv;
      [|done].
    cbn [fmap option_fmap option_map]. unfold plan.
    destruct (validate_matter (model_validate C) (Some (VDict vm)) true)
      as [vm2|e] eqn:Hv2; [|done].
    destruct (load_in_step _ Hs1) as (Hstate2 & Hrepo2 & _).
    intros [= <- <- <-]. cbn. rewrite Hstate2, Hrepo.
    split; [|split; [done|split; [done|]]].
    + intros k' Hne'. unfold recall_plan. cbn. by rewrite lookup_insert_ne.
    + intros _. split; [done|]. split; [done|]. by exists vm.
Qed.

Lemma persist_frame (k : string) (p : Plan) (r : execution_record) (s : service) :
  in_step (persist C k p r s) /\
  recall_plan k (repository (persist C k p r s)) = Some p /\
  recall_execution k (repository (persist C k p r s)) = Some r /\
  forall k', k' <> k ->
    recall_plan k' (repository (persist C k p r s)) = recall_plan k' (state s) /\
    recall_execution k' (repository (persist C k p r s)) =
      recall_execution k' (state s).
Proof.
  split; [apply save_in_step|].
  split; [apply ServiceFacts.persist_recall|].
  split; [apply ServiceFacts.persist_recall|].
  intros k' Hne. unfold persist, recall_plan, recall_execution. cbn.
  by rewrite !lookup_insert_ne.
Qed.

(** A run of [execute] is for one plan and writes to that plan only.
    On a service whose cache agrees with its repository: with a plan id, the
    run is for the stored plan under the stripped id, keeps its graph and
    connectors, and keeps its matter unless a matter is passed along, in
    which case the validated matter replaces the stored one for good;
    without a plan id, a new plan is stored under the fresh id, and its
    matter is the matter validated twice (once by [execute], once by
    [plan]).  The plans and execution records of all other plan ids are left
    as they were, and cache and repository still agree afterwards. *)
Theorem execute_writes_one_plan (m : option value) (k : option string)
    (uuid : string) (s s' : service) (r : execution_record) log :
  in_step s ->
  execute C m k uuid s = (Returned r, s', log) ->
  in_step s' /\
  (forall k', k' <> er_plan_id r ->
     recall_plan k' (repository s') = recall_plan k' (repository s) /\
     recall_execution k' (repository s') = recall_execution k' (repository s)) /\
  (forall given, k = Some given ->
     er_plan_id r = strip given /\
     exists p0 p',
       recall_plan (strip given) (repository s) = Some p0 /\
       recall_plan (strip given) (repository s') = Some p' /\
       plan_id p' = plan_id p0 /\ graph p' = graph p0 /\
       connectors p' = connectors p0 /\
       match m with
       | None => matter p' = matter p0
       | Some _ => validate_matter (model_validate C) m true = Returned (matter p')
       end) /\
  (k = None ->
     er_plan_id r = uuid /\
     exists vm p',
       validate_matter (model_validate C) m true = Returned vm /\
       validate_matter (model_validate C) (Some (VDict vm)) true =
         Returned (matter p') /\
       recall_plan uuid (repository s') = Some p' /\ plan_id p' = uuid).
Proof.
  intros Hs. unfold execute.
  destruct (resolve_plan C m k uuid s) as [[[p kk]|e] s1] eqn:Hplan; [|done].
  destruct (resolve_plan_frame m k uuid s s1 p kk Hs Hplan)
    as (Hothers & Hexecs & Hgiven & Hnew).
  match goal with
  | |- (Returned ?rec, persist C kk ?p' ?rec s1, _) = _ -> _ =>
      destruct (persist_frame kk p' rec s1) as (Hin & Hp' & Hr' & Hframe)
  end.
  intros [= <- <- _]. cbn [er_plan_id record_of].
  split; [exact Hin|]. split; [|split].
  - intros k' Hne. destruct (Hframe k' Hne) as [H1 H2].
    rewrite H1, H2, (Hothers k' Hne). split; [done|].
    unfold recall_execution. by rewrite Hexecs.
  - intros given Hk. destruct (Hgiven given Hk) as (-> & p0 & Hp0 & Hid & Hg & Hc & _ & Hm).
    split; [done|]. eexists p0, _. split; [exact Hp0|]. split; [exact Hp'|].
    cbn. repeat split; try done.
  - intros Hk. destruct (Hnew Hk) as (-> & Hid & vm & Hv & Hv2).
    split; [done|]. eexists vm, _. split; [exact Hv|].
    split; [|split; [exact Hp'|]]; cbn; done.
Qed.

Lemma carries_refl (d : dict) : carries d d.
Proof. by intros key. Qed.

Lemma carries_set (source d : dict) (k : string) (v : value) :
  carries source d -> carries source (dict_set d k v).
Proof. intros H key Hk. by apply DictFacts.dict_has_set, H. Qed.

Lemma carries_update (source d other : dict) :
  carries source d -> carries source (dict_update d other).
Proof. intros H key Hk. apply DictFacts.dict_has_update. left. by apply H. Qed.

Lemma add_connectors_carries (source input resolved out : dict) :
  carries source input -> add_connectors input resolved = Returned out ->
  carries source out.
Proof.
  intros H. unfold add_connectors.
  destruct (dict_get input "connectors") as [[| | | | |present]|];
    intros [= <-]; by apply carries_set.
Qed.

Lemma write_document_type_carries (source input out : dict) (t : value) :
  carries source input -> write_document_type input t = Returned out ->
  carries source out.
Proof.
  intros H. unfold write_document_type.
  destruct (dict_get (dict_set input "document_type" t) "metadata")
    as [[| | | | |present]|];
    intros [= <-]; by do 2 apply carries_set.
Qed.

Lemma document_type_execute_carries (source input out : dict) :
  carries source input -> document_type_execute C input = Returned out ->
  carries source out.
Proof.
  intros H. unfold document_type_execute.
  destruct (py_get _ _) as [first|e]; [|done].
  destruct (if truthy first then _ else _) as [doc_type|e]; [|done].
  destruct (truthy doc_type).
  - by apply write_document_type_carries.
  - destruct (determine_document_type C input) as [detected|e]; [|done].
    by apply write_document_type_carries.
Qed.

Lemma document_type_detect_carries (source input out : dict) :
  carries source input -> document_type_detect C input = Returned out ->
  carries source out.
Proof.
  intros H. unfold document_type_detect.
  destruct (dict_has input "document_type"); [by intros [= <-]|].
  destruct (py_contains _ _) as [[|]|e]; [by intros [= <-]| |done].
  destruct (determine_document_type C input) as [detected|e]; [|done].
  by apply write_document_type_carries.
Qed.

Lemma agent_input_carries (settle : dict -> outcome dict)
    (source plan_matter propagated input : dict) (s : step) :
  (forall i o, carries source i -> settle i = Returned o -> carries source o) ->
  carries source plan_matter ->
  agent_input_for C settle plan_matter propagated s = Returned input ->
  carries source input.
Proof.
  intros Hsettle H. unfold agent_input_for, base_input.
  pose proof (carries_update source plan_matter propagated H) as Hbase.
  destruct (resolve C (required_connectors s)) as [[|c resolved]|e]; [| |done].
  - destruct (String.eqb (agent s) "dda"); [by apply Hsettle | by intros [= <-]].
  - destruct (add_connectors _ _) as [connected|e] eqn:Hadd; [|done].
    pose proof (add_connectors_carries _ _ _ _ Hbase Hadd) as Hconn.
    destruct (String.eqb (agent s) "dda"); [by apply Hsettle | by intros [= <-]].
Qed.

(** The input an invocation is logged with is the input that was built. *)
Lemma invoke_input (a : Agent) (input : outcome dict) (fallback : string) :
  match invoke C a input fallback with
  | Completed called _ _ | Failed _ (Some called) => input = Returned called
  | Failed _ None => True
  end.
Proof.
  unfold invoke. destruct input as [agent_input|e]; [|done].
  destruct (success _); [destruct (result _)|]; done.
Qed.

Lemma hoist_if_any_fed (source produced : dict) (st : loop_state) :
  well_fed source st -> well_fed source (hoist_if_any produced st).
Proof.
  intros [Hm Hc]. unfold hoist_if_any. destruct produced; [done|].
  split; [by apply carries_update | done].
Qed.

Lemma log_call_fed (source : dict) (s : step) (support : bool) (name : string)
    (called : option dict) (st : loop_state) :
  well_fed source st ->
  (forall input, called = Some input -> carries source input) ->
  well_fed source (log_call (call_of s support name called) st).
Proof.
  intros [Hm Hc] Hin. split; [done|]. cbn.
  apply Forall_app. split; [done|].
  destruct called as [input|]; cbn; [|done].
  constructor; [by apply Hin | done].
Qed.

Lemma run_supporting_fed (source : dict) (s : step) (out : dict)
    (sup : supporting) (acc : loop_state * list support_result * bool) :
  well_fed source acc.1.1 ->
  well_fed source (run_supporting C s out acc sup).1.1.
Proof.
  destruct acc as [[st outs] failed]. cbn [fst]. intros Hst.
  unfold run_supporting.
  destruct (agents C !! sup_agent sup) as [a|]; [|done].
  match goal with
  | |- context [invoke C a (Returned ?i) ?fb] =>
      pose proof (invoke_input a (Returned i) fb) as Hinput;
      assert (Hi : carries source i)
        by (do 2 apply carries_update; apply Hst);
      destruct (invoke C a (Returned i) fb) as [called o n|e called]
  end; cbn [fst].
  - injection Hinput as <-.
    apply hoist_if_any_fed.
    assert (Hlog := log_call_fed source s true (sup_agent sup) (Some _) st Hst
                      (fun input Heq => eq_ind _ (carries source) Hi _
                                          (f_equal (default input) Heq))).
    exact Hlog.
  - assert (Hlog : well_fed source (log_call (call_of s true (sup_agent sup) called) st)).
    { apply log_call_fed; [done|]. intros input ->. by injection Hinput as <-. }
    exact Hlog.
Qed.

Lemma fold_supporting_fed (source : dict) (s : step) (out : dict)
    (sups : list supporting) :
  forall acc, well_fed source acc.1.1 ->
    well_fed source (fold_left (run_supporting C s out) sups acc).1.1.
Proof.
  induction sups as [|sup sups IH]; intros acc Hacc; [done|].
  cbn [fold_left]. by apply IH, run_supporting_fed.
Qed.

Lemma annotate_fed (source : dict) (node s : step) (st : loop_state) :
  well_fed source st -> well_fed source (annotate node s st).
Proof. unfold annotate. by destruct (find_step _ _). Qed.

Lemma execute_node_fed (source : dict) (st : loop_state) (node : step) :
  well_fed source st -> well_fed source (execute_node C st node).
Proof.
  intros Hst. unfold execute_node.
  set (s := step_of (plan_steps st) node).
  destruct (agents C !! agent s) as [a|].
  2: { by apply annotate_fed. }
  match goal with
  | |- context [invoke C a ?i ?fb] =>
      pose proof (invoke_input a i fb) as Hinput;
      destruct (invoke C a i fb) as [called out n|e called] eqn:Hrun
  end.
  - assert (Hcalled : carries source called).
    { eapply (agent_input_carries (document_type_execute C));
        [|apply Hst|exact Hinput].
      intros i o. apply document_type_execute_carries. }
    match goal with
    | |- context [fold_left (run_supporting C ?s' out) ?sups ?acc] =>
        pose proof (fold_supporting_fed source s' out sups acc) as Hfold;
        destruct (fold_left (run_supporting C s' out) sups acc)
          as [[st1 outputs] support_failed]
    end.
    cbn [fst] in Hfold.
    assert (Hst1 : well_fed source st1).
    { apply Hfold. apply hoist_if_any_fed.
      match goal with
      | |- well_fed source (keep_output true ?n out (log_call ?c ?st0)) =>
          assert (Hlog : well_fed source (log_call c st0))
      end.
      { apply log_call_fed; [done|]. by intros input [= <-]. }
      exact Hlog. }
    destruct support_failed; [by apply annotate_fed|].
    destruct (evaluate_exit_conditions C _ _); by apply annotate_fed.
  - apply annotate_fed.
    assert (Hlog : well_fed source (log_call (call_of s false (agent s) called) st)).
    { apply log_call_fed; [done|]. intros input ->.
      eapply (agent_input_carries (document_type_execute C));
        [|apply Hst|exact Hinput].
      intros i o. apply document_type_execute_carries. }
    exact Hlog.
Qed.

Lemma run_plain_fed (source : dict) (st : loop_state) (s : step) :
  well_fed source st -> well_fed source (run_plain C st s).1.
Proof.
  intros Hst. unfold run_plain.
  destruct (agents C !! agent s) as [a|]; [|done].
  match goal with
  | |- context [invoke C a ?i ?fb] =>
      pose proof (invoke_input a i fb) as Hinput;
      destruct (invoke C a i fb) as [called out n|e called] eqn:Hrun
  end.
  - assert (Hcalled : carries source called).
    { eapply (agent_input_carries (document_type_detect C));
        [|apply Hst|exact Hinput].
      intros i o. apply document_type_detect_carries. }
    assert (Hst1 : well_fed source
              (hoist_if_any (_collect_expected_artifacts out (expected_artifacts s))
                 (keep_output true (agent s) out
                    (log_call (call_of s false (agent s) (Some called))
                       (record_event (phase_start (id s) (agent s) (phase s)) st))))).
    { apply hoist_if_any_fed.
      assert (Hlog : well_fed source
                (log_call (call_of s false (agent s) (Some called))
                   (record_event (phase_start (id s) (agent s) (phase s)) st))).
      { apply log_call_fed; [done|]. by intros input [= <-]. }
      exact Hlog. }
    destruct (evaluate_exit_conditions C _ _); exact Hst1.
  - assert (Hlog : well_fed source
              (log_call (call_of s false (agent s) called)
                 (record_event (phase_start (id s) (agent s) (phase s)) st))).
    { apply log_call_fed; [done|]. intros input ->.
      eapply (agent_input_carries (document_type_detect C));
        [|apply Hst|exact Hinput].
      intros i o. apply document_type_detect_carries. }
    exact Hlog.
Qed.

Lemma fold_execute_fed (source : dict) (nodes : list step) :
  forall st, well_fed source st ->
    well_fed source (fold_left (execute_node C) nodes st).
Proof.
  induction nodes as [|node nodes IH]; intros st Hst; [done|].
  cbn [fold_left]. by apply IH, execute_node_fed.
Qed.

Lemma plain_walk_fed (source : dict) (nodes : list step) :
  forall st, well_fed source st -> well_fed source (plain_walk C nodes st).
Proof.
  induction nodes as [|node nodes IH]; intros st Hst; [done|].
  change (plain_walk C (node :: nodes) st)
    with (plain_walk C nodes (run_plain C st (step_of (plan_steps st) node)).1).
  by apply IH, run_plain_fed.
Qed.

(** Nothing of the matter is lost on the way to an agent.  In a run of
    [execute] or [execute_stream], the input of every invocation of an
    agent, primary or supporting, has every key of the matter of the plan the
    run is for: outputs and artifacts of earlier steps, connectors and the
    document type are added to the input or overwrite a value, but no key is
    ever removed. *)
Theorem matter_reaches_every_agent (m : option value) (k : option string)
    (uuid : string) (s s1 : service) (p : Plan) (kk : string) :
  resolve_plan C m k uuid s = (Returned (p, kk), s1) ->
  Forall (fun c => carries (matter p) (call_input c)) (execute C m k uuid s).2 /\
  Forall (fun c => carries (matter p) (call_input c)) (execute_stream C m k uuid s).2.
Proof.
  intros Hplan.
  assert (Hstart : forall l, well_fed (matter p) (start_state p l)).
  { intros l. split; [apply carries_refl | constructor]. }
  split.
  - unfold execute. rewrite Hplan. cbn [snd].
    apply fold_execute_fed, Hstart.
  - unfold execute_stream. rewrite Hplan.
    match goal with
    | |- context [fold_left (stream_node C ?total) ?nodes (?st, ?evs, ?cur)] =>
        destruct (stream_fold total nodes st evs cur) as (fresh & _ & _ & Hfold);
        pose proof (plain_walk_fed (matter p) nodes st (Hstart _)) as Hfed
    end.
    rewrite Hfold. cbn [snd]. apply Hfed.
Qed.

End Engine.
Lemma stream_reports_every_step_witness :
  let out := execute_stream scenario_b (Some sample_matter) None "plan-1"
               sample_service in
  exists r p kk s1,
    resolve_plan scenario_b (Some sample_matter) None "plan-1" sample_service =
      (Returned (p, kk), s1) /\
    recall_execution kk (repository out.1.2) = Some r /\ er_plan_id r = kk /\
    map sr_id (er_steps r) = map id (topological_order scenario_b (graph_of scenario_b p)) /\
    [plan_created "plan-1"; agent_started "lda" 1 2 VNone;
     agent_completed "lda" 1 2; agent_started "dda" 2 2 VNone;
     agent_failed "dda" "model unavailable";
     execution_complete "failed" "plan-1" 1] =
      plan_created kk ::
      numbered_events (Z.of_nat (length (er_steps r))) 0 (er_steps r) ++
      [execution_complete (er_status r) kk (Z.of_nat (length (er_artifacts r)))] /\
    length [plan_created "plan-1"; agent_started "lda" 1 2 VNone;
            agent_completed "lda" 1 2; agent_started "dda" 2 2 VNone;
            agent_failed "dda" "model unavailable";
            execution_complete "failed" "plan-1" 1] =
      (2 * length (er_steps r) + 2)%nat.
Proof.
  intros out.
  apply (stream_reports_every_step scenario_b (Some sample_matter) None "plan-1"
           sample_service _ out.1.2 out.2).
  vm_compute. reflexivity.
Defined.

Lemma re_execute_starts_over_witness :
  exists st,
    (exists s',
       re_execute scenario_b "plan-1" None false interrupted_service =
         (Returned (record_of "plan-1" true st), s', calls st) /\
       recall_execution "plan-1" (repository s') =
         Some (record_of "plan-1" true st)) /\
    map sr_id (steps_results st) = ["n1"; "n2"] /\
    exists events s1,
      execute_stream scenario_b None (Some "plan-1") "u" interrupted_service =
        (events, None, s1, calls st) /\
      recall_execution "plan-1" (repository s1) =
        Some (record_of "plan-1" false st).
Proof.
  edestruct (re_execute_starts_over scenario_b "plan-1" "u" None false
               interrupted_service) as (Hre & Hids & Hstream).
  - vm_compute. reflexivity.
  - by left.
  - by left.
  - vm_compute. apply NoDup_cons. split; [|apply NoDup_singleton].
    intros H%list_elem_of_singleton. discriminate.
  - eexists. split; [exact Hre|]. split; [exact Hids|].
    apply Hstream; [discriminate | reflexivity].
Defined.


Lemma execute_writes_one_plan_witness :
  exists r s' log,
    execute scenario_b (Some sample_matter) None "plan-1" sample_service =
      (Returned r, s', log) /\
    in_step s' /\ er_plan_id r = "plan-1" /\
    forall k', k' <> "plan-1" ->
      recall_plan k' (repository s') = recall_plan k' (repository sample_service) /\
      recall_execution k' (repository s') =
        recall_execution k' (repository sample_service).
Proof.
  destruct (execute scenario_b (Some sample_matter) None "plan-1" sample_service)
    as [[[r|e] s'] log] eqn:E; [|vm_compute in E; discriminate].
  assert (Hin : in_step sample_service) by (intros c Hc; discriminate).
  destruct (execute_writes_one_plan scenario_b (Some sample_matter) None "plan-1"
              sample_service s' r log Hin E) as (Hin' & Hframe & _ & Hnew).
  destruct (Hnew eq_refl) as (Hid & _).
  exists r, s', log. split; [reflexivity|]. split; [exact Hin'|].
  split; [exact Hid|]. intros k' Hne. apply Hframe. by rewrite Hid.
Defined.

Lemma matter_reaches_every_agent_witness :
  exists p,
    (execute scenario_b (Some sample_matter) None "plan-1" sample_service).2 <> [] /\
    Forall (fun c => carries (matter p) (call_input c))
      (execute scenario_b (Some sample_matter) None "plan-1" sample_service).2 /\
    Forall (fun c => carries (matter p) (call_input c))
      (execute_stream scenario_b (Some sample_matter) None "plan-1"
         sample_service).2.
Proof.
  destruct (resolve_plan scenario_b (Some sample_matter) None "plan-1"
              sample_service) as [[[p kk]|e] s1] eqn:E;
    [|vm_compute in E; discriminate].
  exists p. split; [vm_compute; discriminate|].
  exact (matter_reaches_every_agent scenario_b (Some sample_matter) None "plan-1"
           sample_service s1 p kk E).
Defined.

End ServiceLaws.
